(** * libpmemobj: pool lifecycle and object directory (obj.c)

    A shallow embedding of [src/libpmemobj/obj.c].  Integers are [Z] with the
    wrap-around of the C type written out, C strings are lists of bytes,
    the pool registry ([struct cuckoo *pools]) is a [gmap], and the code that
    threads the mapped pool, [errno] and the order of its stores and syncs is
    written in a small state monad. *)

From Stdlib Require Import ZArith List Lia Bool.
From stdpp Require Import base gmap.

Local Open Scope Z_scope.

(** ** Machine integers *)

Definition u64 (x : Z) : Z := x mod 2 ^ 64.
Definition u16 (x : Z) : Z := x mod 2 ^ 16.
Definition UINT16_MAX : Z := 65535.
Definition NULL : Z := 0.

(** ** C strings

    A [const char *] is the list of bytes readable from the pointer; the
    string ends at the first zero byte (or at the end of the list). *)

Fixpoint strlen (s : list Z) : Z :=
  match s with
  | [] => 0
  | c :: s' => if c =? 0 then 0 else 1 + strlen s'
  end.

(** [strncpy dest src n] : the [n] bytes written to [dest]; the bytes of
    [src] up to its terminator, then zero padding. *)
Fixpoint strncpy (src : list Z) (n : nat) : list Z :=
  match n with
  | O => []
  | S n' =>
      match src with
      | [] => 0 :: strncpy [] n'
      | c :: src' => if c =? 0 then 0 :: strncpy [] n' else c :: strncpy src' n'
      end
  end.

(** [strncmp a b n] : difference of the first bytes that differ among the
    first [n], comparison stops after a terminator. *)
Fixpoint strncmp (a b : list Z) (n : nat) : Z :=
  match n with
  | O => 0
  | S n' =>
      let ca := hd 0 a in
      let cb := hd 0 b in
      if negb (ca =? cb) then ca - cb
      else if ca =? 0 then 0
      else strncmp (tl a) (tl b) n'
  end.

(** Overwrite the first bytes of a buffer, as [strncpy] into a larger array. *)
Definition overwrite (buf new : list Z) : list Z :=
  new ++ drop (length new) buf.

(** ** Byte order *)

Fixpoint le_bytes (n : nat) (x : Z) : list Z :=
  match n with
  | O => []
  | S n' => (x mod 256) :: le_bytes n' (x / 256)
  end.

Fixpoint u_of_le_bytes (bs : list Z) : Z :=
  match bs with
  | [] => 0
  | b :: bs' => b + 256 * u_of_le_bytes bs'
  end.

Definition bswap (n : nat) (x : Z) : Z := u_of_le_bytes (rev (le_bytes n x)).

(** ** Code with early exits

    A statement either falls through with a value, jumps to the [err]
    label, or does not return: a failed [ASSERT], an access through a
    pointer that maps no pool, a wait for a lock that is held. *)
Inductive outcome (A : Type) :=
| Done (a : A)
| GotoErr
| Abort.
Arguments Done {A} a.
Arguments GotoErr {A}.
Arguments Abort {A}.

(** Code over a state [S]. *)
Definition M (S A : Type) : Type := S -> outcome A * S.

Definition ret {S A} (a : A) : M S A := fun m => (Done a, m).

Definition bind {S A B} (c : M S A) (k : A -> M S B) : M S B :=
  fun m =>
    match c m with
    | (Done a, m') => k a m'
    | (GotoErr, m') => (GotoErr, m')
    | (Abort, m') => (Abort, m')
    end.

Notation "'let*' x ':=' c 'in' k" := (bind c (fun x => k))
  (at level 10, x name, c at level 100, k at level 200).
Notation "c ';;' k" := (bind c (fun _ => k))
  (at level 100, k at level 200, right associativity).

Definition goto_err {S A} : M S A := fun m => (GotoErr, m).
Definition ASSERT {S} (b : bool) : M S unit :=
  fun m => if b then (Done tt, m) else (Abort, m).
Definition when {S} (b : bool) (c : M S unit) : M S unit := if b then c else ret tt.

(** ** Constants of the headers

    [obj.h], [util.h], [lane.h], [list.h] and [libpmemobj.h] are not part of
    the verified file; their constants are taken as parameters. *)

Class ObjConsts := {
  EINVAL : Z;
  OBJ_HDR_SIG : list Z;
  POOL_HDR_SIG_LEN : Z;
  OBJ_FORMAT_MAJOR : Z;
  OBJ_FORMAT_COMPAT : Z;
  OBJ_FORMAT_INCOMPAT : Z;
  OBJ_FORMAT_RO_COMPAT : Z;
  PMEMOBJ_MAX_LAYOUT : Z;
  PMEMOBJ_NUM_OID_TYPES : Z;
  OBJ_DSC_P_SIZE : Z;
  OBJ_LANES_OFFSET : Z;
  OBJ_NLANES : Z;
  sizeof_lane_layout : Z;
  sizeof_object_store_item : Z;
  OBJ_OOB_OFFSET : Z;
  offsetof_oob_size : Z;
  OP_ALLOC : Z;
  (** byte order of the host, for [htole16/32/64] *)
  host_big_endian : bool
}.

Section Obj.
Context {consts : ObjConsts}.

Definition htole16 (x : Z) : Z := if host_big_endian then bswap 2 x else x.
Definition htole32 (x : Z) : Z := if host_big_endian then bswap 4 x else x.
Definition htole64 (x : Z) : Z := if host_big_endian then bswap 8 x else x.

(** ** On-media structures *)

Record arch_flags := {
  alignment_desc : Z;
  e_machine : Z;
  arch_data : Z;
  arch_reserved : list Z
}.

(** Modelled from the spec: [struct pool_hdr] is declared in [util.h]; the
    fields are those of the on-media layout of the pool header. *)
Record pool_hdr := {
  signature : list Z;
  major : Z;
  compat_features : Z;
  incompat_features : Z;
  ro_compat_features : Z;
  uuid : list Z;
  crtime : Z;
  arch : arch_flags;
  hdr_unused : list Z;
  hdr_checksum : Z
}.

(** The persistent part of the pool descriptor, [OBJ_DSC_P_SIZE] bytes
    right after the header. *)
Record descriptor := {
  layout : list Z;
  lanes_offset : Z;
  nlanes : Z;
  obj_store_offset : Z;
  obj_store_size : Z;
  heap_offset : Z;
  heap_size : Z;
  checksum : Z
}.

(** The persistent contents of a pool: header, descriptor, [run_id] and
    the bytes of the rest of the file (lanes, object store, heap), indexed
    by their offset from the start of the pool. *)
Record image := {
  hdr : pool_hdr;
  dsc : descriptor;
  run_id : Z;
  bytes : Z -> Z
}.

Definition all_zero (l : list Z) : bool := forallb (Z.eqb 0) l.

Definition util_is_zeroed (h : pool_hdr) : bool :=
  all_zero (signature h) && (major h =? 0) && (compat_features h =? 0)
  && (incompat_features h =? 0) && (ro_compat_features h =? 0)
  && all_zero (uuid h) && (crtime h =? 0)
  && (alignment_desc (arch h) =? 0) && (e_machine (arch h) =? 0)
  && (arch_data (arch h) =? 0) && all_zero (arch_reserved (arch h))
  && all_zero (hdr_unused h) && (hdr_checksum h =? 0).

(** *** Field updates *)

Definition set_signature v h := Build_pool_hdr v (major h) (compat_features h)
  (incompat_features h) (ro_compat_features h) (uuid h) (crtime h) (arch h)
  (hdr_unused h) (hdr_checksum h).
Definition set_major v h := Build_pool_hdr (signature h) v (compat_features h)
  (incompat_features h) (ro_compat_features h) (uuid h) (crtime h) (arch h)
  (hdr_unused h) (hdr_checksum h).
Definition set_compat_features v h := Build_pool_hdr (signature h) (major h) v
  (incompat_features h) (ro_compat_features h) (uuid h) (crtime h) (arch h)
  (hdr_unused h) (hdr_checksum h).
Definition set_incompat_features v h := Build_pool_hdr (signature h) (major h)
  (compat_features h) v (ro_compat_features h) (uuid h) (crtime h) (arch h)
  (hdr_unused h) (hdr_checksum h).
Definition set_ro_compat_features v h := Build_pool_hdr (signature h) (major h)
  (compat_features h) (incompat_features h) v (uuid h) (crtime h) (arch h)
  (hdr_unused h) (hdr_checksum h).
Definition set_uuid v h := Build_pool_hdr (signature h) (major h)
  (compat_features h) (incompat_features h) (ro_compat_features h) v (crtime h)
  (arch h) (hdr_unused h) (hdr_checksum h).
Definition set_crtime v h := Build_pool_hdr (signature h) (major h)
  (compat_features h) (incompat_features h) (ro_compat_features h) (uuid h) v
  (arch h) (hdr_unused h) (hdr_checksum h).
Definition set_arch v h := Build_pool_hdr (signature h) (major h)
  (compat_features h) (incompat_features h) (ro_compat_features h) (uuid h)
  (crtime h) v (hdr_unused h) (hdr_checksum h).
Definition set_hdr_checksum v h := Build_pool_hdr (signature h) (major h)
  (compat_features h) (incompat_features h) (ro_compat_features h) (uuid h)
  (crtime h) (arch h) (hdr_unused h) v.

Definition set_alignment_desc v a :=
  Build_arch_flags v (e_machine a) (arch_data a) (arch_reserved a).
Definition set_e_machine v a :=
  Build_arch_flags (alignment_desc a) v (arch_data a) (arch_reserved a).

Definition set_layout v d := Build_descriptor v (lanes_offset d) (nlanes d)
  (obj_store_offset d) (obj_store_size d) (heap_offset d) (heap_size d) (checksum d).
Definition set_lanes_offset v d := Build_descriptor (layout d) v (nlanes d)
  (obj_store_offset d) (obj_store_size d) (heap_offset d) (heap_size d) (checksum d).
Definition set_nlanes v d := Build_descriptor (layout d) (lanes_offset d) v
  (obj_store_offset d) (obj_store_size d) (heap_offset d) (heap_size d) (checksum d).
Definition set_obj_store_offset v d := Build_descriptor (layout d) (lanes_offset d)
  (nlanes d) v (obj_store_size d) (heap_offset d) (heap_size d) (checksum d).
Definition set_obj_store_size v d := Build_descriptor (layout d) (lanes_offset d)
  (nlanes d) (obj_store_offset d) v (heap_offset d) (heap_size d) (checksum d).
Definition set_heap_offset v d := Build_descriptor (layout d) (lanes_offset d)
  (nlanes d) (obj_store_offset d) (obj_store_size d) v (heap_size d) (checksum d).
Definition set_heap_size v d := Build_descriptor (layout d) (lanes_offset d)
  (nlanes d) (obj_store_offset d) (obj_store_size d) (heap_offset d) v (checksum d).
Definition set_checksum v d := Build_descriptor (layout d) (lanes_offset d)
  (nlanes d) (obj_store_offset d) (obj_store_size d) (heap_offset d) (heap_size d) v.

Definition set_hdr v i := Build_image v (dsc i) (run_id i) (bytes i).
Definition set_dsc v i := Build_image (hdr i) v (run_id i) (bytes i).
Definition set_run_id v i := Build_image (hdr i) (dsc i) v (bytes i).
Definition set_bytes v i := Build_image (hdr i) (dsc i) (run_id i) v.

(** [memset(base + p, c, n)] on the bytes of the file. *)
Definition memset (p c n : Z) (b : Z -> Z) : Z -> Z :=
  fun a => if (p <=? a) && (a <? p + n) then c else b a.

(** The bytes [p, p+n) of [dst] replaced by those of [src]. *)
Definition copy_range (p n : Z) (src dst : Z -> Z) : Z -> Z :=
  fun a => if (p <=? a) && (a <? p + n) then src a else dst a.

Definition descriptor_zero : descriptor :=
  Build_descriptor (repeat 0 (Z.to_nat PMEMOBJ_MAX_LAYOUT)) 0 0 0 0 0 0 0.

(** ** [pmemobj_get_uuid_lo] *)

Definition pmemobj_get_uuid_lo (h : pool_hdr) : Z :=
  fold_left
    (fun uuid_lo i =>
       Z.lor (u64 (Z.shiftl uuid_lo 8))
             (Z.lxor (nth i (uuid h) 0) (nth (8 + i) (uuid h) 0)))
    (seq 0 8) 0.

(** The derivation in the words of the specification: the low eight bytes
    of the UUID XORed with the high eight, byte-reversed, read as a [u64]
    (of a little-endian host). *)
Definition spec_uuid_lo (u : list Z) : Z :=
  u_of_le_bytes (rev (zip_with Z.lxor (take 8 u) (drop 8 u))).

(** ** Run-time state of a pool *)

(** The functions a pool's persistence table can point to. *)
Inductive fnptr :=
| fn_pmem_persist | fn_pmem_flush | fn_pmem_drain | fn_pmem_msync
| fn_drain_empty
| fn_pmem_memcpy_persist | fn_pmem_memset_persist
| fn_nopmem_memcpy_persist | fn_nopmem_memset_persist.

(** The run-time fields of [struct pmemobjpool] that [pmemobj_map_common]
    fills in; they are never read back from the file. *)
Record runtime := {
  rt_addr : Z;
  rt_size : Z;
  rt_rdonly : Z;
  rt_lanes : Z;
  rt_is_pmem : Z;
  rt_uuid_lo : Z;
  rt_store : Z;
  rt_persist : fnptr;
  rt_flush : fnptr;
  rt_drain : fnptr;
  rt_memcpy_persist : fnptr;
  rt_memset_persist : fnptr
}.

(** ** The machine [pmemobj_map_common] runs on *)

Inductive region := RgHdr | RgRunId | RgLanes | RgStore | RgDsc.

Inductive callee :=
| FnHeapInit | FnLaneBoot | FnHeapBoot | FnRangeNone | FnCuckooInsert | FnUnmap.

(** What the code does to the pool, in program order: stores into a
    region of the mapping, [pmem_msync] of a region, calls into the other
    subsystems. *)
Inductive event :=
| EvWrite (r : region)
| EvMsync (r : region)
| EvCall (f : callee).

(** [vol] is the mapping as the program sees it, [dur] what is on the
    media: a crash leaves [dur].  Each entry of [trace] pairs an event with
    the contents of the media when the event starts. *)
Record machine := {
  vol : image;
  dur : image;
  rt : option runtime;
  errno : Z;
  pools : gmap Z Z;
  trace : list (event * image)
}.

Definition set_vol v m := Build_machine v (dur m) (rt m) (errno m) (pools m) (trace m).
Definition set_dur v m := Build_machine (vol m) v (rt m) (errno m) (pools m) (trace m).
Definition set_rt v m := Build_machine (vol m) (dur m) v (errno m) (pools m) (trace m).
Definition set_errno v m := Build_machine (vol m) (dur m) (rt m) v (pools m) (trace m).
Definition set_pools v m := Build_machine (vol m) (dur m) (rt m) (errno m) v (trace m).
Definition set_trace v m := Build_machine (vol m) (dur m) (rt m) (errno m) (pools m) v.

Definition get_vol : M machine image := fun m => (Done (vol m), m).
Definition get_errno : M machine Z := fun m => (Done (errno m), m).
Definition put_errno (e : Z) : M machine unit := fun m => (Done tt, set_errno e m).

Definition log (e : event) : M machine unit :=
  fun m => (Done tt, set_trace (trace m ++ [(e, dur m)]) m).

(** Stores into the mapping. *)
Definition store_hdr (f : pool_hdr -> pool_hdr) : M machine unit :=
  log (EvWrite RgHdr) ;;
  fun m => (Done tt, set_vol (set_hdr (f (hdr (vol m))) (vol m)) m).
Definition store_dsc (f : descriptor -> descriptor) : M machine unit :=
  log (EvWrite RgDsc) ;;
  fun m => (Done tt, set_vol (set_dsc (f (dsc (vol m))) (vol m)) m).
Definition store_run_id (f : Z -> Z) : M machine unit :=
  log (EvWrite RgRunId) ;;
  fun m => (Done tt, set_vol (set_run_id (f (run_id (vol m))) (vol m)) m).
Definition memset_bytes (r : region) (p c n : Z) : M machine unit :=
  log (EvWrite r) ;;
  fun m => (Done tt, set_vol (set_bytes (memset p c n (bytes (vol m))) (vol m)) m).

(** Modelled from the spec: [pmem_msync] belongs to libpmem; after it
    returns, the synced range of the mapping is durable on the media. *)
Definition pmem_msync_hdr : M machine unit :=
  log (EvMsync RgHdr) ;;
  fun m => (Done tt, set_dur (set_hdr (hdr (vol m)) (dur m)) m).
Definition pmem_msync_dsc : M machine unit :=
  log (EvMsync RgDsc) ;;
  fun m => (Done tt, set_dur (set_dsc (dsc (vol m)) (dur m)) m).
Definition pmem_msync_run_id : M machine unit :=
  log (EvMsync RgRunId) ;;
  fun m => (Done tt, set_dur (set_run_id (run_id (vol m)) (dur m)) m).
Definition pmem_msync_bytes (r : region) (p n : Z) : M machine unit :=
  log (EvMsync r) ;;
  fun m => (Done tt,
            set_dur (set_bytes (copy_range p n (bytes (vol m)) (bytes (dur m))) (dur m)) m).

(** ** The other subsystems

    [util_*], [heap_*], [lane_*], [cuckoo_*] and libpmem are specified only
    at their interface.  The heap and lane code works on the bytes of the
    file below the descriptor; it gets the mapping and the media and
    returns them with its [errno]-style result. *)
Class PoolExternals := {
  util_pool_create : Z;
  util_pool_open : Z * Z;
  util_map : Z -> Z -> Z -> Z * Z;
  pmem_is_pmem : Z -> Z -> Z;
  util_convert_hdr : pool_hdr -> Z * pool_hdr;
  util_check_arch_flags : arch_flags -> Z;
  util_get_arch_flags : Z * arch_flags;
  checksum_hdr : pool_hdr -> Z;
  checksum_dsc : descriptor -> Z;
  util_feature_check : pool_hdr -> Z -> Z -> Z -> Z -> Z * Z;
  uuid_generate : list Z;
  time_now : Z;
  heap_init : descriptor -> (Z -> Z) * (Z -> Z) -> Z * ((Z -> Z) * (Z -> Z));
  lane_boot : descriptor -> (Z -> Z) * (Z -> Z) -> Z * ((Z -> Z) * (Z -> Z));
  heap_boot : descriptor -> (Z -> Z) * (Z -> Z) -> Z * ((Z -> Z) * (Z -> Z));
  heap_cleanup : Z;
  lane_cleanup : Z;
  heap_check : image -> Z;
  lane_check : image -> Z;
  cuckoo_insert : gmap Z Z -> Z -> Z -> Z * gmap Z Z
}.

Context {ext : PoolExternals}.

(** A call [errno = f(pop)] of a heap or lane routine. *)
Definition call_sub (c : callee)
    (f : descriptor -> (Z -> Z) * (Z -> Z) -> Z * ((Z -> Z) * (Z -> Z))) : M machine Z :=
  log (EvCall c) ;;
  fun m =>
    let '(r, (v, d)) := f (dsc (vol m)) (bytes (vol m), bytes (dur m)) in
    (Done r, set_errno r (set_dur (set_bytes d (dur m)) (set_vol (set_bytes v (vol m)) m))).

(** [util_checksum(p, len, csump, insert)] on the header and on the
    descriptor. *)
Definition util_checksum_hdr_insert (h : pool_hdr) : pool_hdr :=
  set_hdr_checksum (checksum_hdr h) h.
Definition util_checksum_dsc_insert (d : descriptor) : descriptor :=
  set_checksum (checksum_dsc d) d.
Definition util_checksum_dsc_check (d : descriptor) : bool :=
  checksum d =? checksum_dsc d.

(** ** [pmemobj_map_common] *)

(** The branch [if (!empty)]: a valid header must exist.  Returns the
    value of [rdonly] the rest of the function goes on with. *)
Definition map_open_checks (layout_arg : option (list Z)) (rdonly : Z) : M machine Z :=
  let* pop := get_vol in
  let '(ok, h) := util_convert_hdr (hdr pop) in
  when (ok =? 0) (put_errno EINVAL ;; goto_err) ;;
  when (negb (strncmp (signature h) OBJ_HDR_SIG (Z.to_nat POOL_HDR_SIG_LEN) =? 0))
       (put_errno EINVAL ;; goto_err) ;;
  when (negb (major h =? OBJ_FORMAT_MAJOR)) (put_errno EINVAL ;; goto_err) ;;
  when (negb (util_check_arch_flags (arch h) =? 0)) (put_errno EINVAL ;; goto_err) ;;
  when (match layout_arg with
        | Some l => negb (strncmp (layout (dsc pop)) l (Z.to_nat PMEMOBJ_MAX_LAYOUT) =? 0)
        | None => false
        end)
       (put_errno EINVAL ;; goto_err) ;;
  when (negb (util_checksum_dsc_check (dsc pop))) (put_errno EINVAL ;; goto_err) ;;
  let* e := get_errno in
  let '(retval, e') :=
    util_feature_check h OBJ_FORMAT_INCOMPAT OBJ_FORMAT_RO_COMPAT OBJ_FORMAT_COMPAT e in
  put_errno e' ;;
  if retval <? 0 then goto_err
  else if retval =? 0 then ret 1
  else ret rdonly.

(** The branch [else]: the file is a new pool, its header is created. *)
Definition map_create (layout_arg : option (list Z)) (poolsize rdonly : Z) : M machine Z :=
  ASSERT (rdonly =? 0) ;;
  let* pop := get_vol in
  when (negb (util_is_zeroed (hdr pop))) (put_errno EINVAL ;; goto_err) ;;
  when (match layout_arg with
        | Some l => PMEMOBJ_MAX_LAYOUT <=? strlen l
        | None => false
        end)
       (put_errno EINVAL ;; goto_err) ;;
  (* create pool's header *)
  store_hdr (fun h => set_signature
     (overwrite (signature h) (strncpy OBJ_HDR_SIG (Z.to_nat POOL_HDR_SIG_LEN))) h) ;;
  store_hdr (set_major (htole32 OBJ_FORMAT_MAJOR)) ;;
  store_hdr (set_compat_features (htole32 OBJ_FORMAT_COMPAT)) ;;
  store_hdr (set_incompat_features (htole32 OBJ_FORMAT_INCOMPAT)) ;;
  store_hdr (set_ro_compat_features (htole32 OBJ_FORMAT_RO_COMPAT)) ;;
  store_hdr (set_uuid uuid_generate) ;;
  store_hdr (set_crtime (htole64 (u64 time_now))) ;;
  store_hdr (set_arch (snd util_get_arch_flags)) ;;
  when (negb (fst util_get_arch_flags =? 0)) (put_errno EINVAL ;; goto_err) ;;
  store_hdr (fun h =>
     set_arch (set_alignment_desc (htole64 (alignment_desc (arch h))) (arch h)) h) ;;
  store_hdr (fun h =>
     set_arch (set_e_machine (htole16 (e_machine (arch h))) (arch h)) h) ;;
  store_hdr util_checksum_hdr_insert ;;
  (* store pool's header *)
  pmem_msync_hdr ;;
  (* initialize run_id, it will be incremented later *)
  store_run_id (fun _ => 0) ;;
  pmem_msync_run_id ;;
  (* zero all lanes *)
  memset_bytes RgLanes OBJ_LANES_OFFSET 0 (OBJ_NLANES * sizeof_lane_layout) ;;
  pmem_msync_bytes RgLanes OBJ_LANES_OFFSET (OBJ_NLANES * sizeof_lane_layout) ;;
  (* initialization of the obj_store *)
  let obj_store_offset_ := u64 (OBJ_LANES_OFFSET + OBJ_NLANES * sizeof_lane_layout) in
  let obj_store_size_ := u64 ((PMEMOBJ_NUM_OID_TYPES + 1) * sizeof_object_store_item) in
  memset_bytes RgStore obj_store_offset_ 0 obj_store_size_ ;;
  pmem_msync_bytes RgStore obj_store_offset_ obj_store_size_ ;;
  (* create the persistent part of pool's descriptor *)
  store_dsc (fun _ => descriptor_zero) ;;
  match layout_arg with
  | Some l =>
      store_dsc (fun d => set_layout
        (overwrite (layout d) (strncpy l (Z.to_nat (PMEMOBJ_MAX_LAYOUT - 1)))) d)
  | None => ret tt
  end ;;
  store_dsc (set_lanes_offset OBJ_LANES_OFFSET) ;;
  store_dsc (set_nlanes OBJ_NLANES) ;;
  store_dsc (set_obj_store_offset obj_store_offset_) ;;
  store_dsc (set_obj_store_size obj_store_size_) ;;
  store_dsc (fun d => set_heap_offset (u64 (obj_store_offset d + obj_store_size d)) d) ;;
  store_dsc (fun d => set_heap_size (u64 (poolsize - heap_offset d)) d) ;;
  let* r := call_sub FnHeapInit heap_init in
  when (negb (r =? 0)) goto_err ;;
  store_dsc util_checksum_dsc_insert ;;
  (* store the persistent part of pool's descriptor (2kB) *)
  pmem_msync_dsc ;;
  ret rdonly.

(** The value [run_id] is given by the two statements
    [pop->run_id += 2; if (pop->run_id == 0) pop->run_id += 2;]. *)
Definition next_run_id (r : Z) : Z :=
  let r1 := u64 (r + 2) in
  if r1 =? 0 then u64 (r1 + 2) else r1.

(** The part shared by create and open, from the [run_id] increment on. *)
Definition map_runtime (addr_ poolsize rdonly is_pmem_ : Z) : M machine Z :=
  (* run_id is made unique by incrementing the previous value *)
  store_run_id (fun r => u64 (r + 2)) ;;
  let* pop := get_vol in
  when (run_id pop =? 0) (store_run_id (fun r => u64 (r + 2))) ;;
  pmem_msync_run_id ;;
  let* pop := get_vol in
  (fun m => (Done tt, set_rt (Some
     {| rt_addr := addr_;
        rt_size := poolsize;
        rt_rdonly := rdonly;
        rt_lanes := NULL;
        rt_is_pmem := is_pmem_;
        rt_uuid_lo := pmemobj_get_uuid_lo (hdr pop);
        rt_store := u64 (addr_ + obj_store_offset (dsc pop));
        rt_persist := if is_pmem_ =? 0 then fn_pmem_msync else fn_pmem_persist;
        rt_flush := if is_pmem_ =? 0 then fn_pmem_msync else fn_pmem_flush;
        rt_drain := if is_pmem_ =? 0 then fn_drain_empty else fn_pmem_drain;
        rt_memcpy_persist :=
          if is_pmem_ =? 0 then fn_nopmem_memcpy_persist else fn_pmem_memcpy_persist;
        rt_memset_persist :=
          if is_pmem_ =? 0 then fn_nopmem_memset_persist else fn_pmem_memset_persist
     |}) m)) ;;
  let* r := call_sub FnLaneBoot lane_boot in
  when (negb (r =? 0)) goto_err ;;
  let* r := call_sub FnHeapBoot heap_boot in
  when (negb (r =? 0)) goto_err ;;
  log (EvCall FnRangeNone) ;;
  log (EvCall FnCuckooInsert) ;;
  let* r := (fun m =>
     let '(r, t) := cuckoo_insert (pools m) (pmemobj_get_uuid_lo (hdr pop)) addr_ in
     (Done r, set_errno r (set_pools t m))) in
  when (negb (r =? 0)) goto_err ;;
  ret addr_.

(** [pmemobj_map_common(fd, layout, poolsize, rdonly, empty)]: the pool
    handle, or [NULL] with [errno] set; [None] when an [ASSERT] stopped the
    process.  [util_map] gives a mapping that shows the file. *)
Definition pmemobj_map_common (fd : Z) (layout_arg : option (list Z))
    (poolsize rdonly empty : Z) (m : machine) : option Z * machine :=
  let '(addr_, e) := util_map fd poolsize rdonly in
  if addr_ =? NULL then (Some NULL, set_errno e m)
  else
    let m0 := set_vol (dur m) m in
    let is_pmem_ := pmem_is_pmem addr_ poolsize in
    let body :=
      let* rdonly' := (if empty =? 0 then map_open_checks layout_arg rdonly
                       else map_create layout_arg poolsize rdonly) in
      map_runtime addr_ poolsize rdonly' is_pmem_ in
    match body m0 with
    | (Done pop, m') => (Some pop, m')
    | (GotoErr, m') =>
        (* err: the mapping is dropped, errno is kept *)
        (Some NULL, set_trace (trace m' ++ [(EvCall FnUnmap, dur m')]) m')
    | (Abort, m') => (None, m')
    end.

(** [pmemobj_create] and [pmemobj_open]; [util_pool_create] and
    [util_pool_open] give the file descriptor (and the size of the file). *)
Definition pmemobj_create (layout_arg : option (list Z)) (poolsize : Z)
    (m : machine) : option Z * machine :=
  let '(fd, poolsize') :=
    if negb (poolsize =? 0) then (util_pool_create, poolsize) else util_pool_open in
  if fd =? -1 then (Some NULL, m)
  else pmemobj_map_common fd layout_arg poolsize' 0 1 m.

Definition pmemobj_open (layout_arg : option (list Z)) (m : machine)
    : option Z * machine :=
  let '(fd, poolsize) := util_pool_open in
  if fd =? -1 then (Some NULL, m)
  else pmemobj_map_common fd layout_arg poolsize 0 0 m.

(** [pmemobj_close]: the pool leaves the registry, heap and lanes are
    cleaned up, the file is unmapped; nothing is stored into the pool. *)
Definition pmemobj_close (pop : Z) (m : machine) : machine :=
  match rt m with
  | Some r =>
      set_trace (trace m ++ [(EvCall FnUnmap, dur m)])
        (set_errno lane_cleanup (set_pools (delete (rt_uuid_lo r) (pools m)) m))
  | None => m
  end.

(** [pmemobj_check]: the pool is mapped read-only through the open path;
    an odd [run_id], a failed heap check or a failed lane check make it
    inconsistent.  [-1] when the pool cannot be opened. *)
Definition pmemobj_check (layout_arg : option (list Z)) (m : machine)
    : option Z * machine :=
  let '(fd, poolsize) := util_pool_open in
  if fd =? -1 then (Some (-1), m)
  else
    match pmemobj_map_common fd layout_arg poolsize 1 0 m with
    | (None, m') => (None, m')
    | (Some pop, m') =>
        if pop =? NULL then (Some (-1), m')
        else
          let c1 := if negb (run_id (vol m') mod 2 =? 0) then 0 else 1 in
          let c2 := if negb (heap_check (vol m') =? 0) then 0 else c1 in
          let c3 := if negb (lane_check (vol m') =? 0) then 0 else c2 in
          (Some c3, pmemobj_close pop (set_errno (lane_check (vol m')) m'))
    end.

(** The events of a run, and the values of [run_id] a crash can leave on
    the media from the first call of a boot routine on. *)
Definition events (m : machine) : list event := map fst (trace m).

Definition is_boot (e : event) : bool :=
  match e with
  | EvCall FnLaneBoot | EvCall FnHeapBoot => true
  | _ => false
  end.

Fixpoint from_boot {A} (t : list (event * A)) : list (event * A) :=
  match t with
  | [] => []
  | p :: t' => if is_boot (fst p) then t else from_boot t'
  end.

Definition crash_run_ids_in_boot (t : list (event * image)) : list Z :=
  map (fun p => run_id (snd p)) (from_boot t).

(** What a call adds to the trace. *)
Definition new_trace (m m' : machine) : list (event * image) :=
  drop (length (trace m)) (trace m').

(** *** The [run_id] view of a machine

    For the claims on [run_id] and on the order of events, a machine is
    seen as its trace with each snapshot reduced to its [run_id], the
    [run_id] on the media and the [run_id] in the mapping. *)
Definition astate : Type := list (event * Z) * Z * Z.

Definition rtrace (t : list (event * image)) : list (event * Z) :=
  map (fun p => (fst p, run_id (snd p))) t.

Definition abs (m : machine) : astate :=
  (rtrace (trace m), run_id (dur m), run_id (vol m)).

Definition a_trace (s : astate) : list (event * Z) := fst (fst s).
Definition a_dur (s : astate) : Z := snd (fst s).
Definition a_vol (s : astate) : Z := snd s.

Definition alog (e : event) (s : astate) : astate :=
  (a_trace s ++ [(e, a_dur s)], a_dur s, a_vol s).
Definition astore (f : Z -> Z) (s : astate) : astate :=
  (a_trace s, a_dur s, f (a_vol s)).
Definition async (s : astate) : astate :=
  (a_trace s, a_vol s, a_vol s).

(** [runs c s Q R]: started in a machine seen as [s], the code [c] either
    falls through with a value and a machine that satisfy [Q], or leaves
    (to [err], or for good) in a machine that satisfies [R]. *)
Definition runs {A} (c : M machine A) (s : astate)
    (Q : A -> astate -> Prop) (R : astate -> Prop) : Prop :=
  forall m, abs m = s ->
    match c m with
    | (Done a, m') => Q a (abs m')
    | (_, m') => R (abs m')
    end.

(** *** The events of a successful run, as the code orders them *)

(** The create branch: the header and its checksum, synced; [run_id];
    the lanes; the object store; the descriptor, with the heap initialised
    before the descriptor's checksum is stored and the descriptor synced. *)
Definition create_events (layout_arg : option (list Z)) : list event :=
  repeat (EvWrite RgHdr) 11 ++ [EvMsync RgHdr]
  ++ [EvWrite RgRunId; EvMsync RgRunId]
  ++ [EvWrite RgLanes; EvMsync RgLanes]
  ++ [EvWrite RgStore; EvMsync RgStore]
  ++ repeat (EvWrite RgDsc) (match layout_arg with Some _ => 8 | None => 7 end)
  ++ [EvCall FnHeapInit; EvWrite RgDsc; EvMsync RgDsc].

(** The same with the [run_id] found on the media at each event, [d]
    being the value in the file before the call. *)
Definition create_rtrace (layout_arg : option (list Z)) (d : Z) : list (event * Z) :=
  map (fun e => (e, d)) (firstn 14 (create_events layout_arg))
  ++ map (fun e => (e, 0)) (skipn 14 (create_events layout_arg)).

(** From the increment of [run_id] on; [d] is the [run_id] on the media
    and [v] the one in the mapping when the increment starts. *)
Definition runtime_events (v : Z) : list event :=
  [EvWrite RgRunId] ++ (if u64 (v + 2) =? 0 then [EvWrite RgRunId] else [])
  ++ [EvMsync RgRunId; EvCall FnLaneBoot; EvCall FnHeapBoot;
      EvCall FnRangeNone; EvCall FnCuckooInsert].

Definition runtime_rtrace (d v : Z) : list (event * Z) :=
  [(EvWrite RgRunId, d)] ++ (if u64 (v + 2) =? 0 then [(EvWrite RgRunId, d)] else [])
  ++ [(EvMsync RgRunId, d)]
  ++ map (fun e => (e, next_run_id v))
       [EvCall FnLaneBoot; EvCall FnHeapBoot; EvCall FnRangeNone; EvCall FnCuckooInsert].

(** Every crash from the first boot call on, up to the end of the call
    (where the media hold [d]), finds [x] as [run_id]. *)
Definition boot_ok (x : Z) (l : list (event * Z)) (d : Z) : Prop :=
  Forall (fun r => r = x) (map snd (from_boot (l ++ [(EvCall FnUnmap, d)]))).

(** The exit condition of a call that started with the trace [t]. *)
Definition exits (t : list (event * Z)) (x : Z) (s : astate) : Prop :=
  exists l, a_trace s = t ++ l /\ boot_ok x l (a_dur s).

(** The [run_id] the increment starts from: the one in the file on the
    open path, the zero stored before on the create path. *)
Definition prior_run_id (empty d : Z) : Z := if empty =? 0 then d else 0.

Definition map_rtrace (empty : Z) (layout_arg : option (list Z)) (d : Z)
    : list (event * Z) :=
  if empty =? 0 then runtime_rtrace d d
  else create_rtrace layout_arg d ++ runtime_rtrace 0 0.

(** ** Objects

    A [PMEMoid] names an object by the pool it lives in and the offset of
    its payload; the out-of-band header sits [OBJ_OOB_OFFSET] bytes below
    the payload. *)

Record PMEMoid := { pool_uuid_lo : Z; off : Z }.

Definition OID_NULL : PMEMoid := {| pool_uuid_lo := 0; off := 0 |}.

Record list_entry := { pe_next : PMEMoid; pe_prev : PMEMoid }.

Record oob_header := {
  oob : list_entry;
  oob_size : Z;
  internal_type : Z;
  user_type : Z
}.

Record list_head := { pe_first : PMEMoid }.

(** [struct object_store]: one list head per type number, and the head
    of the list of the root object. *)
Record object_store := {
  bytype : list list_head;
  root : list_head
}.

Definition set_internal_type v h :=
  Build_oob_header (oob h) (oob_size h) v (user_type h).
Definition set_user_type v h :=
  Build_oob_header (oob h) (oob_size h) (internal_type h) v.
Definition set_oob_size v h :=
  Build_oob_header (oob h) v (internal_type h) (user_type h).

(** A mapped pool as the object code sees it: its run-time handle, the
    root lock, the object store, and the memory below it, typed: the OOB
    header found at an offset, and the payload bytes.  [oobs_media] and
    [media] are what has been made durable.
    Modelled from the spec: [rootlock] is the per-pool root mutex that
    [pmemobj_mutex_lock] acquires and [pmemobj_mutex_unlock] releases. *)
Record objpool := {
  pop_rt : runtime;
  rootlock : bool;
  store : object_store;
  oobs : Z -> oob_header;
  oobs_media : Z -> oob_header;
  data : Z -> Z;
  media : Z -> Z
}.

Definition set_rootlock v p := Build_objpool (pop_rt p) v (store p) (oobs p)
  (oobs_media p) (data p) (media p).
Definition set_store v p := Build_objpool (pop_rt p) (rootlock p) v (oobs p)
  (oobs_media p) (data p) (media p).
Definition set_oobs v p := Build_objpool (pop_rt p) (rootlock p) (store p) v
  (oobs_media p) (data p) (media p).
Definition set_oobs_media v p := Build_objpool (pop_rt p) (rootlock p) (store p)
  (oobs p) v (data p) (media p).
Definition set_data v p := Build_objpool (pop_rt p) (rootlock p) (store p) (oobs p)
  (oobs_media p) v (media p).
Definition set_media v p := Build_objpool (pop_rt p) (rootlock p) (store p) (oobs p)
  (oobs_media p) (data p) v.

Definition set_root v s := Build_object_store (bytype s) v.

(** [&pop->store->bytype[i].head] and [&store->root.head]. *)
Inductive head_ref := HeadBytype (i : Z) | HeadRoot.

(** A constructor with its argument [arg] already supplied: it gets the
    pointer to the payload, runs on the pool the object is allocated in and
    gives [None] when one of its [ASSERT]s fails.  Pointers into a pool are
    taken relative to the start of its mapping. *)
Definition constructor : Type := Z -> objpool -> option objpool.

(** *** Persistence through the pool's table *)

Definition update_at {A} (k : Z) (f : A -> A) (g : Z -> A) : Z -> A :=
  fun a => if a =? k then f (g a) else g a.

Definition memcpy (dest : Z) (src : list Z) (len : Z) (b : Z -> Z) : Z -> Z :=
  fun a => if (dest <=? a) && (a <? dest + len)
           then nth (Z.to_nat (a - dest)) src 0 else b a.

(** [pmem_msync(dest, len)] on payload bytes. *)
Definition pmem_msync_data (dest len : Z) (p : objpool) : objpool :=
  set_media (copy_range dest len (data p) (media p)) p.

Definition nopmem_memcpy_persist (dest : Z) (src : list Z) (len : Z) (p : objpool)
    : objpool :=
  pmem_msync_data dest len (set_data (memcpy dest src len (data p)) p).

Definition nopmem_memset_persist (dest c len : Z) (p : objpool) : objpool :=
  pmem_msync_data dest len (set_data (memset dest c len (data p)) p).

(** Modelled from the spec: [pmem_memcpy_persist], [pmem_memset_persist]
    and [pmem_persist] belong to libpmem; they are the pmem-aware variants,
    and when they return the range is durable. *)
Definition pmem_memcpy_persist (dest : Z) (src : list Z) (len : Z) (p : objpool)
    : objpool :=
  set_media (memcpy dest src len (media p)) (set_data (memcpy dest src len (data p)) p).

Definition pmem_memset_persist (dest c len : Z) (p : objpool) : objpool :=
  set_media (memset dest c len (media p)) (set_data (memset dest c len (data p)) p).

(** [pop->persist(pobj, OBJ_OOB_OFFSET)]: the OOB header at [pobj]. *)
Definition call_persist_oob (pobj : Z) (p : objpool) : option objpool :=
  match rt_persist (pop_rt p) with
  | fn_pmem_persist | fn_pmem_msync =>
      Some (set_oobs_media (update_at pobj (fun _ => oobs p pobj) (oobs_media p)) p)
  | _ => None
  end.

Definition call_memcpy_persist (dest : Z) (src : list Z) (len : Z) (p : objpool)
    : option objpool :=
  match rt_memcpy_persist (pop_rt p) with
  | fn_pmem_memcpy_persist => Some (pmem_memcpy_persist dest src len p)
  | fn_nopmem_memcpy_persist => Some (nopmem_memcpy_persist dest src len p)
  | _ => None
  end.

Definition call_memset_persist (dest c len : Z) (p : objpool) : option objpool :=
  match rt_memset_persist (pop_rt p) with
  | fn_pmem_memset_persist => Some (pmem_memset_persist dest c len p)
  | fn_nopmem_memset_persist => Some (nopmem_memset_persist dest c len p)
  | _ => None
  end.

(** *** Constructors *)

Definition OOB_HEADER_FROM_PTR (ptr : Z) : Z := ptr - OBJ_OOB_OFFSET.
Definition OOB_HEADER_FROM_OID (oid : PMEMoid) : Z := off oid - OBJ_OOB_OFFSET.

Definition constructor_zalloc (len : Z) : constructor :=
  fun ptr p =>
    if ptr =? NULL then None
    else call_memset_persist ptr 0 len p.

Record carg_bytype := {
  cb_user_type : Z;
  cb_constructor : option constructor
}.

Definition constructor_alloc_bytype (carg : carg_bytype) : constructor :=
  fun ptr p =>
    if ptr =? NULL then None
    else
      let pobj := OOB_HEADER_FROM_PTR ptr in
      let p1 := set_oobs (update_at pobj (set_internal_type OP_ALLOC) (oobs p)) p in
      let p2 := set_oobs (update_at pobj (set_user_type (cb_user_type carg)) (oobs p1)) p1 in
      match call_persist_oob pobj p2 with
      | None => None
      | Some p3 =>
          match cb_constructor carg with
          | Some c => c ptr p3
          | None => Some p3
          end
      end.

Record carg_strdup := {
  cs_user_type : Z;
  cs_len : Z;
  cs_s : list Z
}.

Definition constructor_strdup (carg : carg_strdup) : constructor :=
  fun ptr p =>
    if ptr =? NULL then None
    else
      let pobj := OOB_HEADER_FROM_PTR ptr in
      let p1 := set_oobs (update_at pobj (set_internal_type OP_ALLOC) (oobs p)) p in
      let p2 := set_oobs (update_at pobj (set_user_type (cs_user_type carg)) (oobs p1)) p1 in
      match call_persist_oob pobj p2 with
      | None => None
      | Some p3 =>
          (* copy string *)
          call_memcpy_persist ptr (cs_s carg) (cs_len carg) p3
      end.

Definition constructor_alloc_root (size : Z) : constructor :=
  fun ptr p =>
    if ptr =? NULL then None
    else
      let ro := OOB_HEADER_FROM_PTR ptr in
      let p1 := set_oobs (update_at ro (set_internal_type OP_ALLOC) (oobs p)) p in
      let p2 := set_oobs (update_at ro (set_user_type UINT16_MAX) (oobs p1)) p1 in
      let p3 := set_oobs (update_at ro (set_oob_size size) (oobs p2)) p2 in
      call_persist_oob ro p3.

(** *** The list and allocator primitives

    [list.c] and [pmalloc.c] are specified at their interface: a primitive
    gets the pool and [errno] and returns them with its result, [None] when
    it does not return.  [list_realloc] also returns the object identifier
    it leaves in [*oid]. *)
Class ListExternals := {
  list_insert_new :
    objpool -> head_ref -> Z -> Z -> PMEMoid -> Z -> Z -> constructor -> Z ->
    option (PMEMoid * Z * objpool);
  list_realloc :
    objpool -> head_ref -> Z -> Z -> Z -> option constructor -> Z -> Z ->
    PMEMoid -> Z -> option (Z * PMEMoid * Z * objpool);
  pmalloc_usable_size : objpool -> Z -> Z
}.

Context {lext : ListExternals}.

(** *** The process: registry, mappings, [errno]

    [w_pools] is the registry [pools] (key [uuid_lo], value the address
    of the pool), [w_maps] the pools mapped at each address; [w_calls]
    records the calls made into the registry and the allocator. *)
Inductive call := CallCuckooGet (key : Z) | CallPmallocUsableSize (o : Z).

Record world := {
  w_errno : Z;
  w_pools : gmap Z Z;
  w_maps : gmap Z objpool;
  w_calls : list call
}.

Definition set_w_errno v w := Build_world v (w_pools w) (w_maps w) (w_calls w).
Definition set_w_maps v w := Build_world (w_errno w) (w_pools w) v (w_calls w).
Definition set_w_calls v w := Build_world (w_errno w) (w_pools w) (w_maps w) v.

Definition cuckoo_get (key : Z) : M world Z :=
  fun w => (Done (default NULL (w_pools w !! key)),
            set_w_calls (w_calls w ++ [CallCuckooGet key]) w).

(** Reading the pool behind a pointer. *)
Definition deref (pop : Z) : M world objpool :=
  fun w => match w_maps w !! pop with
           | Some p => (Done p, w)
           | None => (Abort, w)
           end.

Definition assign (pop : Z) (p : objpool) : M world unit :=
  fun w => (Done tt, set_w_maps (<[pop := p]> (w_maps w)) w).

Definition set_errno_w (e : Z) : M world unit :=
  fun w => (Done tt, set_w_errno e w).

(** [pop->store->bytype[i].head] *)
Definition bytype_head (p : objpool) (i : Z) : M world list_head :=
  fun w => match bytype (store p) !! Z.to_nat i with
           | Some h => (Done h, w)
           | None => (Abort, w)
           end.

Definition call_list_insert_new (pop : Z) (lhead : head_ref) (pe_offset head : Z)
    (dest : PMEMoid) (before size : Z) (c : constructor) : M world PMEMoid :=
  let* p := deref pop in
  fun w =>
    match list_insert_new p lhead pe_offset head dest before size c (w_errno w) with
    | Some (oid, e, p') => (Done oid, set_w_maps (<[pop := p']> (w_maps w)) (set_w_errno e w))
    | None => (Abort, w)
    end.

(** Modelled from the spec: the root mutex is acquired and released; a
    thread that waits for a held mutex does not go on. *)
Definition pmemobj_mutex_lock (pop : Z) : M world unit :=
  let* p := deref pop in
  ASSERT (negb (rootlock p)) ;;
  assign pop (set_rootlock true p).

Definition pmemobj_mutex_unlock (pop : Z) : M world unit :=
  let* p := deref pop in
  assign pop (set_rootlock false p).

(** *** Allocation *)

Definition pmemobj_alloc_construct (pop size type_num : Z)
    (c : option constructor) : M world PMEMoid :=
  if (type_num <? 0) || (PMEMOBJ_NUM_OID_TYPES <=? type_num) then
    set_errno_w EINVAL ;; ret OID_NULL
  else
    call_list_insert_new pop (HeadBytype type_num) 0 NULL OID_NULL 0 size
      (constructor_alloc_bytype
         {| cb_user_type := u16 type_num; cb_constructor := c |}).

Definition pmemobj_alloc (pop size type_num : Z) : M world PMEMoid :=
  pmemobj_alloc_construct pop size type_num None.

Definition pmemobj_zalloc (pop size type_num : Z) : M world PMEMoid :=
  pmemobj_alloc_construct pop size type_num (Some (constructor_zalloc size)).

Definition pmemobj_strdup (pop : Z) (s : list Z) (type_num : Z) : M world PMEMoid :=
  if (type_num <? 0) || (PMEMOBJ_NUM_OID_TYPES <=? type_num) then
    set_errno_w EINVAL ;; ret OID_NULL
  else
    let carg := {| cs_user_type := u16 type_num; cs_len := strlen s; cs_s := s |} in
    pmemobj_alloc_construct pop (cs_len carg) type_num (Some (constructor_strdup carg)).

Definition pmemobj_alloc_usable_size (oid : PMEMoid) : M world Z :=
  if off oid =? 0 then ret 0
  else
    let* pop := cuckoo_get (pool_uuid_lo oid) in
    ASSERT (negb (pop =? NULL)) ;;
    let* p := deref pop in
    (fun w => (Done tt,
       set_w_calls (w_calls w ++ [CallPmallocUsableSize (u64 (off oid - OBJ_OOB_OFFSET))]) w)) ;;
    ret (u64 (pmalloc_usable_size p (u64 (off oid - OBJ_OOB_OFFSET)) - OBJ_OOB_OFFSET)).

Definition pmemobj_direct (oid : PMEMoid) : M world Z :=
  let* pop := cuckoo_get (pool_uuid_lo oid) in
  ret (u64 (pop + off oid)).

(** *** The root object *)

Definition obj_alloc_root (pop size : Z) : M world PMEMoid :=
  call_list_insert_new pop HeadRoot 0 NULL OID_NULL 0 size (constructor_alloc_root size).

(** [list_realloc] is handed [&lhead->pe_first] for [oid]: what it leaves
    in [*oid] is the first element of the root list. *)
Definition obj_realloc_root (pop size : Z) : M world Z :=
  let* p := deref pop in
  let first := pe_first (root (store p)) in
  let size_offset := u64 (off first - OBJ_OOB_OFFSET + offsetof_oob_size) in
  fun w =>
    match list_realloc p HeadRoot 0 NULL size None size_offset size first (w_errno w) with
    | Some (r, oid, e, p') =>
        let p'' := set_store (set_root {| pe_first := oid |} (store p')) p' in
        (Done r, set_w_maps (<[pop := p'']> (w_maps w)) (set_w_errno e w))
    | None => (Abort, w)
    end.

Definition pmemobj_root_size (pop : Z) : M world Z :=
  let* p := deref pop in
  if negb (off (pe_first (root (store p))) =? 0) then
    ret (oob_size (oobs p (OOB_HEADER_FROM_OID (pe_first (root (store p))))))
  else ret 0.

Definition pmemobj_root (pop size : Z) : M world PMEMoid :=
  let finish : M world PMEMoid :=
    let* p := deref pop in
    let root_ := pe_first (root (store p)) in
    pmemobj_mutex_unlock pop ;;
    ret root_ in
  pmemobj_mutex_lock pop ;;
  let* p := deref pop in
  if off (pe_first (root (store p))) =? 0 then
    (* root object list is empty *)
    obj_alloc_root pop size ;; finish
  else
    let* cur := pmemobj_root_size pop in
    if cur <? size then
      let* r := obj_realloc_root pop size in
      if negb (r =? 0) then pmemobj_mutex_unlock pop ;; ret OID_NULL
      else finish
    else finish.

(** *** Cursors *)

Definition pmemobj_first (pop type_num : Z) : M world PMEMoid :=
  if (type_num <? 0) || (PMEMOBJ_NUM_OID_TYPES <=? type_num) then
    set_errno_w EINVAL ;; ret OID_NULL
  else
    let* p := deref pop in
    let* h := bytype_head p type_num in
    ret (pe_first h).

Definition pmemobj_next (oid : PMEMoid) : M world PMEMoid :=
  if off oid =? 0 then ret OID_NULL
  else
    let* pop := cuckoo_get (pool_uuid_lo oid) in
    ASSERT (negb (pop =? NULL)) ;;
    let* p := deref pop in
    let pobj := oobs p (OOB_HEADER_FROM_OID oid) in
    let user_type_ := user_type pobj in
    ASSERT (user_type_ <? PMEMOBJ_NUM_OID_TYPES) ;;
    let* h := bytype_head p user_type_ in
    if negb (off (pe_next (oob pobj)) =? off (pe_first h)) then ret (pe_next (oob pobj))
    else ret OID_NULL.

(** The events on [run_id], with the [run_id] on the media at each. *)
Definition is_run_id_event (e : event) : bool :=
  match e with
  | EvWrite RgRunId | EvMsync RgRunId => true
  | _ => false
  end.

Definition run_id_events (l : list (event * Z)) : list (event * Z) :=
  List.filter (fun p => is_run_id_event (fst p)) l.

(** The steps of the create branch, each taken at the event that
    completes it: the sync of its region, or the call for the heap. *)
Inductive create_step :=
| ZeroLanes | ZeroStore | WriteDescriptor | InitHeap | WriteHeader.

Definition step_done (e : event) : option create_step :=
  match e with
  | EvMsync RgLanes => Some ZeroLanes
  | EvMsync RgStore => Some ZeroStore
  | EvMsync RgDsc => Some WriteDescriptor
  | EvCall FnHeapInit => Some InitHeap
  | EvMsync RgHdr => Some WriteHeader
  | _ => None
  end.

Definition durable_steps (l : list event) : list create_step := omap step_done l.

(** The persistence tables [pmemobj_map_common] installs. *)
Definition valid_table (r : runtime) : Prop :=
  (rt_persist r = fn_pmem_persist /\ rt_memcpy_persist r = fn_pmem_memcpy_persist
   /\ rt_memset_persist r = fn_pmem_memset_persist)
  \/ (rt_persist r = fn_pmem_msync /\ rt_memcpy_persist r = fn_nopmem_memcpy_persist
      /\ rt_memset_persist r = fn_nopmem_memset_persist).

End Obj.

(** ** The rest of obj.c

    Resizing, freeing and the list interface, on the definitions above;
    the list primitives they call are again taken at their interface. *)

Class ListMoreExternals := {
  offsetof_oob_user_type : Z;
  list_realloc_move :
    objpool -> head_ref -> head_ref -> Z -> Z -> Z -> option constructor -> Z -> Z ->
    PMEMoid -> Z -> option (Z * PMEMoid * Z * objpool);
  list_remove_free :
    objpool -> head_ref -> Z -> Z -> PMEMoid -> Z -> option (Z * Z * objpool);
  list_insert :
    objpool -> Z -> Z -> PMEMoid -> Z -> PMEMoid -> Z -> option (Z * Z * objpool);
  list_remove :
    objpool -> Z -> Z -> PMEMoid -> Z -> option (Z * Z * objpool);
  list_move :
    objpool -> Z -> Z -> Z -> Z -> PMEMoid -> Z -> PMEMoid -> Z ->
    option (Z * Z * objpool)
}.

Section ObjRest.
Context {consts : ObjConsts} {lext : ListExternals} {mext : ListMoreExternals}.

(** A call of a list primitive that returns an [int]: the pool behind
    [pop] and [errno] are replaced by what the primitive leaves. *)
Definition call_list (pop : Z)
    (f : objpool -> Z -> option (Z * Z * objpool)) : M world Z :=
  let* p := deref pop in
  fun w =>
    match f p (w_errno w) with
    | Some (r, e, p') => (Done r, set_w_maps (<[pop := p']> (w_maps w)) (set_w_errno e w))
    | None => (Abort, w)
    end.

(** The same for the primitives that also update [*oid]. *)
Definition call_list_oid (pop : Z)
    (f : objpool -> Z -> option (Z * PMEMoid * Z * objpool)) : M world (Z * PMEMoid) :=
  let* p := deref pop in
  fun w =>
    match f p (w_errno w) with
    | Some (r, oid, e, p') =>
        (Done (r, oid), set_w_maps (<[pop := p']> (w_maps w)) (set_w_errno e w))
    | None => (Abort, w)
    end.

(** [obj_realloc_construct]; [store] is [pop->store] at both callers. *)
Definition obj_realloc_construct (pop : Z) (oid : PMEMoid) (size type_num : Z)
    (c : option constructor) : M world PMEMoid :=
  let* p := deref pop in
  let user_type_old := user_type (oobs p (OOB_HEADER_FROM_OID oid)) in
  ASSERT (user_type_old <? PMEMOBJ_NUM_OID_TYPES) ;;
  if (type_num <? 0) || (PMEMOBJ_NUM_OID_TYPES <=? type_num) then
    set_errno_w EINVAL ;; ret OID_NULL
  else if type_num =? user_type_old then
    let* r := call_list_oid pop (fun p e =>
      list_realloc p (HeadBytype user_type_old) 0 NULL size c 0 0 oid e) in
    if negb (fst r =? 0) then ret OID_NULL else ret (snd r)
  else
    let user_type_offset := u64 (off oid - OBJ_OOB_OFFSET + offsetof_oob_user_type) in
    let* r := call_list_oid pop (fun p e =>
      list_realloc_move p (HeadBytype user_type_old) (HeadBytype type_num) 0 NULL size c
        user_type_offset type_num oid e) in
    if negb (fst r =? 0) then ret OID_NULL else ret (snd r).

Definition constructor_zrealloc (old_size new_size : Z) : constructor :=
  fun ptr p =>
    if ptr =? NULL then None
    else if negb (old_size <? new_size) then None
    else
      let grow_len := new_size - old_size in
      let new_data_ptr := u64 (ptr + old_size) in
      call_memset_persist new_data_ptr 0 grow_len p.

Definition pmemobj_realloc (pop : Z) (oid : PMEMoid) (size type_num : Z)
    : M world PMEMoid :=
  obj_realloc_construct pop oid size type_num None.

Definition pmemobj_zrealloc (pop : Z) (oid : PMEMoid) (size type_num : Z)
    : M world PMEMoid :=
  let* old_size := pmemobj_alloc_usable_size oid in
  if old_size <? size then
    obj_realloc_construct pop oid size type_num
      (Some (constructor_zrealloc old_size size))
  else
    obj_realloc_construct pop oid size type_num None.

(** [pmemobj_free]: a failure of [list_remove_free] is logged only. *)
Definition pmemobj_free (oid : PMEMoid) : M world unit :=
  if off oid =? 0 then ret tt
  else
    let* pop := cuckoo_get (pool_uuid_lo oid) in
    ASSERT (negb (pop =? NULL)) ;;
    let* p := deref pop in
    let user_type_ := user_type (oobs p (OOB_HEADER_FROM_OID oid)) in
    ASSERT (user_type_ <? PMEMOBJ_NUM_OID_TYPES) ;;
    let* _ := call_list pop (fun p e =>
      list_remove_free p (HeadBytype user_type_) 0 NULL oid e) in
    ret tt.

(** *** The list interface *)

Definition pmemobj_list_insert (pop pe_offset head : Z) (dest : PMEMoid)
    (before : Z) (oid : PMEMoid) : M world Z :=
  call_list pop (fun p e => list_insert p pe_offset head dest before oid e).

Definition pmemobj_list_insert_new (pop pe_offset head : Z) (dest : PMEMoid)
    (before size type_num : Z) : M world PMEMoid :=
  if (type_num <? 0) || (PMEMOBJ_NUM_OID_TYPES <=? type_num) then
    set_errno_w EINVAL ;; ret OID_NULL
  else
    call_list_insert_new pop (HeadBytype type_num) pe_offset head dest before size
      (constructor_alloc_bytype
         {| cb_user_type := u16 type_num; cb_constructor := None |}).

Definition pmemobj_list_remove (pop pe_offset head : Z) (oid : PMEMoid) (free : Z)
    : M world Z :=
  if negb (free =? 0) then
    let* p := deref pop in
    let user_type_ := user_type (oobs p (OOB_HEADER_FROM_OID oid)) in
    ASSERT (user_type_ <? PMEMOBJ_NUM_OID_TYPES) ;;
    call_list pop (fun p e =>
      list_remove_free p (HeadBytype user_type_) pe_offset head oid e)
  else
    call_list pop (fun p e => list_remove p pe_offset head oid e).

Definition pmemobj_list_move (pop pe_old_offset head_old pe_new_offset head_new : Z)
    (dest : PMEMoid) (before : Z) (oid : PMEMoid) : M world Z :=
  call_list pop (fun p e =>
    list_move p pe_old_offset head_old pe_new_offset head_new dest before oid e).

(** *** Walking a type list with [pmemobj_first] and [pmemobj_next] *)

(** The loop [for (o = first; o.off != 0; o = pmemobj_next(o))]: the
    identifiers met from [oid] on, until [pmemobj_next] returns the null
    identifier.  [None] when a call of [pmemobj_next] does not return or
    when [fuel] calls did not reach the null identifier. *)
Fixpoint walk (fuel : nat) (oid : PMEMoid) (w : world) : option (list PMEMoid) :=
  match fuel with
  | O => None
  | S fuel' =>
      if off oid =? 0 then Some []
      else
        match pmemobj_next oid w with
        | (Done oid', w') =>
            match walk fuel' oid' w' with
            | Some l => Some (oid :: l)
            | None => None
            end
        | _ => None
        end
  end.

(** The objects [os], in this order, are the list of type [t] of the pool
    [p]: the head names the first, each OOB header carries the type and
    names the next, the last names the first again. *)
Definition next_in_ring (os : list PMEMoid) (i : nat) : PMEMoid :=
  match os !! S i with
  | Some o => o
  | None => hd OID_NULL os
  end.

Definition type_list (p : objpool) (t : Z) (os : list PMEMoid) : Prop :=
  (exists h, bytype (store p) !! Z.to_nat t = Some h /\ pe_first h = hd OID_NULL os) /\
  NoDup (off <$> os) /\
  (forall i o, os !! i = Some o ->
     off o <> 0 /\
     user_type (oobs p (OOB_HEADER_FROM_OID o)) = t /\
     pe_next (oob (oobs p (OOB_HEADER_FROM_OID o))) = next_in_ring os i).

End ObjRest.

(** ** The struct fields of a machine

    For what [pmemobj_map_common] leaves in the header, the descriptor,
    [errno] and the run-time fields, a machine is seen as these alone. *)
Record sview := {
  sv_hdr : pool_hdr;
  sv_dsc : descriptor;
  sv_hdr_d : pool_hdr;
  sv_dsc_d : descriptor;
  sv_errno : Z;
  sv_rt : option runtime
}.

Definition view (m : machine) : sview :=
  {| sv_hdr := hdr (vol m); sv_dsc := dsc (vol m);
     sv_hdr_d := hdr (dur m); sv_dsc_d := dsc (dur m);
     sv_errno := errno m; sv_rt := rt m |}.

Definition vset_hdr v s :=
  Build_sview v (sv_dsc s) (sv_hdr_d s) (sv_dsc_d s) (sv_errno s) (sv_rt s).
Definition vset_dsc v s :=
  Build_sview (sv_hdr s) v (sv_hdr_d s) (sv_dsc_d s) (sv_errno s) (sv_rt s).
Definition vset_hdr_d v s :=
  Build_sview (sv_hdr s) (sv_dsc s) v (sv_dsc_d s) (sv_errno s) (sv_rt s).
Definition vset_dsc_d v s :=
  Build_sview (sv_hdr s) (sv_dsc s) (sv_hdr_d s) v (sv_errno s) (sv_rt s).
Definition vset_errno v s :=
  Build_sview (sv_hdr s) (sv_dsc s) (sv_hdr_d s) (sv_dsc_d s) v (sv_rt s).
Definition vset_rt v s :=
  Build_sview (sv_hdr s) (sv_dsc s) (sv_hdr_d s) (sv_dsc_d s) (sv_errno s) v.

(** [vruns c s Q R]: as [runs], on the struct fields. *)
Definition vruns {A} (c : M machine A) (s : sview)
    (Q : A -> sview -> Prop) (R : sview -> Prop) : Prop :=
  forall m, view m = s ->
    match c m with
    | (Done a, m') => Q a (view m')
    | (_, m') => R (view m')
    end.

(** ** The whole machine

    [fruns c m Q R]: from the machine [m], [c] returns a value and a
    machine in [Q], or stops in a machine in [R]. *)
Definition fruns {A} (c : M machine A) (m : machine)
    (Q : A -> machine -> Prop) (R : machine -> Prop) : Prop :=
  match c m with
  | (Done a, m') => Q a m'
  | (_, m') => R m'
  end.

(** The events [es], each with the media [i] it starts on. *)
Definition snap (i : image) (es : list event) : list (event * image) :=
  map (fun e => (e, i)) es.

Section Outcomes.
Context {consts : ObjConsts} {ext : PoolExternals}.

(** The bytes of a C string, without the terminator. *)
Fixpoint cstr (s : list Z) : list Z :=
  match s with
  | [] => []
  | c :: s' => if c =? 0 then [] else c :: cstr s'
  end.

(** The validation of the open branch up to the feature check: the tests
    whose failure sets [EINVAL]. *)
Definition open_checks_pass (layout_arg : option (list Z)) (h0 : pool_hdr)
    (d : descriptor) : bool :=
  let '(ok, h) := util_convert_hdr h0 in
  negb (ok =? 0)
  && (strncmp (signature h) OBJ_HDR_SIG (Z.to_nat POOL_HDR_SIG_LEN) =? 0)
  && (major h =? OBJ_FORMAT_MAJOR)
  && (util_check_arch_flags (arch h) =? 0)
  && match layout_arg with
     | Some l => strncmp (layout d) l (Z.to_nat PMEMOBJ_MAX_LAYOUT) =? 0
     | None => true
     end
  && util_checksum_dsc_check d.

(** The result of [util_feature_check] in the open branch. *)
Definition open_feature_check (h0 : pool_hdr) (e : Z) : Z * Z :=
  util_feature_check (snd (util_convert_hdr h0))
    OBJ_FORMAT_INCOMPAT OBJ_FORMAT_RO_COMPAT OBJ_FORMAT_COMPAT e.

(** Header and descriptor, in the mapping and on the media, are those
    given. *)
Definition frame (h : pool_hdr) (d : descriptor) (hd : pool_hdr) (dd : descriptor)
    (s : sview) : Prop :=
  sv_hdr s = h /\ sv_dsc s = d /\ sv_hdr_d s = hd /\ sv_dsc_d s = dd.

(** A header as the create branch fills it from the header [h0] of the
    file. *)
Definition created_hdr_ok (h0 h : pool_hdr) : Prop :=
  signature h = overwrite (signature h0) (strncpy OBJ_HDR_SIG (Z.to_nat POOL_HDR_SIG_LEN))
  /\ major h = htole32 OBJ_FORMAT_MAJOR
  /\ compat_features h = htole32 OBJ_FORMAT_COMPAT
  /\ incompat_features h = htole32 OBJ_FORMAT_INCOMPAT
  /\ ro_compat_features h = htole32 OBJ_FORMAT_RO_COMPAT
  /\ uuid h = uuid_generate
  /\ crtime h = htole64 (u64 time_now)
  /\ alignment_desc (arch h) = htole64 (alignment_desc (snd util_get_arch_flags))
  /\ e_machine (arch h) = htole16 (e_machine (snd util_get_arch_flags))
  /\ arch_data (arch h) = arch_data (snd util_get_arch_flags)
  /\ arch_reserved (arch h) = arch_reserved (snd util_get_arch_flags)
  /\ hdr_unused h = hdr_unused h0
  /\ hdr_checksum h = checksum_hdr (set_hdr_checksum (hdr_checksum h0) h).

(** A descriptor as the create branch fills it. *)
Definition created_dsc_ok (layout_arg : option (list Z)) (poolsize : Z)
    (d : descriptor) : Prop :=
  layout d = match layout_arg with
             | Some l => overwrite (repeat 0 (Z.to_nat PMEMOBJ_MAX_LAYOUT))
                           (strncpy l (Z.to_nat (PMEMOBJ_MAX_LAYOUT - 1)))
             | None => repeat 0 (Z.to_nat PMEMOBJ_MAX_LAYOUT)
             end
  /\ lanes_offset d = OBJ_LANES_OFFSET
  /\ nlanes d = OBJ_NLANES
  /\ obj_store_offset d = u64 (OBJ_LANES_OFFSET + OBJ_NLANES * sizeof_lane_layout)
  /\ obj_store_size d = u64 ((PMEMOBJ_NUM_OID_TYPES + 1) * sizeof_object_store_item)
  /\ heap_offset d = u64 (obj_store_offset d + obj_store_size d)
  /\ heap_size d = u64 (poolsize - heap_offset d)
  /\ checksum d = checksum_dsc (set_checksum 0 d).

(** The run-time fields as the common part installs them: the five
    entries of the persistence table are the libpmem ones on pmem and the
    msync ones otherwise. *)
Definition installed_rt_ok (addr_ poolsize rdonly is_pmem_ : Z) (h : pool_hdr)
    (d : descriptor) (r : runtime) : Prop :=
  rt_addr r = addr_ /\ rt_size r = poolsize /\ rt_rdonly r = rdonly
  /\ rt_lanes r = NULL /\ rt_is_pmem r = is_pmem_
  /\ rt_uuid_lo r = pmemobj_get_uuid_lo h
  /\ rt_store r = u64 (addr_ + obj_store_offset d)
  /\ valid_table r
  /\ (is_pmem_ <> 0 <-> rt_persist r = fn_pmem_persist)
  /\ (is_pmem_ = 0 <-> rt_drain r = fn_drain_empty)
  /\ (is_pmem_ <> 0 ->
      rt_persist r = fn_pmem_persist /\ rt_flush r = fn_pmem_flush
      /\ rt_drain r = fn_pmem_drain
      /\ rt_memcpy_persist r = fn_pmem_memcpy_persist
      /\ rt_memset_persist r = fn_pmem_memset_persist)
  /\ (is_pmem_ = 0 ->
      rt_persist r = fn_pmem_msync /\ rt_flush r = fn_pmem_msync
      /\ rt_drain r = fn_drain_empty
      /\ rt_memcpy_persist r = fn_nopmem_memcpy_persist
      /\ rt_memset_persist r = fn_nopmem_memset_persist).

End Outcomes.

(** ** A sample configuration

    The constants as libpmemobj defines them for x86-64, and simple
    stand-ins for the other subsystems: they run the code above on concrete
    pools. *)

Definition sample_consts : ObjConsts := {|
  EINVAL := 22;
  OBJ_HDR_SIG := [80; 77; 69; 77; 79; 66; 74; 0];
  POOL_HDR_SIG_LEN := 8;
  OBJ_FORMAT_MAJOR := 1;
  OBJ_FORMAT_COMPAT := 0;
  OBJ_FORMAT_INCOMPAT := 0;
  OBJ_FORMAT_RO_COMPAT := 0;
  PMEMOBJ_MAX_LAYOUT := 1024;
  PMEMOBJ_NUM_OID_TYPES := 1024;
  OBJ_DSC_P_SIZE := 2048;
  OBJ_LANES_OFFSET := 8192;
  OBJ_NLANES := 1024;
  sizeof_lane_layout := 3072;
  sizeof_object_store_item := 64;
  OBJ_OOB_OFFSET := 48;
  offsetof_oob_size := 32;
  OP_ALLOC := 1;
  host_big_endian := false
|}.

Definition sample_uuid : list Z :=
  [1; 2; 3; 4; 5; 6; 7; 8; 16; 32; 48; 64; 80; 96; 112; 128].

Definition sample_checksum_hdr (h : pool_hdr) : Z :=
  u64 (fold_left Z.add (signature h ++ uuid h) (major h + crtime h)).

Definition sample_checksum_dsc (d : descriptor) : Z :=
  u64 (fold_left Z.add (layout d) (heap_offset d + heap_size d)).

Definition sample_ext : PoolExternals := {|
  util_pool_create := 3;
  util_pool_open := (3, 8388608);
  util_map := fun _ _ _ => (4096000, 0);
  pmem_is_pmem := fun _ _ => 0;
  util_convert_hdr := fun h =>
    (if hdr_checksum h =? sample_checksum_hdr h then 1 else 0, h);
  util_check_arch_flags := fun _ => 0;
  util_get_arch_flags := (0, Build_arch_flags 1 62 1 [0; 0; 0; 0; 0]);
  checksum_hdr := sample_checksum_hdr;
  checksum_dsc := sample_checksum_dsc;
  util_feature_check := fun _ _ _ _ e => (1, e);
  uuid_generate := sample_uuid;
  time_now := 1445000000;
  heap_init := fun _ vd => (0, vd);
  lane_boot := fun _ vd => (0, vd);
  heap_boot := fun _ vd => (0, vd);
  heap_cleanup := 0;
  lane_cleanup := 0;
  heap_check := fun _ => 0;
  lane_check := fun _ => 0;
  cuckoo_insert := fun t k v =>
    match t !! k with
    | Some _ => (22, t)
    | None => (0, <[k := v]> t)
    end
|}.

(** A file of zeros: what [util_pool_create] hands to [pmemobj_create]. *)
Definition zero_hdr : pool_hdr :=
  Build_pool_hdr (repeat 0 8%nat) 0 0 0 0 (repeat 0 16%nat) 0
    (Build_arch_flags 0 0 0 (repeat 0 5%nat)) (repeat 0 64%nat) 0.

Definition zero_image : image :=
  Build_image zero_hdr (descriptor_zero (consts := sample_consts)) 0 (fun _ => 0).

Definition fresh_machine : machine :=
  Build_machine zero_image zero_image None 0 ∅ [].

(** The sample runs: a pool is created; the same through
    [pmemobj_map_common]; the pool is closed and mapped again. *)
Definition sample_layout : option (list Z) := Some [76; 49; 0].

Definition created : option Z * machine :=
  pmemobj_create (consts := sample_consts) (ext := sample_ext)
    sample_layout 8388608 fresh_machine.

Definition mapped : option Z * machine :=
  pmemobj_map_common (consts := sample_consts) (ext := sample_ext)
    3 sample_layout 8388608 0 1 fresh_machine.

Definition remapped : option Z * machine :=
  pmemobj_map_common (consts := sample_consts) (ext := sample_ext)
    3 sample_layout 8388608 0 0
    (pmemobj_close (ext := sample_ext) 4096000 (snd mapped)).

(** An allocator stand-in: every object is placed at the same offset, a
    list takes one object, nothing can grow. *)
Definition sample_link (lhead : head_ref) (oid : PMEMoid) (p : objpool) : objpool :=
  let p1 := set_oobs (update_at (off oid - 48)
              (fun h => Build_oob_header (Build_list_entry oid oid) (oob_size h)
                          (internal_type h) (user_type h)) (oobs p)) p in
  match lhead with
  | HeadRoot => set_store (set_root {| pe_first := oid |} (store p1)) p1
  | HeadBytype i =>
      set_store (Build_object_store
                   (<[Z.to_nat i := {| pe_first := oid |}]> (bytype (store p1)))
                   (root (store p1))) p1
  end.

Definition sample_lext : ListExternals := {|
  list_insert_new := fun p lhead _ _ _ _ size c e =>
    let ptr := 1048624 in
    match c ptr p with
    | None => None
    | Some p' =>
        let oid := {| pool_uuid_lo := rt_uuid_lo (pop_rt p'); off := ptr |} in
        Some (oid, e, sample_link lhead oid p')
    end;
  list_realloc := fun p _ _ _ _ _ _ _ oid _ => Some (-1, oid, 12, p);
  pmalloc_usable_size := fun _ _ => 112
|}.

Definition sample_rt : runtime := {|
  rt_addr := 4096000;
  rt_size := 8388608;
  rt_rdonly := 0;
  rt_lanes := 0;
  rt_is_pmem := 0;
  rt_uuid_lo := 1234605616436508552;
  rt_store := 7249920;
  rt_persist := fn_pmem_msync;
  rt_flush := fn_pmem_msync;
  rt_drain := fn_drain_empty;
  rt_memcpy_persist := fn_nopmem_memcpy_persist;
  rt_memset_persist := fn_nopmem_memset_persist
|}.

Definition zero_oob : oob_header :=
  Build_oob_header (Build_list_entry OID_NULL OID_NULL) 0 0 0.

(** An empty pool, as [pmemobj_create] leaves it. *)
Definition empty_pool : objpool := {|
  pop_rt := sample_rt;
  rootlock := false;
  store := Build_object_store (replicate 1024 {| pe_first := OID_NULL |})
                              {| pe_first := OID_NULL |};
  oobs := fun _ => zero_oob;
  oobs_media := fun _ => zero_oob;
  data := fun _ => 0;
  media := fun _ => 0
|}.

Definition sample_oid (o : Z) : PMEMoid :=
  {| pool_uuid_lo := 1234605616436508552; off := o |}.

(** A pool with two objects of type 3, at offsets 1000 and 2000, and a
    root object of 200 bytes at offset 5000. *)
Definition sample_pool : objpool := {|
  pop_rt := sample_rt;
  rootlock := false;
  store := Build_object_store
             (<[3%nat := {| pe_first := sample_oid 1000 |}]>
                (replicate 1024 {| pe_first := OID_NULL |}))
             {| pe_first := sample_oid 5000 |};
  oobs := fun a =>
    if a =? 952 then
      Build_oob_header (Build_list_entry (sample_oid 2000) (sample_oid 2000)) 0 1 3
    else if a =? 1952 then
      Build_oob_header (Build_list_entry (sample_oid 1000) (sample_oid 1000)) 0 1 3
    else if a =? 4952 then
      Build_oob_header (Build_list_entry (sample_oid 5000) (sample_oid 5000)) 200 1 65535
    else zero_oob;
  oobs_media := fun _ => zero_oob;
  data := fun _ => 0;
  media := fun _ => 0
|}.

Definition sample_world (p : objpool) : world := {|
  w_errno := 0;
  w_pools := {[ 1234605616436508552 := 4096000 ]};
  w_maps := {[ 4096000 := p ]};
  w_calls := []
|}.

(** The other list primitives of the stand-in: nothing is moved, unlinked
    or given back; [user_type] is at byte 42 of the OOB header. *)
Definition sample_mext : ListMoreExternals := {|
  offsetof_oob_user_type := 42;
  list_realloc_move := fun p _ _ _ _ _ _ _ _ oid _ => Some (-1, oid, 12, p);
  list_remove_free := fun p _ _ _ _ _ => Some (-1, 12, p);
  list_insert := fun p _ _ _ _ _ _ => Some (-1, 22, p);
  list_remove := fun p _ _ _ _ => Some (-1, 22, p);
  list_move := fun p _ _ _ _ _ _ _ _ => Some (-1, 22, p)
|}.

(** The created pool after [pmemobj_close]: the file as the next open
    finds it. *)
Definition closed : machine :=
  pmemobj_close (ext := sample_ext) 4096000 (snd mapped).

(** The root object of 64 bytes is asked for on the empty pool. *)
Definition rooted : outcome PMEMoid * world :=
  pmemobj_root (consts := sample_consts) (lext := sample_lext)
    4096000 64 (sample_world empty_pool).

(** * Theorems *)

(** ** Reasoning on [pmemobj_map_common] *)

Section RunsRules.
Context {consts : ObjConsts} {ext : PoolExternals}.

(** ** Rules of the [runs] calculus *)

Lemma runs_ret {A} (a : A) s (Q : A -> astate -> Prop) R :
  Q a s -> runs (ret a) s Q R.
Proof. intros H m <-. exact H. Qed.

Lemma runs_bind {A B} (c : M machine A) (k : A -> M machine B) s Q R :
  runs c s (fun a s' => runs (k a) s' Q R) R -> runs (bind c k) s Q R.
Proof.
  intros H m Hm. specialize (H m Hm). unfold bind.
  destruct (c m) as [[a | | ] m1]; auto.
  apply H. reflexivity.
Qed.

Lemma runs_goto_err {A} s (Q : A -> astate -> Prop) (R : astate -> Prop) :
  R s -> runs goto_err s Q R.
Proof. intros H m <-. exact H. Qed.

Lemma runs_put_errno e s (Q : unit -> astate -> Prop) R :
  Q tt s -> runs (put_errno e) s Q R.
Proof. intros H m <-. exact H. Qed.

Lemma runs_get_errno s (Q : Z -> astate -> Prop) R :
  (forall e, Q e s) -> runs get_errno s Q R.
Proof. intros H m <-. apply H. Qed.

Lemma runs_get_vol s (Q : image -> astate -> Prop) R :
  (forall pop, run_id pop = a_vol s -> Q pop s) -> runs get_vol s Q R.
Proof. intros H m <-. apply H. reflexivity. Qed.

Lemma runs_when b c s (Q : unit -> astate -> Prop) R :
  (b = true -> runs c s Q R) -> (b = false -> Q tt s) -> runs (when b c) s Q R.
Proof.
  destruct b; intros H1 H2; cbn.
  - auto.
  - apply runs_ret; auto.
Qed.

Lemma runs_fail b e s (Q : unit -> astate -> Prop) R :
  R s -> Q tt s -> runs (when b (bind (put_errno e) (fun _ => goto_err))) s Q R.
Proof.
  intros H1 H2. apply runs_when; intros _; [|exact H2].
  apply runs_bind, runs_put_errno, runs_goto_err, H1.
Qed.

Lemma runs_ASSERT b s (Q : unit -> astate -> Prop) (R : astate -> Prop) :
  R s -> Q tt s -> runs (ASSERT b) s Q R.
Proof. intros H1 H2 m <-. unfold ASSERT. destruct b; assumption. Qed.

Lemma abs_log e m : abs (set_trace (trace m ++ [(e, dur m)]) m) = alog e (abs m).
Proof. unfold abs, alog, rtrace. cbn. rewrite map_app. reflexivity. Qed.

Lemma runs_log e s (Q : unit -> astate -> Prop) R :
  Q tt (alog e s) -> runs (log e) s Q R.
Proof. intros H m <-. cbn. rewrite abs_log. exact H. Qed.

Lemma runs_store_hdr f s (Q : unit -> astate -> Prop) R :
  Q tt (alog (EvWrite RgHdr) s) -> runs (store_hdr f) s Q R.
Proof. intros H m <-. cbn. rewrite <- abs_log in H. exact H. Qed.

Lemma runs_store_dsc f s (Q : unit -> astate -> Prop) R :
  Q tt (alog (EvWrite RgDsc) s) -> runs (store_dsc f) s Q R.
Proof. intros H m <-. cbn. rewrite <- abs_log in H. exact H. Qed.

Lemma runs_store_run_id f s (Q : unit -> astate -> Prop) R :
  Q tt (astore f (alog (EvWrite RgRunId) s)) -> runs (store_run_id f) s Q R.
Proof. intros H m <-. cbn. rewrite <- abs_log in H. exact H. Qed.

Lemma runs_memset_bytes r p c n s (Q : unit -> astate -> Prop) R :
  Q tt (alog (EvWrite r) s) -> runs (memset_bytes r p c n) s Q R.
Proof. intros H m <-. cbn. rewrite <- abs_log in H. exact H. Qed.

Lemma runs_msync_hdr s (Q : unit -> astate -> Prop) R :
  Q tt (alog (EvMsync RgHdr) s) -> runs pmem_msync_hdr s Q R.
Proof. intros H m <-. cbn. rewrite <- abs_log in H. exact H. Qed.

Lemma runs_msync_dsc s (Q : unit -> astate -> Prop) R :
  Q tt (alog (EvMsync RgDsc) s) -> runs pmem_msync_dsc s Q R.
Proof. intros H m <-. cbn. rewrite <- abs_log in H. exact H. Qed.

Lemma runs_msync_run_id s (Q : unit -> astate -> Prop) R :
  Q tt (async (alog (EvMsync RgRunId) s)) -> runs pmem_msync_run_id s Q R.
Proof. intros H m <-. cbn. rewrite <- abs_log in H. exact H. Qed.

Lemma runs_msync_bytes r p n s (Q : unit -> astate -> Prop) R :
  Q tt (alog (EvMsync r) s) -> runs (pmem_msync_bytes r p n) s Q R.
Proof. intros H m <-. cbn. rewrite <- abs_log in H. exact H. Qed.

Lemma runs_call_sub c f s (Q : Z -> astate -> Prop) R :
  (forall r, Q r (alog (EvCall c) s)) -> runs (call_sub c f) s Q R.
Proof.
  intros H m <-. unfold call_sub, bind, log. cbn.
  destruct (f _ _) as [r [v d]]. cbn.
  specialize (H r). rewrite <- abs_log in H. exact H.
Qed.

(** A step that changes neither the trace nor [run_id]. *)
Lemma runs_silent {A} (c : M machine A) s (Q : A -> astate -> Prop) R :
  (forall m, exists a, fst (c m) = Done a /\ abs (snd (c m)) = abs m) ->
  (forall a, Q a s) -> runs c s Q R.
Proof.
  intros Hc H m <-. destruct (Hc m) as (a & H1 & H2).
  destruct (c m) as [o m1]. cbn in *. subst o. rewrite H2. apply H.
Qed.

End RunsRules.

Section MapCommon.
Context {consts : ObjConsts} {ext : PoolExternals}.

Lemma runs_conseq {A} (c : M machine A) s (Q Q' : A -> astate -> Prop) (R R' : astate -> Prop) :
  runs c s Q R -> (forall a s', Q a s' -> Q' a s') -> (forall s', R s' -> R' s') ->
  runs c s Q' R'.
Proof.
  intros H HQ HR m Hm. specialize (H m Hm).
  destruct (c m) as [[a | | ] m1]; auto.
Qed.

Ltac norm_trace :=
  cbv beta; cbv [alog astore async a_trace a_dur a_vol fst snd];
  rewrite <- ?app_assoc; cbn [app].

Ltac exit_now :=
  unfold exits, boot_ok; norm_trace;
  first [ exists []; split; [symmetry; apply app_nil_r | cbn; repeat constructor ]
        | eexists; split; [reflexivity | cbn; repeat constructor ] ].

Ltac run_step :=
  cbv beta;
  lazymatch goal with
  | |- runs (bind _ _) _ _ _ => apply runs_bind
  | |- runs (when _ (bind (put_errno _) (fun _ => goto_err))) _ _ _ =>
      apply runs_fail; [exit_now | ]
  | |- runs (ASSERT _) _ _ _ => apply runs_ASSERT; [exit_now | ]
  | |- runs (store_hdr _) _ _ _ => apply runs_store_hdr
  | |- runs (store_dsc _) _ _ _ => apply runs_store_dsc
  | |- runs (store_run_id _) _ _ _ => apply runs_store_run_id
  | |- runs (memset_bytes _ _ _ _) _ _ _ => apply runs_memset_bytes
  | |- runs pmem_msync_hdr _ _ _ => apply runs_msync_hdr
  | |- runs pmem_msync_dsc _ _ _ => apply runs_msync_dsc
  | |- runs pmem_msync_run_id _ _ _ => apply runs_msync_run_id
  | |- runs (pmem_msync_bytes _ _ _) _ _ _ => apply runs_msync_bytes
  | |- runs (put_errno _) _ _ _ => apply runs_put_errno
  | |- runs (log _) _ _ _ => apply runs_log
  | |- runs get_vol _ _ _ => apply runs_get_vol; intros ? ?
  | |- runs get_errno _ _ _ => apply runs_get_errno; intros ?
  | |- runs (call_sub _ _) _ _ _ => apply runs_call_sub; intros ?
  | |- runs goto_err _ _ _ => apply runs_goto_err; exit_now
  | |- runs (when _ goto_err) _ _ _ =>
      apply runs_when; [intros _; apply runs_goto_err; exit_now | intros _]
  | |- runs (ret _) _ _ _ => apply runs_ret
  end.

Lemma map_create_runs lay ps rd t d v x :
  runs (map_create lay ps rd) (t, d, v)
       (fun r s => r = rd /\ s = (t ++ create_rtrace lay d, 0, 0))
       (exits t x).
Proof.
  unfold map_create.
  repeat run_step.
  destruct lay as [l|]; repeat run_step.
  all: try (apply runs_when; intros _); repeat run_step.
  all: split; [reflexivity | norm_trace; reflexivity].
Qed.

Lemma map_open_checks_runs lay rd t d v x :
  runs (map_open_checks lay rd) (t, d, v) (fun _ s => s = (t, d, v)) (exits t x).
Proof.
  unfold map_open_checks.
  repeat run_step.
  destruct (util_convert_hdr (hdr pop)) as [ok h].
  repeat run_step.
  destruct (util_feature_check _ _ _ _ _) as [retval e'].
  repeat run_step.
  destruct (retval <? 0); [run_step|].
  destruct (retval =? 0); run_step; reflexivity.
Qed.

Lemma next_run_id_wrap v :
  (u64 (v + 2) =? 0) = true -> next_run_id v = u64 (u64 (v + 2) + 2).
Proof. intros H. unfold next_run_id. cbv zeta. rewrite H. reflexivity. Qed.

Lemma next_run_id_plain v :
  (u64 (v + 2) =? 0) = false -> next_run_id v = u64 (v + 2).
Proof. intros H. unfold next_run_id. cbv zeta. rewrite H. reflexivity. Qed.

Lemma map_runtime_runs a ps rd ip t d v :
  runs (map_runtime a ps rd ip) (t, d, v)
       (fun pop s => pop = a /\
                     s = (t ++ runtime_rtrace d v, next_run_id v, next_run_id v))
       (exits t (next_run_id v)).
Proof.
  unfold map_runtime, runtime_rtrace.
  repeat run_step.
  apply runs_when; intros Hb; cbv [alog astore a_vol a_trace a_dur fst snd] in H;
    rewrite H in Hb; rewrite Hb.
  - rewrite (next_run_id_wrap v Hb).
    repeat run_step.
    apply runs_silent; [intros m; eexists; split; reflexivity | intros _].
    repeat run_step.
    apply runs_silent.
    { intros m. destruct (cuckoo_insert _ _ _) as [r2 tb]. eexists; split; reflexivity. }
    intros r2. repeat run_step.
    split; [reflexivity | norm_trace; reflexivity].
  - rewrite (next_run_id_plain v Hb).
    repeat run_step.
    apply runs_silent; [intros m; eexists; split; reflexivity | intros _].
    repeat run_step.
    apply runs_silent.
    { intros m. destruct (cuckoo_insert _ _ _) as [r2 tb]. eexists; split; reflexivity. }
    intros r2. repeat run_step.
    split; [reflexivity | norm_trace; reflexivity].
Qed.

Lemma from_boot_create_rtrace {lay d} (l : list (event * Z)) :
  from_boot (create_rtrace lay d ++ l) = from_boot l.
Proof. destruct lay; reflexivity. Qed.

Lemma from_boot_runtime_rtrace d v :
  from_boot (runtime_rtrace d v)
  = map (fun e => (e, next_run_id v))
      [EvCall FnLaneBoot; EvCall FnHeapBoot; EvCall FnRangeNone; EvCall FnCuckooInsert].
Proof. unfold runtime_rtrace. destruct (u64 (v + 2) =? 0); reflexivity. Qed.

Lemma from_boot_map_rtrace empty lay d :
  from_boot (map_rtrace empty lay d)
  = map (fun e => (e, next_run_id (prior_run_id empty d)))
      [EvCall FnLaneBoot; EvCall FnHeapBoot; EvCall FnRangeNone; EvCall FnCuckooInsert].
Proof.
  unfold map_rtrace, prior_run_id. destruct (empty =? 0).
  - apply from_boot_runtime_rtrace.
  - rewrite from_boot_create_rtrace. apply from_boot_runtime_rtrace.
Qed.

Lemma Forall_from_boot_app {A} (P : A -> Prop) (l k : list (event * A)) :
  Forall P (map snd (from_boot (l ++ k))) -> Forall P (map snd (from_boot l)).
Proof.
  induction l as [|p l IH]; cbn [app from_boot]; intros H.
  - constructor.
  - destruct (is_boot (fst p)); [|auto].
    cbn [map] in *. rewrite map_app in H.
    apply Forall_cons in H as [H1 H2]. apply Forall_app in H2 as [H2 _].
    apply Forall_cons. split; assumption.
Qed.

Lemma exits_create_rtrace t lay d x s :
  exits (t ++ create_rtrace lay d) x s -> exits t x s.
Proof.
  intros (l & H1 & H2). exists (create_rtrace lay d ++ l). split.
  - rewrite H1. symmetry. apply app_assoc.
  - unfold boot_ok in *. rewrite <- app_assoc, from_boot_create_rtrace. exact H2.
Qed.

(** The body of [pmemobj_map_common], between [util_map] and the exits. *)
Lemma map_body_runs lay ps rd empty a ip t d :
  runs (bind (if empty =? 0 then map_open_checks lay rd else map_create lay ps rd)
             (fun rd' => map_runtime a ps rd' ip))
       (t, d, d)
       (fun pop s => pop = a /\
          s = (t ++ map_rtrace empty lay d,
               next_run_id (prior_run_id empty d), next_run_id (prior_run_id empty d)))
       (exits t (next_run_id (prior_run_id empty d))).
Proof.
  unfold map_rtrace, prior_run_id. apply runs_bind. destruct (empty =? 0).
  - eapply runs_conseq; [apply map_open_checks_runs | | intros s' H; exact H].
    intros rd' s' ->. apply map_runtime_runs.
  - eapply runs_conseq; [apply map_create_runs | | intros s' H; exact H].
    intros rd' s' [-> ->].
    eapply runs_conseq; [apply map_runtime_runs | | ].
    + intros pop s' [-> ->]. split; [reflexivity|]. rewrite app_assoc. reflexivity.
    + intros s'. apply exits_create_rtrace.
Qed.

(** What every run of [pmemobj_map_common] does to the trace and to
    [run_id]: whatever the outcome, a crash from the first boot call on
    finds the incremented [run_id]; a run that returns a pool has the events
    of [map_rtrace] and leaves the incremented [run_id] on the media. *)
Lemma map_common_abs fd lay ps rd empty m :
  let res := pmemobj_map_common fd lay ps rd empty m in
  let x := next_run_id (prior_run_id empty (run_id (dur m))) in
  (exists l, rtrace (trace (snd res)) = rtrace (trace m) ++ l /\
             Forall (fun r => r = x) (map snd (from_boot l))) /\
  (forall pop, fst res = Some pop -> pop <> NULL ->
     abs (snd res) = (rtrace (trace m) ++ map_rtrace empty lay (run_id (dur m)), x, x)).
Proof.
  cbv zeta. unfold pmemobj_map_common.
  destruct (util_map fd ps rd) as [a e].
  destruct (a =? NULL) eqn:Ha.
  { split.
    - exists []. rewrite app_nil_r. split; [reflexivity | constructor].
    - intros pop [= <-] Hp. congruence. }
  pose proof (map_body_runs lay ps rd empty a (pmem_is_pmem a ps)
                (rtrace (trace m)) (run_id (dur m)) (set_vol (dur m) m) eq_refl) as H.
  destruct (bind _ _ _) as [[pop | | ] m'].
  - destruct H as [-> H]. cbn [fst snd]. split.
    + exists (map_rtrace empty lay (run_id (dur m))).
      unfold abs in H. injection H as H _ _. split; [exact H|].
      rewrite from_boot_map_rtrace. repeat constructor.
    + intros _ _ _. exact H.
  - destruct H as (l & H1 & H2). cbn [fst snd]. split.
    + exists (l ++ [(EvCall FnUnmap, run_id (dur m'))]). split.
      * change (a_trace (abs m')) with (rtrace (trace m')) in H1.
        cbn [trace set_trace]. unfold rtrace at 1. rewrite map_app.
        fold (rtrace (trace m')). rewrite H1, <- app_assoc. reflexivity.
      * exact H2.
    + intros pop [= <-] Hp. congruence.
  - destruct H as (l & H1 & H2). cbn [fst snd]. split.
    + exists l. split; [exact H1|]. eapply Forall_from_boot_app, H2.
    + intros pop [=].
Qed.

End MapCommon.

(** ** Reasoning on the whole machine *)

Section FullRules.
Context {consts : ObjConsts} {ext : PoolExternals}.

Lemma fruns_ret {A} (a : A) m (Q : A -> machine -> Prop) R :
  Q a m -> fruns (ret a) m Q R.
Proof. intros H. exact H. Qed.

Lemma fruns_bind {A B} (c : M machine A) (k : A -> M machine B) m Q R :
  fruns c m (fun a m' => fruns (k a) m' Q R) R -> fruns (bind c k) m Q R.
Proof.
  unfold fruns, bind. destruct (c m) as [[a | | ] m1]; auto.
Qed.

Lemma fruns_conseq {A} (c : M machine A) m (Q Q' : A -> machine -> Prop)
    (R R' : machine -> Prop) :
  fruns c m Q R -> (forall a m', Q a m' -> Q' a m') -> (forall m', R m' -> R' m') ->
  fruns c m Q' R'.
Proof.
  unfold fruns. intros H HQ HR. destruct (c m) as [[a | | ] m1]; auto.
Qed.

Lemma fruns_goto_err {A} m (Q : A -> machine -> Prop) (R : machine -> Prop) :
  R m -> fruns goto_err m Q R.
Proof. intros H. exact H. Qed.

Lemma fruns_when b c m (Q : unit -> machine -> Prop) R :
  (b = true -> fruns c m Q R) -> (b = false -> Q tt m) -> fruns (when b c) m Q R.
Proof. destruct b; intros H1 H2; cbn; auto. Qed.

Lemma fruns_ASSERT b m (Q : unit -> machine -> Prop) (R : machine -> Prop) :
  (b = false -> R m) -> (b = true -> Q tt m) -> fruns (ASSERT b) m Q R.
Proof. unfold fruns, ASSERT. destruct b; auto. Qed.

Lemma fruns_put_errno e' v d r e p t (Q : unit -> machine -> Prop) R :
  Q tt (Build_machine v d r e' p t) ->
  fruns (put_errno e') (Build_machine v d r e p t) Q R.
Proof. intros H. exact H. Qed.

Lemma fruns_get_errno v d r e p t (Q : Z -> machine -> Prop) R :
  Q e (Build_machine v d r e p t) ->
  fruns get_errno (Build_machine v d r e p t) Q R.
Proof. intros H. exact H. Qed.

Lemma fruns_get_vol v d r e p t (Q : image -> machine -> Prop) R :
  Q v (Build_machine v d r e p t) ->
  fruns get_vol (Build_machine v d r e p t) Q R.
Proof. intros H. exact H. Qed.

Lemma fruns_log ev v d r e p t (Q : unit -> machine -> Prop) R :
  Q tt (Build_machine v d r e p (t ++ [(ev, d)])) ->
  fruns (log ev) (Build_machine v d r e p t) Q R.
Proof. intros H. exact H. Qed.

Lemma fruns_store_hdr f hv dv rv bv d r e p t (Q : unit -> machine -> Prop) R :
  Q tt (Build_machine (Build_image (f hv) dv rv bv) d r e p (t ++ [(EvWrite RgHdr, d)])) ->
  fruns (store_hdr f) (Build_machine (Build_image hv dv rv bv) d r e p t) Q R.
Proof. intros H. exact H. Qed.

Lemma fruns_store_dsc f hv dv rv bv d r e p t (Q : unit -> machine -> Prop) R :
  Q tt (Build_machine (Build_image hv (f dv) rv bv) d r e p (t ++ [(EvWrite RgDsc, d)])) ->
  fruns (store_dsc f) (Build_machine (Build_image hv dv rv bv) d r e p t) Q R.
Proof. intros H. exact H. Qed.

Lemma fruns_store_run_id f hv dv rv bv d r e p t (Q : unit -> machine -> Prop) R :
  Q tt (Build_machine (Build_image hv dv (f rv) bv) d r e p (t ++ [(EvWrite RgRunId, d)])) ->
  fruns (store_run_id f) (Build_machine (Build_image hv dv rv bv) d r e p t) Q R.
Proof. intros H. exact H. Qed.

Lemma fruns_memset_bytes rg a c n hv dv rv bv d r e p t (Q : unit -> machine -> Prop) R :
  Q tt (Build_machine (Build_image hv dv rv (memset a c n bv)) d r e p
          (t ++ [(EvWrite rg, d)])) ->
  fruns (memset_bytes rg a c n) (Build_machine (Build_image hv dv rv bv) d r e p t) Q R.
Proof. intros H. exact H. Qed.

Lemma fruns_msync_hdr hv dv rv bv hd dd rd bd r e p t (Q : unit -> machine -> Prop) R :
  Q tt (Build_machine (Build_image hv dv rv bv) (Build_image hv dd rd bd) r e p
          (t ++ [(EvMsync RgHdr, Build_image hd dd rd bd)])) ->
  fruns pmem_msync_hdr
    (Build_machine (Build_image hv dv rv bv) (Build_image hd dd rd bd) r e p t) Q R.
Proof. intros H. exact H. Qed.

Lemma fruns_msync_dsc hv dv rv bv hd dd rd bd r e p t (Q : unit -> machine -> Prop) R :
  Q tt (Build_machine (Build_image hv dv rv bv) (Build_image hd dv rd bd) r e p
          (t ++ [(EvMsync RgDsc, Build_image hd dd rd bd)])) ->
  fruns pmem_msync_dsc
    (Build_machine (Build_image hv dv rv bv) (Build_image hd dd rd bd) r e p t) Q R.
Proof. intros H. exact H. Qed.

Lemma fruns_msync_run_id hv dv rv bv hd dd rd bd r e p t (Q : unit -> machine -> Prop) R :
  Q tt (Build_machine (Build_image hv dv rv bv) (Build_image hd dd rv bd) r e p
          (t ++ [(EvMsync RgRunId, Build_image hd dd rd bd)])) ->
  fruns pmem_msync_run_id
    (Build_machine (Build_image hv dv rv bv) (Build_image hd dd rd bd) r e p t) Q R.
Proof. intros H. exact H. Qed.

Lemma fruns_msync_bytes rg a n hv dv rv bv hd dd rd bd r e p t
    (Q : unit -> machine -> Prop) R :
  Q tt (Build_machine (Build_image hv dv rv bv)
          (Build_image hd dd rd (copy_range a n bv bd)) r e p
          (t ++ [(EvMsync rg, Build_image hd dd rd bd)])) ->
  fruns (pmem_msync_bytes rg a n)
    (Build_machine (Build_image hv dv rv bv) (Build_image hd dd rd bd) r e p t) Q R.
Proof. intros H. exact H. Qed.

Lemma fruns_call_sub c f hv dv rv bv hd dd rd bd r e p t (Q : Z -> machine -> Prop) R :
  (forall x v b, f dv (bv, bd) = (x, (v, b)) ->
     Q x (Build_machine (Build_image hv dv rv v) (Build_image hd dd rd b) r x p
            (t ++ [(EvCall c, Build_image hd dd rd bd)]))) ->
  fruns (call_sub c f)
    (Build_machine (Build_image hv dv rv bv) (Build_image hd dd rd bd) r e p t) Q R.
Proof.
  intros H. unfold fruns, call_sub, bind, log. cbn.
  destruct (f dv (bv, bd)) as [x [v b]] eqn:E. cbn. apply H. reflexivity.
Qed.

Lemma fruns_set_rt x v d r e p t (Q : unit -> machine -> Prop) R :
  Q tt (Build_machine v d x e p t) ->
  fruns (fun m => (Done tt, set_rt x m)) (Build_machine v d r e p t) Q R.
Proof. intros H. exact H. Qed.

Lemma fruns_cuckoo_insert k a v d r e p t (Q : Z -> machine -> Prop) R :
  (forall x p', cuckoo_insert p k a = (x, p') -> Q x (Build_machine v d r x p' t)) ->
  fruns (fun m => let '(x, t) := cuckoo_insert (pools m) k a in
                  (Done x, set_errno x (set_pools t m))) (Build_machine v d r e p t) Q R.
Proof.
  intros H. unfold fruns. cbn. destruct (cuckoo_insert p k a) as [x p'] eqn:E.
  apply H. reflexivity.
Qed.

End FullRules.

Section FullMapCommon.
Context {consts : ObjConsts} {ext : PoolExternals}.

Lemma negb_eqb_false a b : negb (a =? b) = false -> a = b.
Proof. intros H. apply negb_false_iff, Z.eqb_eq in H. exact H. Qed.

Ltac fstep exit_tac :=
  cbv beta;
  lazymatch goal with
  | |- fruns (bind _ _) _ _ _ => apply fruns_bind
  | |- fruns (when _ _) _ _ _ => apply fruns_when; intros ?
  | |- fruns (ASSERT _) _ _ _ => apply fruns_ASSERT; [intros ?; exit_tac | intros ?]
  | |- fruns (store_hdr _) _ _ _ => apply fruns_store_hdr
  | |- fruns (store_dsc _) _ _ _ => apply fruns_store_dsc
  | |- fruns (store_run_id _) _ _ _ => apply fruns_store_run_id
  | |- fruns (memset_bytes _ _ _ _) _ _ _ => apply fruns_memset_bytes
  | |- fruns pmem_msync_hdr _ _ _ => apply fruns_msync_hdr
  | |- fruns pmem_msync_dsc _ _ _ => apply fruns_msync_dsc
  | |- fruns pmem_msync_run_id _ _ _ => apply fruns_msync_run_id
  | |- fruns (pmem_msync_bytes _ _ _) _ _ _ => apply fruns_msync_bytes
  | |- fruns (put_errno _) _ _ _ => apply fruns_put_errno
  | |- fruns (log _) _ _ _ => apply fruns_log
  | |- fruns get_vol _ _ _ => apply fruns_get_vol
  | |- fruns get_errno _ _ _ => apply fruns_get_errno
  | |- fruns (call_sub _ _) _ _ _ => apply fruns_call_sub; intros ? ? ? ?
  | |- fruns goto_err _ _ _ => apply fruns_goto_err; exit_tac
  | |- fruns (ret _) _ _ _ => apply fruns_ret
  | |- fruns (fun m => (Done tt, set_rt _ m)) _ _ _ => apply fruns_set_rt
  | |- fruns (fun m => let '(_, _) := cuckoo_insert _ _ _ in _) _ _ _ =>
      apply fruns_cuckoo_insert; intros ? ? ?
  end.

(** The machine [map_create] leaves when it falls through, from a
    machine whose mapping shows the media [hd], [dd], [rdd], [bd]: the
    header and the descriptor it built are in the mapping and on the media,
    [run_id] is 0, [heap_init] has run on the zeroed lanes and object store
    and on a descriptor without checksum; the trace has each event of the
    branch with the media of its moment. *)
Lemma map_create_full lay ps rd hd dd rdd bd r e p t :
  let lanes_len := OBJ_NLANES * sizeof_lane_layout in
  let store_off := u64 (OBJ_LANES_OFFSET + lanes_len) in
  let store_len := u64 ((PMEMOBJ_NUM_OID_TYPES + 1) * sizeof_object_store_item) in
  let vl := memset OBJ_LANES_OFFSET 0 lanes_len bd in
  let vs := memset store_off 0 store_len vl in
  let dl := copy_range OBJ_LANES_OFFSET lanes_len vl bd in
  let ds := copy_range store_off store_len vs dl in
  fruns (map_create lay ps rd)
    (Build_machine (Build_image hd dd rdd bd) (Build_image hd dd rdd bd) r e p t)
    (fun rd' m1 =>
       rd' = rd /\
       exists H D vb db,
         created_hdr_ok hd H /\ created_dsc_ok lay ps D /\
         heap_init (set_checksum 0 D) (vs, ds) = (0, (vb, db)) /\
         m1 = Build_machine (Build_image H D 0 vb) (Build_image H D 0 db) r 0 p
                (t ++ snap (Build_image hd dd rdd bd)
                        (repeat (EvWrite RgHdr) 11 ++ [EvMsync RgHdr])
                   ++ snap (Build_image H dd rdd bd) [EvWrite RgRunId; EvMsync RgRunId]
                   ++ snap (Build_image H dd 0 bd) [EvWrite RgLanes; EvMsync RgLanes]
                   ++ snap (Build_image H dd 0 dl) [EvWrite RgStore; EvMsync RgStore]
                   ++ snap (Build_image H dd 0 ds)
                        (repeat (EvWrite RgDsc)
                           (match lay with Some _ => 8 | None => 7 end)
                         ++ [EvCall FnHeapInit])
                   ++ snap (Build_image H dd 0 db) [EvWrite RgDsc; EvMsync RgDsc]))
    (fun _ => True).
Proof.
  cbv zeta. unfold map_create.
  repeat fstep ltac:(exact I).
  destruct lay as [l|]; repeat fstep ltac:(exact I).
  all: match goal with H : negb (?x =? 0) = false |- _ =>
         apply negb_eqb_false in H; subst x end.
  all: split; [reflexivity|].
  all: eexists _, _, _, _.
  all: split; [|split; [|split]]; cycle 3.
  all: try (rewrite <- !app_assoc; reflexivity).
  all: try (unfold created_hdr_ok; cbn; repeat split; reflexivity).
  all: try (unfold created_dsc_ok; cbn; repeat split; reflexivity).
  all: match goal with E : heap_init _ _ = _ |- _ => exact E end.
Qed.

(** [map_runtime] starts with a store into [run_id] and only adds to the
    trace. *)
Lemma map_runtime_trace a ps rd ip m :
  fruns (map_runtime a ps rd ip) m
    (fun x m2 => x = a /\ exists rest,
       trace m2 = trace m ++ (EvWrite RgRunId, dur m) :: rest)
    (fun _ => True).
Proof.
  destruct m as [[hv dv rv bv] [hd dd rdd bd] r e p t].
  unfold map_runtime.
  repeat fstep ltac:(exact I).
  all: split; [reflexivity|].
  all: eexists; cbn [trace dur]; rewrite <- !app_assoc; reflexivity.
Qed.

(** [map_runtime] returns the address of the mapping when both boot
    routines succeed and the registry takes the pool. *)
Lemma map_runtime_succeeds a ps rd ip m :
  (forall d b, fst (lane_boot d b) = 0) ->
  (forall d b, fst (heap_boot d b) = 0) ->
  fst (cuckoo_insert (pools m) (pmemobj_get_uuid_lo (hdr (vol m))) a) = 0 ->
  fst (map_runtime a ps rd ip m) = Done a.
Proof.
  intros Hlb Hhb Hc.
  assert (H : fruns (map_runtime a ps rd ip) m (fun x _ => x = a) (fun _ => False)).
  { destruct m as [[hv dv rv bv] [hd dd rdd bd] r e p t]. cbn [pools vol hdr] in Hc.
    unfold map_runtime.
    repeat fstep ltac:(idtac;
      match goal with
      | E : lane_boot ?d ?b = (?x, _), H : negb (?x =? 0) = true |- _ =>
          let X := fresh in
          pose proof (Hlb d b) as X; rewrite E in X; cbn [fst] in X; subst x;
          discriminate H
      | E : heap_boot ?d ?b = (?x, _), H : negb (?x =? 0) = true |- _ =>
          let X := fresh in
          pose proof (Hhb d b) as X; rewrite E in X; cbn [fst] in X; subst x;
          discriminate H
      | E : cuckoo_insert _ _ _ = (?x, _), H : negb (?x =? 0) = true |- _ =>
          cbn [hdr] in E; rewrite E in Hc; cbn [fst] in Hc; subst x; discriminate H
      end).
    all: reflexivity. }
  unfold fruns in H. destruct (map_runtime a ps rd ip m) as [[x | | ] m'];
    [subst x; reflexivity | contradiction | contradiction].
Qed.

(** The body of the create path, as [pmemobj_map_common] runs it. *)
Lemma create_body_full lay ps rd a ip hd dd rdd bd r e p t :
  let lanes_len := OBJ_NLANES * sizeof_lane_layout in
  let store_off := u64 (OBJ_LANES_OFFSET + lanes_len) in
  let store_len := u64 ((PMEMOBJ_NUM_OID_TYPES + 1) * sizeof_object_store_item) in
  let vl := memset OBJ_LANES_OFFSET 0 lanes_len bd in
  let vs := memset store_off 0 store_len vl in
  let dl := copy_range OBJ_LANES_OFFSET lanes_len vl bd in
  let ds := copy_range store_off store_len vs dl in
  fruns (bind (map_create lay ps rd) (fun rd' => map_runtime a ps rd' ip))
    (Build_machine (Build_image hd dd rdd bd) (Build_image hd dd rdd bd) r e p t)
    (fun x m2 =>
       x = a /\
       exists H D vb db rest,
         created_hdr_ok hd H /\ created_dsc_ok lay ps D /\
         heap_init (set_checksum 0 D) (vs, ds) = (0, (vb, db)) /\
         trace m2 =
           t ++ snap (Build_image hd dd rdd bd)
                  (repeat (EvWrite RgHdr) 11 ++ [EvMsync RgHdr])
             ++ snap (Build_image H dd rdd bd) [EvWrite RgRunId; EvMsync RgRunId]
             ++ snap (Build_image H dd 0 bd) [EvWrite RgLanes; EvMsync RgLanes]
             ++ snap (Build_image H dd 0 dl) [EvWrite RgStore; EvMsync RgStore]
             ++ snap (Build_image H dd 0 ds)
                  (repeat (EvWrite RgDsc) (match lay with Some _ => 8 | None => 7 end)
                   ++ [EvCall FnHeapInit])
             ++ snap (Build_image H dd 0 db) [EvWrite RgDsc; EvMsync RgDsc]
             ++ (EvWrite RgRunId, Build_image H D 0 db) :: rest)
    (fun _ => True).
Proof.
  cbv zeta. apply fruns_bind.
  eapply fruns_conseq; [apply map_create_full | | intros m' H; exact H].
  cbv zeta. intros rd' m1 (-> & H & D & vb & db & Hh & Hd & Hi & ->).
  eapply fruns_conseq; [apply map_runtime_trace | | intros m' H0; exact H0].
  intros x m2 (-> & rest & Ht). split; [reflexivity|].
  exists H, D, vb, db, rest. split; [exact Hh | split; [exact Hd | split; [exact Hi|]]].
  rewrite Ht. cbn [trace dur]. rewrite <- !app_assoc. reflexivity.
Qed.

End FullMapCommon.

(** ** The pool lifecycle *)

Section PoolClaims.
Context {consts : ObjConsts} {ext : PoolExternals}.

Lemma rtrace_length t : length (rtrace t) = length t.
Proof. apply length_map. Qed.

Lemma rtrace_new_trace m m' l :
  rtrace (trace m') = rtrace (trace m) ++ l -> rtrace (new_trace m m') = l.
Proof.
  intros H. unfold new_trace, rtrace at 1. rewrite <- skipn_map.
  fold (rtrace (trace m')). rewrite H, <- (rtrace_length (trace m)).
  apply drop_app_length.
Qed.

Lemma events_rtrace (t : list (event * image)) : map fst t = map fst (rtrace t).
Proof. unfold rtrace. rewrite map_map. reflexivity. Qed.

Lemma from_boot_rtrace t : from_boot (rtrace t) = rtrace (from_boot t).
Proof.
  induction t as [|p t IH]; [reflexivity|].
  cbn [rtrace map from_boot fst]. destruct (is_boot (fst p)); [reflexivity | exact IH].
Qed.

Lemma crash_run_ids_rtrace t :
  crash_run_ids_in_boot t = map snd (from_boot (rtrace t)).
Proof.
  unfold crash_run_ids_in_boot. rewrite from_boot_rtrace. unfold rtrace.
  rewrite map_map. reflexivity.
Qed.

Lemma even_u64 a : Z.even (u64 a) = Z.even a.
Proof.
  unfold u64. rewrite (Z.div_mod a (2 ^ 64)) at 2 by lia.
  rewrite Z.even_add, Z.even_mul.
  change (Z.even (2 ^ 64)) with true. cbn [orb].
  destruct (Z.even (a mod 2 ^ 64)); reflexivity.
Qed.

Lemma even_next_run_id v : Z.even (next_run_id v) = Z.even v.
Proof.
  unfold next_run_id. cbv zeta. destruct (u64 (v + 2) =? 0) eqn:H.
  - apply Z.eqb_eq in H.
    assert (Hv : Z.even (u64 (v + 2)) = Z.even v).
    { rewrite even_u64, Z.even_add. destruct (Z.even v); reflexivity. }
    rewrite H in *. rewrite <- Hv. reflexivity.
  - rewrite even_u64, Z.even_add. destruct (Z.even v); reflexivity.
Qed.

Lemma next_run_id_nonzero v : next_run_id v <> 0.
Proof.
  unfold next_run_id. cbv zeta. destruct (u64 (v + 2) =? 0) eqn:H.
  - apply Z.eqb_eq in H. rewrite H. discriminate.
  - apply Z.eqb_neq in H. exact H.
Qed.

Lemma next_run_id_no_wrap v : 0 <= v -> v + 2 < 2 ^ 64 -> next_run_id v = v + 2.
Proof.
  intros H1 H2. unfold next_run_id, u64. cbv zeta.
  rewrite (Z.mod_small (v + 2)) by lia.
  destruct (v + 2 =? 0) eqn:H; [lia | reflexivity].
Qed.

Lemma next_run_id_at_wrap v : v + 2 = 2 ^ 64 -> next_run_id v = 2.
Proof. intros H. unfold next_run_id, u64. rewrite H. reflexivity. Qed.

Lemma next_run_id_range v : 0 <= next_run_id v < 2 ^ 64.
Proof.
  unfold next_run_id, u64. cbv zeta.
  destruct (_ =? 0); apply Z.mod_pos_bound; lia.
Qed.

Lemma dur_pmemobj_close pop m : dur (pmemobj_close pop m) = dur m.
Proof. unfold pmemobj_close. destruct (rt m); reflexivity. Qed.

Lemma pmemobj_create_map_common lay ps m pop :
  fst (pmemobj_create lay ps m) = Some pop -> pop <> NULL ->
  exists fd ps', pmemobj_create lay ps m = pmemobj_map_common fd lay ps' 0 1 m.
Proof.
  unfold pmemobj_create. intros H Hp.
  destruct (if negb (ps =? 0) then _ else _) as [fd ps'].
  destruct (fd =? -1).
  - cbn in H. congruence.
  - eauto.
Qed.

(** The create path of [pmemobj_map_common] on a mapping that was
    given. *)
Lemma map_common_create_body fd lay ps rd empty m a e :
  empty <> 0 -> util_map fd ps rd = (a, e) -> a <> NULL ->
  pmemobj_map_common fd lay ps rd empty m
  = match bind (map_create lay ps rd)
                (fun rd' => map_runtime a ps rd' (pmem_is_pmem a ps))
                (set_vol (dur m) m) with
    | (Done pop, m') => (Some pop, m')
    | (GotoErr, m') =>
        (Some NULL, set_trace (trace m' ++ [(EvCall FnUnmap, dur m')]) m')
    | (Abort, m') => (None, m')
    end.
Proof.
  intros He Hu Ha. unfold pmemobj_map_common. rewrite Hu.
  apply Z.eqb_neq in Ha. rewrite Ha.
  apply Z.eqb_neq in He. rewrite He. reflexivity.
Qed.

(** C1 (as amended): on the create path the header with its checksum is
    stored and synced first, then [run_id] (0), the zeroed lanes and the
    zeroed object store, each synced before the next region is written; then
    the descriptor fields are stored, [heap_init] is called, and only after
    it the descriptor's checksum is stored and the descriptor synced.  The
    descriptor, not the header, is the last durable write of the sequence.

    The trace of a successful create gives the media at each event: the
    file as found until the header is synced, then with the header [H],
    then with [run_id] 0, then with the lanes zeroed, then with the object
    store zeroed, then as [heap_init] leaves the bytes; the descriptor on
    the media is the one of the file until its sync, after which it is [D].
    [heap_init] runs on the zeroed regions and on the descriptor whose
    checksum is not yet stored. *)
Theorem create_path_order fd lay ps rd empty m pop :
  empty <> 0 ->
  fst (pmemobj_map_common fd lay ps rd empty m) = Some pop -> pop <> NULL ->
  let m' := snd (pmemobj_map_common fd lay ps rd empty m) in
  let lanes_len := OBJ_NLANES * sizeof_lane_layout in
  let store_off := u64 (OBJ_LANES_OFFSET + lanes_len) in
  let store_len := u64 ((PMEMOBJ_NUM_OID_TYPES + 1) * sizeof_object_store_item) in
  let vl := memset OBJ_LANES_OFFSET 0 lanes_len (bytes (dur m)) in
  let vs := memset store_off 0 store_len vl in
  let dl := copy_range OBJ_LANES_OFFSET lanes_len vl (bytes (dur m)) in
  let ds := copy_range store_off store_len vs dl in
  map fst (new_trace m m') = create_events lay ++ runtime_events 0 /\
  exists H D vb db rest,
    created_hdr_ok (hdr (dur m)) H /\ created_dsc_ok lay ps D /\
    heap_init (set_checksum 0 D) (vs, ds) = (0, (vb, db)) /\
    let I1 := set_hdr H (dur m) in
    let I2 := set_run_id 0 I1 in
    let I3 := set_bytes dl I2 in
    let I4 := set_bytes ds I3 in
    let I5 := set_bytes db I4 in
    new_trace m m'
    = snap (dur m) (repeat (EvWrite RgHdr) 11 ++ [EvMsync RgHdr])
      ++ snap I1 [EvWrite RgRunId; EvMsync RgRunId]
      ++ snap I2 [EvWrite RgLanes; EvMsync RgLanes]
      ++ snap I3 [EvWrite RgStore; EvMsync RgStore]
      ++ snap I4 (repeat (EvWrite RgDsc) (match lay with Some _ => 8 | None => 7 end)
                  ++ [EvCall FnHeapInit])
      ++ snap I5 [EvWrite RgDsc; EvMsync RgDsc]
      ++ (EvWrite RgRunId, set_dsc D I5) :: rest.
Proof.
  intros He H Hp. cbv zeta. split.
  - destruct (map_common_abs fd lay ps rd empty m) as [_ Hs].
    specialize (Hs pop H Hp). unfold abs in Hs. injection Hs as Ht _ _.
    apply rtrace_new_trace in Ht.
    rewrite events_rtrace, Ht. unfold map_rtrace.
    apply Z.eqb_neq in He. rewrite He.
    unfold runtime_rtrace, runtime_events.
    destruct lay; reflexivity.
  - destruct (util_map fd ps rd) as [a e] eqn:Hu.
    assert (Ha : a <> NULL).
    { intros ->. unfold pmemobj_map_common in H. rewrite Hu in H.
      cbn in H. injection H as <-. apply Hp. reflexivity. }
    rewrite (map_common_create_body fd lay ps rd empty m a e He Hu Ha) in H |- *.
    destruct m as [v [hd dd rdd bd] r e0 p t].
    cbn [set_vol dur vol rt errno pools trace bytes hdr] in H |- *.
    pose proof (create_body_full lay ps rd a (pmem_is_pmem a ps) hd dd rdd bd r e0 p t)
      as F.
    cbv zeta in F. unfold fruns in F.
    destruct (bind _ _ _) as [[x | | ] m2]; cbn [fst snd] in H |- *.
    + destruct F as (_ & Hh & D & vb & db & rest & F1 & F2 & F3 & Ht).
      exists Hh, D, vb, db, rest.
      split; [exact F1 | split; [exact F2 | split; [exact F3|]]].
      unfold new_trace. cbn [trace]. rewrite Ht. rewrite drop_app_length. reflexivity.
    + injection H as <-. exfalso. apply Hp. reflexivity.
    + discriminate H.
Qed.

(** C2 (as amended): [run_id] is incremented and made durable before
    [lane_boot] and [heap_boot] are called.  Whatever the outcome of the
    call, a crash from the first boot call on finds on the media the
    incremented [run_id], which has the parity of the [run_id] it was
    incremented from: it is even, not odd, for a pool whose [run_id] was
    even.  A call that returns a pool has gone through both boot calls. *)
Theorem run_id_durable_before_boot fd lay ps rd empty m :
  let res := pmemobj_map_common fd lay ps rd empty m in
  let prior := prior_run_id empty (run_id (dur m)) in
  Forall (fun r => r = next_run_id prior)
         (crash_run_ids_in_boot (new_trace m (snd res))) /\
  Z.even (next_run_id prior) = Z.even prior /\
  (forall pop, fst res = Some pop -> pop <> NULL ->
     map (fun p => (fst p, run_id (snd p))) (from_boot (new_trace m (snd res)))
     = map (fun e => (e, next_run_id prior))
         [EvCall FnLaneBoot; EvCall FnHeapBoot; EvCall FnRangeNone; EvCall FnCuckooInsert]).
Proof.
  cbv zeta. destruct (map_common_abs fd lay ps rd empty m) as [(l & Hl & Hb) Hs].
  split; [|split].
  - rewrite crash_run_ids_rtrace, (rtrace_new_trace _ _ _ Hl). exact Hb.
  - apply even_next_run_id.
  - intros pop H Hp. specialize (Hs pop H Hp).
    unfold abs in Hs. injection Hs as Ht _ _.
    apply rtrace_new_trace in Ht.
    change (map (fun p => (fst p, run_id (snd p))) ?t) with (rtrace t).
    rewrite <- from_boot_rtrace, Ht. apply from_boot_map_rtrace.
Qed.

(** C3: after every successful return of [pmemobj_map_common] the
    [run_id] on the media is even and not zero, provided the [run_id] in
    the file was even; the open path leaves [next_run_id] of the previous
    value, so that a second successful open (after the pool was closed)
    leaves the first value plus 2, or 2 when that sum wraps to 0. *)
Theorem run_id_even_nonzero fd lay ps rd empty m pop :
  fst (pmemobj_map_common fd lay ps rd empty m) = Some pop -> pop <> NULL ->
  Z.even (run_id (dur m)) = true ->
  let m' := snd (pmemobj_map_common fd lay ps rd empty m) in
  Z.even (run_id (dur m')) = true /\ run_id (dur m') <> 0 /\
  (empty = 0 -> run_id (dur m') = next_run_id (run_id (dur m))) /\
  (forall fd2 lay2 ps2 rd2 pop2,
     let res2 := pmemobj_map_common fd2 lay2 ps2 rd2 0 (pmemobj_close pop m') in
     fst res2 = Some pop2 -> pop2 <> NULL ->
     run_id (dur (snd res2)) = next_run_id (run_id (dur m')) /\
     (run_id (dur m') + 2 < 2 ^ 64 -> run_id (dur (snd res2)) = run_id (dur m') + 2) /\
     (run_id (dur m') + 2 = 2 ^ 64 -> run_id (dur (snd res2)) = 2)).
Proof.
  intros H Hp Hev m'.
  destruct (map_common_abs fd lay ps rd empty m) as [_ Hs].
  specialize (Hs pop H Hp). unfold abs in Hs. injection Hs as _ Hd _.
  fold m' in Hd.
  assert (Hpar : Z.even (prior_run_id empty (run_id (dur m))) = true).
  { unfold prior_run_id. destruct (empty =? 0); [exact Hev | reflexivity]. }
  split; [|split; [|split]].
  - rewrite Hd, even_next_run_id. exact Hpar.
  - rewrite Hd. apply next_run_id_nonzero.
  - intros ->. exact Hd.
  - intros fd2 lay2 ps2 rd2 pop2 res2 H2 Hp2.
    destruct (map_common_abs fd2 lay2 ps2 rd2 0 (pmemobj_close pop m')) as [_ Hs2].
    specialize (Hs2 pop2 H2 Hp2). unfold abs in Hs2. injection Hs2 as _ Hd2 _.
    fold res2 in Hd2. rewrite dur_pmemobj_close in Hd2.
    change (prior_run_id 0 (run_id (dur m'))) with (run_id (dur m')) in Hd2.
    split; [exact Hd2 | split].
    + intros Hlt. rewrite Hd2. apply next_run_id_no_wrap; [|exact Hlt].
      rewrite Hd. apply next_run_id_range.
    + intros Heq. rewrite Hd2. apply next_run_id_at_wrap, Heq.
Qed.

(** C9: on the create path [run_id] is set to 0 and synced before the
    increment: when the increment is stored and when it is synced the media
    hold 0; every pool returned by a successful [pmemobj_create] has
    [run_id] equal to 2, in the mapping and on the media. *)
Theorem create_run_id_is_2 lay ps m pop :
  fst (pmemobj_create lay ps m) = Some pop -> pop <> NULL ->
  let m' := snd (pmemobj_create lay ps m) in
  run_id (dur m') = 2 /\ run_id (vol m') = 2 /\
  run_id_events (rtrace (new_trace m m'))
  = [(EvWrite RgRunId, run_id (dur m)); (EvMsync RgRunId, run_id (dur m));
     (EvWrite RgRunId, 0); (EvMsync RgRunId, 0)].
Proof.
  intros H Hp m'.
  destruct (pmemobj_create_map_common lay ps m pop H Hp) as (fd & ps' & E).
  subst m'. rewrite E in *.
  destruct (map_common_abs fd lay ps' 0 1 m) as [_ Hs].
  specialize (Hs pop H Hp). unfold abs in Hs. injection Hs as Ht Hd Hv.
  split; [exact Hd | split; [exact Hv|]].
  rewrite (rtrace_new_trace _ _ _ Ht).
  destruct lay; reflexivity.
Qed.

End PoolClaims.

(** C1, refuted as stated: in the sample run of [pmemobj_create] the
    header is the first region made durable and the descriptor the last,
    after the heap was initialised. *)
Lemma create_order_not_as_claimed :
  fst created = Some 4096000 /\
  durable_steps (events (snd created))
  = [WriteHeader; ZeroLanes; ZeroStore; InitHeap; WriteDescriptor] /\
  durable_steps (events (snd created))
  <> [ZeroLanes; ZeroStore; WriteDescriptor; InitHeap; WriteHeader].
Proof.
  assert (E : durable_steps (events (snd created))
              = [WriteHeader; ZeroLanes; ZeroStore; InitHeap; WriteDescriptor])
    by (vm_compute; reflexivity).
  split; [vm_compute; reflexivity | split; [exact E | rewrite E; discriminate]].
Qed.

(** C2, refuted as stated: in the sample run of [pmemobj_create] a crash
    during the boot phase finds [run_id] 2 on the media, which is not odd. *)
Lemma crash_in_boot_leaves_even_run_id :
  fst created = Some 4096000 /\
  crash_run_ids_in_boot (trace (snd created)) = [2; 2; 2; 2] /\
  ~ Forall (fun r => Z.odd r = true) (crash_run_ids_in_boot (trace (snd created))).
Proof.
  assert (E : crash_run_ids_in_boot (trace (snd created)) = [2; 2; 2; 2])
    by (vm_compute; reflexivity).
  split; [vm_compute; reflexivity | split; [exact E|]].
  rewrite E. intros H. apply Forall_cons in H as [H _]. discriminate H.
Qed.

(** C2 on the sample pool: the four events from [lane_boot] on find the incremented [run_id]. *)
Lemma run_id_durable_before_boot_witness :
  map (fun p => (fst p, run_id (snd p))) (from_boot (new_trace fresh_machine (snd mapped)))
  = [(EvCall FnLaneBoot, 2); (EvCall FnHeapBoot, 2);
     (EvCall FnRangeNone, 2); (EvCall FnCuckooInsert, 2)].
Proof.
  unfold mapped.
  apply (proj2 (proj2 (run_id_durable_before_boot (consts := sample_consts)
           (ext := sample_ext) 3 sample_layout 8388608 0 1 fresh_machine)) 4096000).
  - vm_compute. reflexivity.
  - unfold NULL. lia.
Defined.

(** C3 on the sample pool: created, closed and mapped again. *)
Lemma run_id_even_nonzero_witness :
  Z.even (run_id (dur (snd mapped))) = true /\
  run_id (dur (snd mapped)) <> 0 /\
  run_id (dur (snd remapped)) = run_id (dur (snd mapped)) + 2.
Proof.
  unfold remapped, mapped.
  assert (H1 : fst (pmemobj_map_common (consts := sample_consts) (ext := sample_ext)
                      3 sample_layout 8388608 0 1 fresh_machine) = Some 4096000)
    by (vm_compute; reflexivity).
  assert (H2 : 4096000 <> NULL) by (unfold NULL; lia).
  assert (H3 : Z.even (run_id (dur fresh_machine)) = true) by reflexivity.
  destruct (run_id_even_nonzero (consts := sample_consts) (ext := sample_ext)
              3 sample_layout 8388608 0 1 fresh_machine 4096000 H1 H2 H3)
    as (A & B & _ & D).
  split; [exact A | split; [exact B|]].
  apply (D 3 sample_layout 8388608 0 4096000).
  - vm_compute. reflexivity.
  - exact H2.
  - vm_compute. reflexivity.
Defined.

(** C9 on the sample pool. *)
Lemma create_run_id_is_2_witness :
  run_id (dur (snd created)) = 2 /\ run_id (vol (snd created)) = 2 /\
  run_id_events (rtrace (new_trace fresh_machine (snd created)))
  = [(EvWrite RgRunId, run_id (dur fresh_machine));
     (EvMsync RgRunId, run_id (dur fresh_machine));
     (EvWrite RgRunId, 0); (EvMsync RgRunId, 0)].
Proof.
  unfold created.
  apply (create_run_id_is_2 (consts := sample_consts) (ext := sample_ext)
           sample_layout 8388608 fresh_machine 4096000).
  - vm_compute. reflexivity.
  - unfold NULL. lia.
Defined.

(** ** The registry key *)

Section UuidLo.

Lemma byte_testbit_high x n : 0 <= x < 256 -> 8 <= n -> Z.testbit x n = false.
Proof.
  intros Hx Hn. destruct (Z.eq_dec x 0) as [-> | Hne].
  - apply Z.bits_0.
  - apply Z.bits_above_log2; [lia|].
    assert (Z.log2 x < 8) by (apply Z.log2_lt_pow2; lia). lia.
Qed.

Lemma byte_lxor_range a b : 0 <= a < 256 -> 0 <= b < 256 -> 0 <= Z.lxor a b < 256.
Proof.
  intros Ha Hb.
  assert (H0 : 0 <= Z.lxor a b) by (apply Z.lxor_nonneg; lia).
  split; [exact H0|].
  destruct (Z.eq_dec (Z.lxor a b) 0) as [-> | Hne]; [lia|].
  change 256 with (2 ^ 8). apply Z.log2_lt_pow2; [lia|].
  pose proof (Z.log2_lxor a b ltac:(lia) ltac:(lia)) as Hl.
  assert (Z.log2 a < 8).
  { destruct (Z.eq_dec a 0) as [-> | ?]; [cbn; lia | apply Z.log2_lt_pow2; lia]. }
  assert (Z.log2 b < 8).
  { destruct (Z.eq_dec b 0) as [-> | ?]; [cbn; lia | apply Z.log2_lt_pow2; lia]. }
  lia.
Qed.

Lemma lor_shiftl_byte acc x :
  0 <= x < 256 -> Z.lor (Z.shiftl acc 8) x = acc * 256 + x.
Proof.
  intros Hx.
  assert (Hl : Z.land (Z.shiftl acc 8) x = 0).
  { apply Z.bits_inj'. intros n Hn. rewrite Z.land_spec, Z.bits_0.
    destruct (Z.lt_ge_cases n 8).
    - rewrite Z.shiftl_spec_low by lia. reflexivity.
    - rewrite (byte_testbit_high x n) by lia. apply andb_false_r. }
  rewrite <- Z.lxor_lor by exact Hl.
  rewrite <- Z.add_nocarry_lxor by exact Hl.
  rewrite Z.shiftl_mul_pow2 by lia. reflexivity.
Qed.

(** One turn of the loop, while the eight bytes still fit. *)
Lemma uuid_lo_step acc x :
  0 <= acc < 2 ^ 56 -> 0 <= x < 256 ->
  Z.lor (u64 (Z.shiftl acc 8)) x = acc * 256 + x.
Proof.
  intros Ha Hx. unfold u64. rewrite Z.shiftl_mul_pow2 by lia.
  rewrite Z.mod_small by lia.
  rewrite <- Z.shiftl_mul_pow2 by lia. apply lor_shiftl_byte, Hx.
Qed.

Lemma uuid_lo_fold xs acc :
  Forall (fun x => 0 <= x < 256) xs ->
  0 <= acc -> (acc + 1) * 256 ^ Z.of_nat (length xs) <= 2 ^ 64 ->
  fold_left (fun a x => Z.lor (u64 (Z.shiftl a 8)) x) xs acc
  = fold_left (fun a x => a * 256 + x) xs acc.
Proof.
  intros H. revert acc. induction H as [|x xs Hx _ IH]; intros acc H0 Hb.
  - reflexivity.
  - cbn [fold_left]. cbn [length] in Hb. cbv beta in Hx.
    rewrite Nat2Z.inj_succ, Z.pow_succ_r in Hb by lia.
    assert (HP : 0 < 256 ^ Z.of_nat (length xs)) by (apply Z.pow_pos_nonneg; lia).
    set (P := 256 ^ Z.of_nat (length xs)) in *.
    assert (Hacc : (acc + 1) * 256 <= 2 ^ 64) by nia.
    rewrite uuid_lo_step; [| lia | exact Hx].
    apply IH; [lia|]. fold P.
    apply Z.le_trans with ((acc + 1) * 256 * P); [|lia].
    apply Z.mul_le_mono_nonneg_r; lia.
Qed.

Lemma fold_left_map_idx {A B C} (f : A -> C -> A) (g : B -> C) l a :
  fold_left (fun acc i => f acc (g i)) l a = fold_left f (map g l) a.
Proof. revert a. induction l as [|i l IH]; intros a; [reflexivity | apply IH]. Qed.

(** C4: [pmemobj_get_uuid_lo] returns the eight bytes [uuid[i] ^ uuid[8+i]]
    in reversed byte order, read as a [u64]. *)
Theorem uuid_lo_is_reversed_xor (h : pool_hdr) :
  length (uuid h) = 16%nat ->
  forallb (fun b => (0 <=? b) && (b <? 256)) (uuid h) = true ->
  pmemobj_get_uuid_lo h = spec_uuid_lo (uuid h) /\
  0 <= pmemobj_get_uuid_lo h < 2 ^ 64.
Proof.
  intros Hlen Hb. unfold pmemobj_get_uuid_lo, spec_uuid_lo.
  destruct (uuid h) as [|b0 [|b1 [|b2 [|b3 [|b4 [|b5 [|b6 [|b7 [|b8 [|b9 [|b10
    [|b11 [|b12 [|b13 [|b14 [|b15 [|? ?]]]]]]]]]]]]]]]]]; try discriminate Hlen.
  cbn [forallb] in Hb. rewrite !andb_true_iff in Hb.
  repeat match goal with H : _ /\ _ |- _ => destruct H end.
  repeat match goal with
         | H : (0 <=? _) = true |- _ => apply Z.leb_le in H
         | H : (_ <? 256) = true |- _ => apply Z.ltb_lt in H
         end.
  rewrite (fold_left_map_idx (fun a x => Z.lor (u64 (Z.shiftl a 8)) x)
             (fun i => Z.lxor (nth i _ 0) (nth (8 + i) _ 0))).
  cbn [seq map nth Nat.add take drop firstn skipn zip_with].
  pose proof (byte_lxor_range b0 b8 ltac:(lia) ltac:(lia)).
  pose proof (byte_lxor_range b1 b9 ltac:(lia) ltac:(lia)).
  pose proof (byte_lxor_range b2 b10 ltac:(lia) ltac:(lia)).
  pose proof (byte_lxor_range b3 b11 ltac:(lia) ltac:(lia)).
  pose proof (byte_lxor_range b4 b12 ltac:(lia) ltac:(lia)).
  pose proof (byte_lxor_range b5 b13 ltac:(lia) ltac:(lia)).
  pose proof (byte_lxor_range b6 b14 ltac:(lia) ltac:(lia)).
  pose proof (byte_lxor_range b7 b15 ltac:(lia) ltac:(lia)).
  rewrite uuid_lo_fold; [| repeat constructor; lia | lia | cbn; lia].
  cbn [fold_left rev app u_of_le_bytes].
  generalize dependent (Z.lxor b0 b8). generalize dependent (Z.lxor b1 b9).
  generalize dependent (Z.lxor b2 b10). generalize dependent (Z.lxor b3 b11).
  generalize dependent (Z.lxor b4 b12). generalize dependent (Z.lxor b5 b13).
  generalize dependent (Z.lxor b6 b14). generalize dependent (Z.lxor b7 b15).
  intros. split; [ring | lia].
Qed.

End UuidLo.

(** C4 on the sample UUID. *)
Lemma uuid_lo_is_reversed_xor_witness :
  pmemobj_get_uuid_lo (set_uuid sample_uuid zero_hdr) = spec_uuid_lo sample_uuid /\
  0 <= pmemobj_get_uuid_lo (set_uuid sample_uuid zero_hdr) < 2 ^ 64.
Proof.
  apply (uuid_lo_is_reversed_xor (set_uuid sample_uuid zero_hdr)); reflexivity.
Defined.

(** ** Objects *)

Section ObjectClaims.
Context {consts : ObjConsts} {lext : ListExternals}.

Lemma invalid_type_num_test type_num :
  type_num < 0 \/ PMEMOBJ_NUM_OID_TYPES <= type_num ->
  (type_num <? 0) || (PMEMOBJ_NUM_OID_TYPES <=? type_num) = true.
Proof.
  intros [H | H]; apply orb_true_iff; [left; apply Z.ltb_lt | right; apply Z.leb_le]; exact H.
Qed.

Lemma valid_type_num_test type_num :
  0 <= type_num < PMEMOBJ_NUM_OID_TYPES ->
  (type_num <? 0) || (PMEMOBJ_NUM_OID_TYPES <=? type_num) = false.
Proof.
  intros [H1 H2]. apply orb_false_iff. split; [apply Z.ltb_ge | apply Z.leb_gt]; lia.
Qed.

(** C5: with a type number below 0 or not below [PMEMOBJ_NUM_OID_TYPES],
    [pmemobj_alloc], [pmemobj_zalloc], [pmemobj_alloc_construct],
    [pmemobj_strdup] and [pmemobj_first] return [OID_NULL] with [errno] set
    to [EINVAL]; nothing else changes: the pools, the registry and the
    record of calls are those before the call. *)
Theorem invalid_type_num_rejected pop size type_num c s w :
  type_num < 0 \/ PMEMOBJ_NUM_OID_TYPES <= type_num ->
  pmemobj_alloc pop size type_num w = (Done OID_NULL, set_w_errno EINVAL w) /\
  pmemobj_zalloc pop size type_num w = (Done OID_NULL, set_w_errno EINVAL w) /\
  pmemobj_alloc_construct pop size type_num c w = (Done OID_NULL, set_w_errno EINVAL w) /\
  pmemobj_strdup pop s type_num w = (Done OID_NULL, set_w_errno EINVAL w) /\
  pmemobj_first pop type_num w = (Done OID_NULL, set_w_errno EINVAL w) /\
  w_maps (set_w_errno EINVAL w) = w_maps w /\
  w_pools (set_w_errno EINVAL w) = w_pools w /\
  w_calls (set_w_errno EINVAL w) = w_calls w /\
  w_errno (set_w_errno EINVAL w) = EINVAL.
Proof.
  intros H. apply invalid_type_num_test in H.
  unfold pmemobj_alloc, pmemobj_zalloc, pmemobj_strdup, pmemobj_first,
    pmemobj_alloc_construct.
  rewrite H. repeat split; reflexivity.
Qed.

(** C10: [pmemobj_alloc_usable_size] of an object identifier with offset
    0 is 0, and neither the registry nor the allocator is called: the world
    after the call, record of calls included, is the one before, whatever
    the registry holds. *)
Theorem usable_size_of_null uuid w :
  pmemobj_alloc_usable_size {| pool_uuid_lo := uuid; off := 0 |} w = (Done 0, w).
Proof. reflexivity. Qed.

Lemma PMEMoid_eq (a b : PMEMoid) :
  pool_uuid_lo a = pool_uuid_lo b -> off a = off b -> a = b.
Proof. destruct a, b. cbn. intros -> ->. reflexivity. Qed.

(** C6: [pmemobj_next] of an object identifier with offset 0 is
    [OID_NULL].  For an object of a registered pool whose OOB header names a
    type list, it is [OID_NULL] when the [pe_next] of the header is the
    first element of that list, and that [pe_next] otherwise (identifiers
    kept in one pool's lists name the same pool). *)
Theorem pmemobj_next_cursor oid w pop p h uuid :
  off oid <> 0 ->
  w_pools w !! pool_uuid_lo oid = Some pop -> pop <> NULL ->
  w_maps w !! pop = Some p ->
  user_type (oobs p (OOB_HEADER_FROM_OID oid)) < PMEMOBJ_NUM_OID_TYPES ->
  bytype (store p) !! Z.to_nat (user_type (oobs p (OOB_HEADER_FROM_OID oid))) = Some h ->
  pool_uuid_lo (pe_next (oob (oobs p (OOB_HEADER_FROM_OID oid))))
    = pool_uuid_lo (pe_first h) ->
  let next := pe_next (oob (oobs p (OOB_HEADER_FROM_OID oid))) in
  pmemobj_next {| pool_uuid_lo := uuid; off := 0 |} w = (Done OID_NULL, w) /\
  (next = pe_first h -> fst (pmemobj_next oid w) = Done OID_NULL) /\
  (next <> pe_first h -> fst (pmemobj_next oid w) = Done next).
Proof.
  intros Hoff Hreg Hpop Hmap Hty Hhead Hsame next.
  split; [reflexivity|].
  assert (E : fst (pmemobj_next oid w)
              = Done (if negb (off next =? off (pe_first h)) then next else OID_NULL)).
  { unfold pmemobj_next, bind, cuckoo_get, ASSERT, deref, bytype_head.
    apply Z.eqb_neq in Hoff. rewrite Hoff.
    cbn [w_pools w_maps set_w_calls]. rewrite Hreg. cbn [default from_option id].
    apply Z.eqb_neq in Hpop. rewrite Hpop. cbn [negb w_maps set_w_calls].
    rewrite Hmap. apply Z.ltb_lt in Hty. rewrite Hty. rewrite Hhead.
    fold next. destruct (negb _); reflexivity. }
  rewrite E. split.
  - intros ->. rewrite Z.eqb_refl. reflexivity.
  - intros Hne. destruct (off next =? off (pe_first h)) eqn:Hb; [|reflexivity].
    exfalso. apply Hne. apply Z.eqb_eq in Hb.
    apply PMEMoid_eq; assumption.
Qed.

Lemma bind_done {S A B} (c : M S A) (k : A -> M S B) w a w' :
  c w = (Done a, w') -> bind c k w = k a w'.
Proof. intros H. unfold bind. rewrite H. reflexivity. Qed.

Lemma deref_some pop w p : w_maps w !! pop = Some p -> deref pop w = (Done p, w).
Proof. intros H. unfold deref. rewrite H. reflexivity. Qed.

Lemma pmemobj_root_size_some pop w p :
  w_maps w !! pop = Some p ->
  pmemobj_root_size pop w
  = (Done (if negb (off (pe_first (root (store p))) =? 0)
           then oob_size (oobs p (OOB_HEADER_FROM_OID (pe_first (root (store p)))))
           else 0), w).
Proof.
  intros H. unfold pmemobj_root_size. rewrite (bind_done _ _ _ _ _ (deref_some _ _ _ H)).
  destruct (negb _); reflexivity.
Qed.

Lemma pmemobj_mutex_lock_free pop w p :
  w_maps w !! pop = Some p -> rootlock p = false ->
  pmemobj_mutex_lock pop w
  = (Done tt, set_w_maps (<[pop := set_rootlock true p]> (w_maps w)) w).
Proof.
  intros H Hl. unfold pmemobj_mutex_lock.
  rewrite (bind_done _ _ _ _ _ (deref_some _ _ _ H)). rewrite Hl. reflexivity.
Qed.

Lemma pmemobj_mutex_unlock_some pop w p :
  w_maps w !! pop = Some p ->
  pmemobj_mutex_unlock pop w
  = (Done tt, set_w_maps (<[pop := set_rootlock false p]> (w_maps w)) w).
Proof.
  intros H. unfold pmemobj_mutex_unlock.
  rewrite (bind_done _ _ _ _ _ (deref_some _ _ _ H)). reflexivity.
Qed.

Lemma set_rootlock_false_id p : rootlock p = false -> set_rootlock false p = p.
Proof. destruct p. cbn. intros ->. reflexivity. Qed.

Lemma unlock_after_lock pop w p :
  w_maps w !! pop = Some p -> rootlock p = false ->
  set_w_maps (<[pop := set_rootlock false (set_rootlock true p)]>
                (w_maps (set_w_maps (<[pop := set_rootlock true p]> (w_maps w)) w)))
             (set_w_maps (<[pop := set_rootlock true p]> (w_maps w)) w) = w.
Proof.
  intros H Hl. cbn [w_maps set_w_maps]. rewrite insert_insert_eq.
  change (set_rootlock false (set_rootlock true p)) with (set_rootlock false p).
  rewrite (set_rootlock_false_id p Hl), (insert_id _ _ _ H).
  destruct w; reflexivity.
Qed.

(** C7: on a pool whose root list is not empty (and whose root lock is
    free), [pmemobj_root] with a size not above the size of the root returns
    the first element of the root list and leaves the world as it was, so
    the size of the root is unchanged and a repeated call returns the same;
    [pmemobj_root_size] is 0 when the root list is empty and the [size] of
    the root's OOB header otherwise. *)
Theorem pmemobj_root_idempotent pop size w p :
  w_maps w !! pop = Some p ->
  rootlock p = false ->
  off (pe_first (root (store p))) <> 0 ->
  size <= oob_size (oobs p (OOB_HEADER_FROM_OID (pe_first (root (store p))))) ->
  pmemobj_root pop size w = (Done (pe_first (root (store p))), w) /\
  pmemobj_root_size pop (snd (pmemobj_root pop size w)) = pmemobj_root_size pop w /\
  pmemobj_root_size pop w
  = (Done (oob_size (oobs p (OOB_HEADER_FROM_OID (pe_first (root (store p)))))), w) /\
  (forall w0 p0, w_maps w0 !! pop = Some p0 -> off (pe_first (root (store p0))) = 0 ->
     pmemobj_root_size pop w0 = (Done 0, w0)).
Proof.
  intros Hmap Hlock Hne Hle.
  assert (Hsz : pmemobj_root_size pop w
    = (Done (oob_size (oobs p (OOB_HEADER_FROM_OID (pe_first (root (store p)))))), w)).
  { rewrite (pmemobj_root_size_some _ _ _ Hmap).
    apply Z.eqb_neq in Hne. rewrite Hne. reflexivity. }
  assert (Hroot : pmemobj_root pop size w = (Done (pe_first (root (store p))), w)).
  { set (w1 := set_w_maps (<[pop := set_rootlock true p]> (w_maps w)) w).
    assert (Hmap1 : w_maps w1 !! pop = Some (set_rootlock true p))
      by apply lookup_insert_eq.
    unfold pmemobj_root.
    rewrite (bind_done _ _ _ _ _ (pmemobj_mutex_lock_free _ _ _ Hmap Hlock)).
    fold w1. rewrite (bind_done _ _ _ _ _ (deref_some _ _ _ Hmap1)).
    cbn [store set_rootlock].
    apply Z.eqb_neq in Hne. rewrite Hne.
    rewrite (bind_done _ _ _ _ _ (pmemobj_root_size_some _ _ _ Hmap1)).
    cbn [store set_rootlock oobs]. rewrite Hne. cbn [negb].
    apply Z.ltb_ge in Hle. rewrite Hle.
    rewrite (bind_done _ _ _ _ _ (deref_some _ _ _ Hmap1)).
    rewrite (bind_done _ _ _ _ _ (pmemobj_mutex_unlock_some _ _ _ Hmap1)).
    unfold ret. cbn [store set_rootlock]. f_equal.
    apply unlock_after_lock; assumption. }
  split; [exact Hroot | split; [rewrite Hroot; reflexivity | split; [exact Hsz|]]].
  intros w0 p0 Hmap0 Hz. rewrite (pmemobj_root_size_some _ _ _ Hmap0), Hz.
  reflexivity.
Qed.

Lemma strlen_nonneg s : 0 <= strlen s.
Proof. induction s as [|c s IH]; cbn [strlen]; [lia | destruct (c =? 0); lia]. Qed.

Lemma strlen_nth_nonzero s i :
  0 <= i < strlen s -> nth (Z.to_nat i) s 0 <> 0.
Proof.
  revert i. induction s as [|c s IH]; intros i Hi; cbn [strlen] in Hi; [lia|].
  destruct (c =? 0) eqn:Hc; [lia|]. apply Z.eqb_neq in Hc.
  destruct (Z.eq_dec i 0) as [-> | Hne]; [exact Hc|].
  replace (Z.to_nat i) with (S (Z.to_nat (i - 1))) by lia.
  cbn [nth]. apply IH. lia.
Qed.

Lemma memcpy_inside dest src len b a :
  dest <= a < dest + len -> memcpy dest src len b a = nth (Z.to_nat (a - dest)) src 0.
Proof.
  intros H. unfold memcpy.
  replace ((dest <=? a) && (a <? dest + len)) with true; [reflexivity|].
  symmetry. apply andb_true_iff. split; [apply Z.leb_le | apply Z.ltb_lt]; lia.
Qed.

Lemma memcpy_outside dest src len b a :
  ~ (dest <= a < dest + len) -> memcpy dest src len b a = b a.
Proof.
  intros H. unfold memcpy.
  destruct ((dest <=? a) && (a <? dest + len)) eqn:E; [|reflexivity].
  apply andb_true_iff in E as [E1 E2]. apply Z.leb_le in E1. apply Z.ltb_lt in E2. lia.
Qed.

Lemma copy_range_inside p n src dst a :
  p <= a < p + n -> copy_range p n src dst a = src a.
Proof.
  intros H. unfold copy_range.
  replace ((p <=? a) && (a <? p + n)) with true; [reflexivity|].
  symmetry. apply andb_true_iff. split; [apply Z.leb_le | apply Z.ltb_lt]; lia.
Qed.

Lemma copy_range_outside p n src dst a :
  ~ (p <= a < p + n) -> copy_range p n src dst a = dst a.
Proof.
  intros H. unfold copy_range.
  destruct ((p <=? a) && (a <? p + n)) eqn:E; [|reflexivity].
  apply andb_true_iff in E as [E1 E2]. apply Z.leb_le in E1. apply Z.ltb_lt in E2. lia.
Qed.

(** What [pop->memcpy_persist(ptr, s, len)] leaves, for both tables. *)
Lemma call_memcpy_persist_spec dest src len q :
  valid_table (pop_rt q) ->
  exists q', call_memcpy_persist dest src len q = Some q' /\
    (forall a, dest <= a < dest + len ->
       data q' a = nth (Z.to_nat (a - dest)) src 0 /\
       media q' a = nth (Z.to_nat (a - dest)) src 0) /\
    (forall a, ~ (dest <= a < dest + len) -> data q' a = data q a /\ media q' a = media q a).
Proof.
  intros [(_ & Hc & _) | (_ & Hc & _)]; unfold call_memcpy_persist; rewrite Hc;
    eexists; (split; [reflexivity|]); split; intros a Ha; cbn.
  - rewrite !memcpy_inside by exact Ha. split; reflexivity.
  - rewrite !memcpy_outside by exact Ha. split; reflexivity.
  - rewrite copy_range_inside by exact Ha. rewrite !memcpy_inside by exact Ha.
    split; reflexivity.
  - rewrite copy_range_outside by exact Ha. rewrite !memcpy_outside by exact Ha.
    split; reflexivity.
Qed.

Lemma call_persist_oob_spec pobj q :
  valid_table (pop_rt q) ->
  exists q', call_persist_oob pobj q = Some q' /\
    pop_rt q' = pop_rt q /\ data q' = data q /\ media q' = media q.
Proof.
  intros [(Hc & _) | (Hc & _)]; unfold call_persist_oob; rewrite Hc;
    eexists; repeat split; reflexivity.
Qed.

(** What a call of [list_insert_new] through [pop] comes to on a mapped
    pool: the primitive gets the pool and [errno]; the identifier it
    returns is the result, the pool and the [errno] it leaves replace the
    old ones. *)
Lemma call_list_insert_new_mapped pop lhead pe_offset head dest before size c w p :
  w_maps w !! pop = Some p ->
  call_list_insert_new pop lhead pe_offset head dest before size c w
  = match list_insert_new p lhead pe_offset head dest before size c (w_errno w) with
    | Some (oid, e, p') =>
        (Done oid, set_w_maps (<[pop := p']> (w_maps w)) (set_w_errno e w))
    | None => (Abort, w)
    end.
Proof.
  intros Hmap. unfold call_list_insert_new.
  rewrite (bind_done _ _ _ _ _ (deref_some _ _ _ Hmap)). reflexivity.
Qed.

(** C8: on a mapped pool and for a valid type, [pmemobj_strdup] calls
    [list_insert_new] on the list of the type for [strlen(s)] bytes, with
    the constructor [ctor], and returns the identifier that call returns,
    leaving the pool and the [errno] the call leaves.  [ctor] copies,
    through the pool's [memcpy_persist], the [strlen(s)] bytes of [s] before
    the terminator to the payload, where they are durable; no byte of the
    payload from [strlen(s)] on is written, so no terminator is stored. *)
Theorem strdup_copies_strlen_bytes pop s type_num w p :
  0 <= type_num < PMEMOBJ_NUM_OID_TYPES ->
  w_maps w !! pop = Some p ->
  let len := strlen s in
  let ctor := constructor_alloc_bytype
    {| cb_user_type := u16 type_num;
       cb_constructor := Some (constructor_strdup
         {| cs_user_type := u16 type_num; cs_len := len; cs_s := s |}) |} in
  pmemobj_strdup pop s type_num w
  = match list_insert_new p (HeadBytype type_num) 0 NULL OID_NULL 0 len ctor (w_errno w) with
    | Some (oid, e, p') =>
        (Done oid, set_w_maps (<[pop := p']> (w_maps w)) (set_w_errno e w))
    | None => (Abort, w)
    end /\
  (forall ptr q, ptr <> NULL -> valid_table (pop_rt q) ->
     exists q', ctor ptr q = Some q' /\
       (forall i, 0 <= i < len ->
          data q' (ptr + i) = nth (Z.to_nat i) s 0 /\
          media q' (ptr + i) = nth (Z.to_nat i) s 0 /\
          nth (Z.to_nat i) s 0 <> 0) /\
       (forall a, ~ (ptr <= a < ptr + len) ->
          data q' a = data q a /\ media q' a = media q a)).
Proof.
  intros Hty Hmap len ctor. split.
  - unfold pmemobj_strdup, pmemobj_alloc_construct.
    rewrite (valid_type_num_test _ Hty). cbv zeta. cbn [cs_len].
    apply call_list_insert_new_mapped. exact Hmap.
  - intros ptr q Hptr Htab. subst ctor.
    unfold constructor_alloc_bytype, constructor_strdup.
    apply Z.eqb_neq in Hptr. rewrite Hptr. cbv zeta. cbn [cb_user_type cb_constructor
      cs_user_type cs_len cs_s].
    match goal with |- context [call_persist_oob ?o ?q1] =>
      destruct (call_persist_oob_spec o q1 Htab) as (q2 & -> & Ht2 & Hd2 & Hm2) end.
    rewrite Hptr.
    assert (Htab2 : valid_table (pop_rt q2)) by (rewrite Ht2; exact Htab).
    match goal with |- context [call_persist_oob ?o ?q1] =>
      destruct (call_persist_oob_spec o q1 Htab2) as (q3 & -> & Ht3 & Hd3 & Hm3) end.
    assert (Htab3 : valid_table (pop_rt q3)) by (rewrite Ht3; exact Htab2).
    destruct (call_memcpy_persist_spec ptr s len q3 Htab3) as (q4 & -> & Hin & Hout).
    exists q4. split; [reflexivity|]. split.
    + intros i Hi. destruct (Hin (ptr + i) ltac:(lia)) as [H1 H2].
      replace (ptr + i - ptr) with i in * by lia.
      repeat split; [exact H1 | exact H2 | apply strlen_nth_nonzero, Hi].
    + intros a Ha. destruct (Hout a Ha) as [H1 H2].
      rewrite H1, H2, Hd3, Hm3. cbn [data media set_oobs].
      rewrite Hd2, Hm2. split; reflexivity.
Qed.

End ObjectClaims.

(** C5 on the sample pool, with the type numbers 1024 and -1. *)
Lemma invalid_type_num_rejected_witness :
  pmemobj_alloc (consts := sample_consts) (lext := sample_lext)
    4096000 16 1024 (sample_world empty_pool)
  = (Done OID_NULL, set_w_errno 22 (sample_world empty_pool)) /\
  pmemobj_first (consts := sample_consts) 4096000 (-1) (sample_world empty_pool)
  = (Done OID_NULL, set_w_errno 22 (sample_world empty_pool)).
Proof.
  split.
  - apply (invalid_type_num_rejected (consts := sample_consts) (lext := sample_lext)
             4096000 16 1024 None [] (sample_world empty_pool)).
    right. change (1024 <= 1024). lia.
  - apply (invalid_type_num_rejected (consts := sample_consts) (lext := sample_lext)
             4096000 16 (-1) None [] (sample_world empty_pool)).
    left. lia.
Defined.

(** C6 on the two objects of type 3 of the sample pool. *)
Lemma pmemobj_next_cursor_witness :
  fst (pmemobj_next (consts := sample_consts) (sample_oid 1000) (sample_world sample_pool))
  = Done (sample_oid 2000) /\
  fst (pmemobj_next (consts := sample_consts) (sample_oid 2000) (sample_world sample_pool))
  = Done OID_NULL.
Proof.
  split.
  - apply (pmemobj_next_cursor (consts := sample_consts) (sample_oid 1000)
             (sample_world sample_pool) 4096000 sample_pool
             {| pe_first := sample_oid 1000 |} 0).
    + change (1000 <> 0). lia.
    + reflexivity.
    + unfold NULL. lia.
    + reflexivity.
    + change (3 < 1024). lia.
    + reflexivity.
    + reflexivity.
    + change (sample_oid 2000 <> sample_oid 1000). discriminate.
  - apply (pmemobj_next_cursor (consts := sample_consts) (sample_oid 2000)
             (sample_world sample_pool) 4096000 sample_pool
             {| pe_first := sample_oid 1000 |} 0).
    + change (2000 <> 0). lia.
    + reflexivity.
    + unfold NULL. lia.
    + reflexivity.
    + change (3 < 1024). lia.
    + reflexivity.
    + reflexivity.
    + reflexivity.
Defined.

(** C7 on the sample pool, whose root has 200 bytes, and on the empty pool. *)
Lemma pmemobj_root_idempotent_witness :
  pmemobj_root (consts := sample_consts) (lext := sample_lext)
    4096000 50 (sample_world sample_pool)
  = (Done (sample_oid 5000), sample_world sample_pool) /\
  pmemobj_root_size (consts := sample_consts) 4096000 (sample_world sample_pool)
  = (Done 200, sample_world sample_pool) /\
  pmemobj_root_size (consts := sample_consts) 4096000 (sample_world empty_pool)
  = (Done 0, sample_world empty_pool).
Proof.
  destruct (pmemobj_root_idempotent (consts := sample_consts) (lext := sample_lext)
              4096000 50 (sample_world sample_pool) sample_pool)
    as (A & _ & C & D).
  - reflexivity.
  - reflexivity.
  - change (5000 <> 0). lia.
  - change (50 <= 200). lia.
  - split; [exact A | split; [exact C|]].
    apply (D (sample_world empty_pool) empty_pool); reflexivity.
Defined.

(** C8 on a two-character string followed by other bytes: the call
    made, what the constructor does at the address the sample allocator
    uses, and the pool the call leaves there. *)
Lemma strdup_copies_strlen_bytes_witness :
  pmemobj_strdup (consts := sample_consts) (lext := sample_lext)
    4096000 [104; 105; 0; 7] 3 (sample_world empty_pool)
  = match list_insert_new (ListExternals := sample_lext) empty_pool (HeadBytype 3)
            0 NULL OID_NULL 0 (strlen [104; 105; 0; 7])
            (constructor_alloc_bytype (consts := sample_consts)
               {| cb_user_type := u16 3;
                  cb_constructor := Some (constructor_strdup (consts := sample_consts)
                    {| cs_user_type := u16 3; cs_len := strlen [104; 105; 0; 7];
                       cs_s := [104; 105; 0; 7] |}) |})
            (w_errno (sample_world empty_pool)) with
    | Some (oid, e, p') =>
        (Done oid,
         set_w_maps (<[4096000 := p']> (w_maps (sample_world empty_pool)))
           (set_w_errno e (sample_world empty_pool)))
    | None => (Abort, sample_world empty_pool)
    end /\
  (exists q',
     constructor_alloc_bytype (consts := sample_consts)
       {| cb_user_type := u16 3;
          cb_constructor := Some (constructor_strdup (consts := sample_consts)
            {| cs_user_type := u16 3; cs_len := strlen [104; 105; 0; 7];
               cs_s := [104; 105; 0; 7] |}) |} 1048624 empty_pool = Some q' /\
     (forall i, 0 <= i < strlen [104; 105; 0; 7] ->
        data q' (1048624 + i) = nth (Z.to_nat i) [104; 105; 0; 7] 0 /\
        media q' (1048624 + i) = nth (Z.to_nat i) [104; 105; 0; 7] 0 /\
        nth (Z.to_nat i) [104; 105; 0; 7] 0 <> 0) /\
     (forall a, ~ (1048624 <= a < 1048624 + strlen [104; 105; 0; 7]) ->
        data q' a = data empty_pool a /\ media q' a = media empty_pool a) /\
     pmemobj_strdup (consts := sample_consts) (lext := sample_lext)
       4096000 [104; 105; 0; 7] 3 (sample_world empty_pool)
     = (Done {| pool_uuid_lo := rt_uuid_lo (pop_rt q'); off := 1048624 |},
        set_w_maps
          (<[4096000 := sample_link (HeadBytype 3)
                          {| pool_uuid_lo := rt_uuid_lo (pop_rt q'); off := 1048624 |} q']>
             (w_maps (sample_world empty_pool)))
          (set_w_errno (w_errno (sample_world empty_pool)) (sample_world empty_pool)))).
Proof.
  assert (H : 0 <= 3 < PMEMOBJ_NUM_OID_TYPES (ObjConsts := sample_consts))
    by (change (0 <= 3 < 1024); lia).
  pose proof (strdup_copies_strlen_bytes (consts := sample_consts) (lext := sample_lext)
                4096000 [104; 105; 0; 7] 3 (sample_world empty_pool) empty_pool H eq_refl)
    as P.
  cbv zeta in P. destruct P as [A B]. split; [exact A|].
  destruct (B 1048624 empty_pool) as (q' & E & Hin & Hout).
  - unfold NULL. lia.
  - right. repeat split; reflexivity.
  - exists q'. split; [exact E | split; [exact Hin | split; [exact Hout|]]].
    rewrite A. cbn [list_insert_new sample_lext]. rewrite E. reflexivity.
Defined.

(** * Further properties

    What the rest of the code shows: the outcomes of
    [pmemobj_map_common] on its fields, the rejections, the round trip of
    create and open, and the object operations. *)

(** ** Reasoning on the struct fields *)

Section ViewRules.
Context {consts : ObjConsts} {ext : PoolExternals}.

Lemma vruns_ret {A} (a : A) s (Q : A -> sview -> Prop) R :
  Q a s -> vruns (ret a) s Q R.
Proof. intros H m <-. exact H. Qed.

Lemma vruns_bind {A B} (c : M machine A) (k : A -> M machine B) s Q R :
  vruns c s (fun a s' => vruns (k a) s' Q R) R -> vruns (bind c k) s Q R.
Proof.
  intros H m Hm. specialize (H m Hm). unfold bind.
  destruct (c m) as [[a | | ] m1]; auto.
  apply H. reflexivity.
Qed.

Lemma vruns_conseq {A} (c : M machine A) s (Q Q' : A -> sview -> Prop) (R R' : sview -> Prop) :
  vruns c s Q R -> (forall a s', Q a s' -> Q' a s') -> (forall s', R s' -> R' s') ->
  vruns c s Q' R'.
Proof.
  intros H HQ HR m Hm. specialize (H m Hm).
  destruct (c m) as [[a | | ] m1]; auto.
Qed.

Lemma vruns_goto_err {A} s (Q : A -> sview -> Prop) (R : sview -> Prop) :
  R s -> vruns goto_err s Q R.
Proof. intros H m <-. exact H. Qed.

Lemma vruns_when b c s (Q : unit -> sview -> Prop) R :
  (b = true -> vruns c s Q R) -> (b = false -> Q tt s) -> vruns (when b c) s Q R.
Proof.
  destruct b; intros H1 H2; cbn.
  - auto.
  - apply vruns_ret; auto.
Qed.

Lemma vruns_ASSERT b s (Q : unit -> sview -> Prop) (R : sview -> Prop) :
  (b = false -> R s) -> (b = true -> Q tt s) -> vruns (ASSERT b) s Q R.
Proof. intros H1 H2 m <-. unfold ASSERT. destruct b; auto. Qed.

Lemma vruns_put_errno e' h d hd dd e r (Q : unit -> sview -> Prop) R :
  Q tt (Build_sview h d hd dd e' r) ->
  vruns (put_errno e') (Build_sview h d hd dd e r) Q R.
Proof. intros H m Hm. unfold view in Hm. injection Hm as <- <- <- <- <- <-. exact H. Qed.

Lemma vruns_get_errno h d hd dd e r (Q : Z -> sview -> Prop) R :
  Q e (Build_sview h d hd dd e r) ->
  vruns get_errno (Build_sview h d hd dd e r) Q R.
Proof. intros H m Hm. unfold view in Hm. injection Hm as <- <- <- <- <- <-. exact H. Qed.

Lemma vruns_get_vol h d hd dd e r (Q : image -> sview -> Prop) R :
  (forall pop, hdr pop = h -> dsc pop = d -> Q pop (Build_sview h d hd dd e r)) ->
  vruns get_vol (Build_sview h d hd dd e r) Q R.
Proof. intros H m Hm. unfold view in Hm. injection Hm as <- <- <- <- <- <-. apply H; reflexivity. Qed.

Lemma vruns_log ev s (Q : unit -> sview -> Prop) R :
  Q tt s -> vruns (log ev) s Q R.
Proof. intros H m <-. exact H. Qed.

Lemma vruns_store_hdr f h d hd dd e r (Q : unit -> sview -> Prop) R :
  Q tt (Build_sview (f h) d hd dd e r) ->
  vruns (store_hdr f) (Build_sview h d hd dd e r) Q R.
Proof. intros H m Hm. unfold view in Hm. injection Hm as <- <- <- <- <- <-. exact H. Qed.

Lemma vruns_store_dsc f h d hd dd e r (Q : unit -> sview -> Prop) R :
  Q tt (Build_sview h (f d) hd dd e r) ->
  vruns (store_dsc f) (Build_sview h d hd dd e r) Q R.
Proof. intros H m Hm. unfold view in Hm. injection Hm as <- <- <- <- <- <-. exact H. Qed.

Lemma vruns_store_run_id f s (Q : unit -> sview -> Prop) R :
  Q tt s -> vruns (store_run_id f) s Q R.
Proof. intros H m <-. exact H. Qed.

Lemma vruns_memset_bytes rg p c n s (Q : unit -> sview -> Prop) R :
  Q tt s -> vruns (memset_bytes rg p c n) s Q R.
Proof. intros H m <-. exact H. Qed.

Lemma vruns_msync_hdr h d hd dd e r (Q : unit -> sview -> Prop) R :
  Q tt (Build_sview h d h dd e r) ->
  vruns pmem_msync_hdr (Build_sview h d hd dd e r) Q R.
Proof. intros H m Hm. unfold view in Hm. injection Hm as <- <- <- <- <- <-. exact H. Qed.

Lemma vruns_msync_dsc h d hd dd e r (Q : unit -> sview -> Prop) R :
  Q tt (Build_sview h d hd d e r) ->
  vruns pmem_msync_dsc (Build_sview h d hd dd e r) Q R.
Proof. intros H m Hm. unfold view in Hm. injection Hm as <- <- <- <- <- <-. exact H. Qed.

Lemma vruns_msync_run_id s (Q : unit -> sview -> Prop) R :
  Q tt s -> vruns pmem_msync_run_id s Q R.
Proof. intros H m <-. exact H. Qed.

Lemma vruns_msync_bytes rg p n s (Q : unit -> sview -> Prop) R :
  Q tt s -> vruns (pmem_msync_bytes rg p n) s Q R.
Proof. intros H m <-. exact H. Qed.

Lemma vruns_call_sub c f h d hd dd e r (Q : Z -> sview -> Prop) R :
  (forall x, Q x (Build_sview h d hd dd x r)) ->
  vruns (call_sub c f) (Build_sview h d hd dd e r) Q R.
Proof.
  intros H m Hm. unfold view in Hm. injection Hm as <- <- <- <- <- <-. unfold call_sub, bind, log. cbn.
  destruct (f _ _) as [x [v b]]. cbn. apply H.
Qed.

Lemma vruns_set_rt x h d hd dd e r (Q : unit -> sview -> Prop) R :
  Q tt (Build_sview h d hd dd e x) ->
  vruns (fun m => (Done tt, set_rt x m)) (Build_sview h d hd dd e r) Q R.
Proof. intros H m Hm. unfold view in Hm. injection Hm as <- <- <- <- <- <-. exact H. Qed.

Lemma vruns_cuckoo_insert k a h d hd dd e r (Q : Z -> sview -> Prop) R :
  (forall x, Q x (Build_sview h d hd dd x r)) ->
  vruns (fun m => let '(x, t) := cuckoo_insert (pools m) k a in
                  (Done x, set_errno x (set_pools t m))) (Build_sview h d hd dd e r) Q R.
Proof.
  intros H m Hm. unfold view in Hm. injection Hm as <- <- <- <- <- <-. destruct (cuckoo_insert _ _ _) as [x t]. apply H.
Qed.

End ViewRules.

Section ViewMapCommon.
Context {consts : ObjConsts} {ext : PoolExternals}.

Ltac vstep exit_tac :=
  cbv beta;
  lazymatch goal with
  | |- vruns (bind _ _) _ _ _ => apply vruns_bind
  | |- vruns (when _ _) _ _ _ => apply vruns_when; intros ?
  | |- vruns (ASSERT _) _ _ _ => apply vruns_ASSERT; [intros ?; exit_tac | intros ?]
  | |- vruns (store_hdr _) _ _ _ => apply vruns_store_hdr
  | |- vruns (store_dsc _) _ _ _ => apply vruns_store_dsc
  | |- vruns (store_run_id _) _ _ _ => apply vruns_store_run_id
  | |- vruns (memset_bytes _ _ _ _) _ _ _ => apply vruns_memset_bytes
  | |- vruns pmem_msync_hdr _ _ _ => apply vruns_msync_hdr
  | |- vruns pmem_msync_dsc _ _ _ => apply vruns_msync_dsc
  | |- vruns pmem_msync_run_id _ _ _ => apply vruns_msync_run_id
  | |- vruns (pmem_msync_bytes _ _ _) _ _ _ => apply vruns_msync_bytes
  | |- vruns (put_errno _) _ _ _ => apply vruns_put_errno
  | |- vruns (log _) _ _ _ => apply vruns_log
  | |- vruns get_vol _ _ _ => apply vruns_get_vol; intros ? ? ?
  | |- vruns get_errno _ _ _ => apply vruns_get_errno
  | |- vruns (call_sub _ _) _ _ _ => apply vruns_call_sub; intros ?
  | |- vruns goto_err _ _ _ => apply vruns_goto_err; exit_tac
  | |- vruns (ret _) _ _ _ => apply vruns_ret
  | |- vruns (fun m => (Done tt, set_rt _ m)) _ _ _ => apply vruns_set_rt
  | |- vruns (fun m => let '(_, _) := cuckoo_insert _ _ _ in _) _ _ _ =>
      apply vruns_cuckoo_insert; intros ?
  end.

Ltac frame_exit := unfold frame; cbn; repeat split; reflexivity.

Lemma eqb_of_negb_false a b : negb (a =? b) = false -> a = b.
Proof. intros H. apply negb_false_iff, Z.eqb_eq in H. exact H. Qed.

Lemma map_create_view lay ps rd h d hd dd e r :
  vruns (map_create lay ps rd) (Build_sview h d hd dd e r)
    (fun rd' s' =>
       rd' = rd /\ rd = 0 /\ util_is_zeroed h = true /\
       match lay with Some l => strlen l < PMEMOBJ_MAX_LAYOUT | None => True end /\
       exists h' d', s' = Build_sview h' d' h' d' 0 r /\
                     created_hdr_ok h h' /\ created_dsc_ok lay ps d')
    (fun _ => True).
Proof.
  unfold map_create.
  repeat vstep ltac:(exact I).
  destruct lay as [l|]; repeat vstep ltac:(exact I).
  all: match goal with H : negb (?x =? 0) = false |- _ =>
         apply eqb_of_negb_false in H; subst x end.
  all: match goal with H : (_ =? 0) = true |- _ => apply Z.eqb_eq in H end.
  all: match goal with H : negb (util_is_zeroed _) = false, E : hdr _ = _ |- _ =>
         apply negb_false_iff in H; rewrite E in H end.
  all: repeat match goal with
         | |- _ /\ _ => split
         | |- _ = _ => first [reflexivity | assumption]
         | |- _ < _ => apply Z.leb_gt; assumption
         | |- True => exact I
         end.
  all: eexists _, _; split; [reflexivity|].
  all: split; [unfold created_hdr_ok | unfold created_dsc_ok]; cbn; repeat split;
       reflexivity.
Qed.

Lemma map_open_checks_view lay rd h d hd dd e r :
  vruns (map_open_checks lay rd) (Build_sview h d hd dd e r)
    (fun rd' s' =>
       open_checks_pass lay h d = true /\
       0 <= fst (open_feature_check h e) /\
       rd' = (if fst (open_feature_check h e) =? 0 then 1 else rd) /\
       s' = Build_sview h d hd dd (snd (open_feature_check h e)) r)
    (frame h d hd dd).
Proof.
  unfold map_open_checks, open_checks_pass, open_feature_check.
  repeat vstep frame_exit.
  match goal with E : hdr _ = h |- _ => rewrite E in * end.
  match goal with E : dsc _ = d |- _ => rewrite E in * end.
  destruct (util_convert_hdr h) as [ok h1] eqn:Ec. cbn [snd].
  repeat vstep frame_exit.
  destruct (util_feature_check h1 _ _ _ e) as [retval e'] eqn:Ef. cbn [fst snd].
  repeat vstep frame_exit.
  assert (Hp : negb (ok =? 0)
    && (strncmp (signature h1) OBJ_HDR_SIG (Z.to_nat POOL_HDR_SIG_LEN) =? 0)
    && (major h1 =? OBJ_FORMAT_MAJOR)
    && (util_check_arch_flags (arch h1) =? 0)
    && match lay with
       | Some l => strncmp (layout d) l (Z.to_nat PMEMOBJ_MAX_LAYOUT) =? 0
       | None => true
       end
    && util_checksum_dsc_check d = true).
  { repeat match goal with H : negb _ = false |- _ => apply negb_false_iff in H end.
    repeat (apply andb_true_iff; split); try assumption.
    - apply negb_true_iff. assumption.
    - destruct lay; [|reflexivity].
      match goal with H : negb _ = false |- _ => apply negb_false_iff in H; exact H end. }
  destruct (retval <? 0) eqn:Hlt; [vstep frame_exit|].
  apply Z.ltb_ge in Hlt.
  destruct (retval =? 0); vstep frame_exit; repeat split; assumption.
Qed.

Lemma installed_rt_ok_intro a ps rd ip h d :
  installed_rt_ok a ps rd ip h d
    {| rt_addr := a;
       rt_size := ps;
       rt_rdonly := rd;
       rt_lanes := NULL;
       rt_is_pmem := ip;
       rt_uuid_lo := pmemobj_get_uuid_lo h;
       rt_store := u64 (a + obj_store_offset d);
       rt_persist := if ip =? 0 then fn_pmem_msync else fn_pmem_persist;
       rt_flush := if ip =? 0 then fn_pmem_msync else fn_pmem_flush;
       rt_drain := if ip =? 0 then fn_drain_empty else fn_pmem_drain;
       rt_memcpy_persist :=
         if ip =? 0 then fn_nopmem_memcpy_persist else fn_pmem_memcpy_persist;
       rt_memset_persist :=
         if ip =? 0 then fn_nopmem_memset_persist else fn_pmem_memset_persist |}.
Proof.
  unfold installed_rt_ok, valid_table. cbn.
  destruct (ip =? 0) eqn:Hip;
    [apply Z.eqb_eq in Hip | apply Z.eqb_neq in Hip];
    repeat split; try reflexivity; try congruence; try (intros; congruence).
  - right. repeat split; reflexivity.
  - left. repeat split; reflexivity.
Qed.

Lemma map_runtime_view a ps rd ip h d hd dd e r :
  vruns (map_runtime a ps rd ip) (Build_sview h d hd dd e r)
    (fun pop s' =>
       pop = a /\
       exists rtv, s' = Build_sview h d hd dd 0 (Some rtv) /\
                   installed_rt_ok a ps rd ip h d rtv)
    (frame h d hd dd).
Proof.
  unfold map_runtime.
  repeat vstep frame_exit.
  all: repeat match goal with H : negb (?x =? 0) = false |- _ =>
         apply eqb_of_negb_false in H; subst x end.
  all: split; [reflexivity|]; eexists; split; [reflexivity|].
  all: repeat match goal with E : hdr _ = _ |- _ => rewrite E end.
  all: repeat match goal with E : dsc _ = _ |- _ => rewrite E end.
  all: apply installed_rt_ok_intro.
Qed.

End ViewMapCommon.

Section ViewOutcomes.
Context {consts : ObjConsts} {ext : PoolExternals}.

(** The struct fields after a run of [pmemobj_map_common] that returns a
    pool. *)
Lemma map_common_success_view fd lay ps rd empty m pop :
  fst (pmemobj_map_common fd lay ps rd empty m) = Some pop -> pop <> NULL ->
  let m' := snd (pmemobj_map_common fd lay ps rd empty m) in
  let h0 := hdr (dur m) in
  let d0 := dsc (dur m) in
  let rd' := if empty =? 0
             then (if fst (open_feature_check h0 (errno m)) =? 0 then 1 else rd)
             else rd in
  pop = fst (util_map fd ps rd) /\
  errno m' = 0 /\ hdr (dur m') = hdr (vol m') /\ dsc (dur m') = dsc (vol m') /\
  (if empty =? 0
   then hdr (dur m') = h0 /\ dsc (dur m') = d0 /\ open_checks_pass lay h0 d0 = true /\
        0 <= fst (open_feature_check h0 (errno m))
   else rd = 0 /\ util_is_zeroed h0 = true /\
        match lay with Some l => strlen l < PMEMOBJ_MAX_LAYOUT | None => True end /\
        created_hdr_ok h0 (hdr (dur m')) /\ created_dsc_ok lay ps (dsc (dur m'))) /\
  exists rtv, rt m' = Some rtv /\
    installed_rt_ok pop ps rd' (pmem_is_pmem pop ps) (hdr (dur m')) (dsc (dur m')) rtv.
Proof.
  cbv zeta. unfold pmemobj_map_common.
  destruct (util_map fd ps rd) as [a e].
  destruct (a =? NULL) eqn:Ha.
  { intros [= <-] Hp. congruence. }
  match goal with |- context [bind ?c ?k (set_vol (dur m) m)] =>
    assert (H : vruns (bind c k)
      (Build_sview (hdr (dur m)) (dsc (dur m)) (hdr (dur m)) (dsc (dur m)) (errno m) (rt m))
      (fun pop' s' =>
         pop' = a /\
         exists h' d' rtv,
           s' = Build_sview h' d' h' d' 0 (Some rtv) /\
           (if empty =? 0
            then h' = hdr (dur m) /\ d' = dsc (dur m) /\
                 open_checks_pass lay (hdr (dur m)) (dsc (dur m)) = true /\
                 0 <= fst (open_feature_check (hdr (dur m)) (errno m))
            else rd = 0 /\ util_is_zeroed (hdr (dur m)) = true /\
                 match lay with Some l => strlen l < PMEMOBJ_MAX_LAYOUT | None => True end /\
                 created_hdr_ok (hdr (dur m)) h' /\ created_dsc_ok lay ps d') /\
           installed_rt_ok a ps
             (if empty =? 0
              then (if fst (open_feature_check (hdr (dur m)) (errno m)) =? 0 then 1 else rd)
              else rd)
             (pmem_is_pmem a ps) h' d' rtv)
      (fun _ => True))
  end.
  { apply vruns_bind. destruct (empty =? 0).
    - eapply vruns_conseq; [apply map_open_checks_view | | intros; exact I].
      intros rd1 s' (Hpass & Hge & -> & ->).
      eapply vruns_conseq; [apply map_runtime_view | | intros; exact I].
      intros pop' s' (-> & rtv & -> & Hrt). split; [reflexivity|].
      exists (hdr (dur m)), (dsc (dur m)), rtv.
      split; [reflexivity|]. split; [|exact Hrt].
      repeat split; first [assumption | reflexivity].
    - eapply vruns_conseq; [apply map_create_view | | intros; exact I].
      intros rd1 s' (-> & Hrd & Hz & Hl & h' & d' & -> & Hh & Hd).
      eapply vruns_conseq; [apply map_runtime_view | | intros; exact I].
      intros pop' s' (-> & rtv & -> & Hrt). split; [reflexivity|].
      exists h', d', rtv.
      split; [reflexivity|]. split; [|exact Hrt].
      split; [exact Hrd|]. split; [exact Hz|]. split; [exact Hl|].
      split; assumption. }
  specialize (H (set_vol (dur m) m) eq_refl).
  destruct (bind _ _ _) as [[pop' | | ] m1]; cbn [fst snd].
  - intros [= <-] Hp. destruct H as (-> & h' & d' & rtv & Hv & Hcase & Hrt).
    unfold view in Hv. injection Hv as Hh Hd Hhd Hdd He Hr.
    rewrite Hhd, Hdd, Hh, Hd, He, Hr. repeat split; try reflexivity.
    + exact Hcase.
    + exists rtv. split; [reflexivity | exact Hrt].
  - intros [= <-] Hp. congruence.
  - intros [=].
Qed.

End ViewOutcomes.

(** ** Rejections *)

Section Rejections.
Context {consts : ObjConsts} {ext : PoolExternals}.

Lemma bind_goto {S A B} (c : M S A) (k : A -> M S B) w w' :
  c w = (GotoErr, w') -> bind c k w = (GotoErr, w').
Proof. intros H. unfold bind. rewrite H. reflexivity. Qed.

Lemma bind_ok {S A B} (c : M S A) (k : A -> M S B) w a w' :
  c w = (Done a, w') -> bind c k w = k a w'.
Proof. intros H. unfold bind. rewrite H. reflexivity. Qed.

Lemma when_fail_true {A} (k : unit -> M machine A) e m :
  bind (when true (bind (put_errno e) (fun _ => goto_err))) k m
  = (GotoErr, set_errno e m).
Proof. reflexivity. Qed.

Lemma when_fail_false {A} (k : unit -> M machine A) e m :
  bind (when false (bind (put_errno e) (fun _ => goto_err))) k m = k tt m.
Proof. reflexivity. Qed.

(** A failed validation leaves the open branch at once, with [EINVAL]. *)
Lemma map_open_checks_fail lay rd m :
  open_checks_pass lay (hdr (vol m)) (dsc (vol m)) = false ->
  map_open_checks lay rd m = (GotoErr, set_errno EINVAL m).
Proof.
  unfold open_checks_pass, map_open_checks. intros H.
  rewrite (bind_ok get_vol _ m (vol m) m eq_refl).
  destruct (util_convert_hdr (hdr (vol m))) as [ok h].
  destruct (ok =? 0); [apply when_fail_true | rewrite when_fail_false].
  destruct (strncmp (signature h) _ _ =? 0); [rewrite when_fail_false | apply when_fail_true].
  destruct (major h =? _); [rewrite when_fail_false | apply when_fail_true].
  destruct (util_check_arch_flags _ =? 0); [rewrite when_fail_false | apply when_fail_true].
  cbn [negb andb] in H.
  destruct lay as [l|].
  - destruct (strncmp (layout _) l _ =? 0); [rewrite when_fail_false | apply when_fail_true].
    cbn [andb] in H. rewrite H. apply when_fail_true.
  - rewrite when_fail_false. cbn [andb] in H. rewrite H. apply when_fail_true.
Qed.

(** A validation that passes leaves the open branch to
    [util_feature_check]: a negative answer jumps to [err], 0 makes the pool
    read-only. *)
Lemma map_open_checks_accepts lay rd m :
  open_checks_pass lay (hdr (vol m)) (dsc (vol m)) = true ->
  map_open_checks lay rd m
  = (if fst (open_feature_check (hdr (vol m)) (errno m)) <? 0 then GotoErr
     else Done (if fst (open_feature_check (hdr (vol m)) (errno m)) =? 0 then 1 else rd),
     set_errno (snd (open_feature_check (hdr (vol m)) (errno m))) m).
Proof.
  unfold open_checks_pass, open_feature_check, map_open_checks. intros H.
  rewrite (bind_ok get_vol _ m (vol m) m eq_refl).
  destruct (util_convert_hdr (hdr (vol m))) as [ok h]. cbn [snd].
  rewrite !andb_true_iff in H. destruct H as (((((H1 & H2) & H3) & H4) & H5) & H6).
  apply negb_true_iff in H1. rewrite H1, when_fail_false.
  rewrite H2. cbn [negb]. rewrite when_fail_false.
  rewrite H3. cbn [negb]. rewrite when_fail_false.
  rewrite H4. cbn [negb]. rewrite when_fail_false.
  assert (E5 : match lay with
               | Some l => negb (strncmp (layout (dsc (vol m))) l
                                   (Z.to_nat PMEMOBJ_MAX_LAYOUT) =? 0)
               | None => false
               end = false).
  { destruct lay; [rewrite H5|]; reflexivity. }
  rewrite E5, when_fail_false.
  rewrite H6. cbn [negb]. rewrite when_fail_false.
  rewrite (bind_ok get_errno _ m (errno m) m eq_refl).
  destruct (util_feature_check h _ _ _ (errno m)) as [retval e']. cbn [fst snd].
  unfold bind, put_errno.
  destruct (retval <? 0); [reflexivity|]. destruct (retval =? 0); reflexivity.
Qed.

Lemma new_trace_one m m' x :
  trace m' = trace m ++ [x] -> new_trace m m' = [x].
Proof. intros H. unfold new_trace. rewrite H. apply drop_app_length. Qed.

(** What [pmemobj_map_common] returns when its body jumps to [err] with
    the machine [m1]. *)
Lemma map_common_goto fd lay ps rd empty m a e m1 :
  util_map fd ps rd = (a, e) -> a <> NULL ->
  bind (if empty =? 0 then map_open_checks lay rd else map_create lay ps rd)
       (fun rd' => map_runtime a ps rd' (pmem_is_pmem a ps)) (set_vol (dur m) m)
  = (GotoErr, m1) ->
  pmemobj_map_common fd lay ps rd empty m
  = (Some NULL, set_trace (trace m1 ++ [(EvCall FnUnmap, dur m1)]) m1).
Proof.
  intros Hu Ha Hb. unfold pmemobj_map_common. rewrite Hu.
  apply Z.eqb_neq in Ha. rewrite Ha. rewrite Hb. reflexivity.
Qed.

Lemma map_common_open_invalid fd lay ps rd m :
  fst (util_map fd ps rd) <> NULL ->
  open_checks_pass lay (hdr (dur m)) (dsc (dur m)) = false ->
  pmemobj_map_common fd lay ps rd 0 m
  = (Some NULL, set_trace (trace m ++ [(EvCall FnUnmap, dur m)])
                          (set_errno EINVAL (set_vol (dur m) m))).
Proof.
  intros Ha Hf. destruct (util_map fd ps rd) as [a e] eqn:Hu. cbn [fst] in Ha.
  rewrite (map_common_goto fd lay ps rd 0 m a e
             (set_errno EINVAL (set_vol (dur m) m)) Hu Ha).
  - reflexivity.
  - apply bind_goto. change (0 =? 0) with true. cbv iota.
    apply map_open_checks_fail. exact Hf.
Qed.

(** X1: on the open path, a pool that fails the validation of header,
    layout or descriptor checksum is refused with [EINVAL]; nothing was
    stored: the media, the registry and the run-time state are untouched,
    and the only event is the unmapping. *)
Theorem open_rejects_invalid_pool fd lay ps rd m :
  fst (util_map fd ps rd) <> NULL ->
  open_checks_pass lay (hdr (dur m)) (dsc (dur m)) = false ->
  let res := pmemobj_map_common fd lay ps rd 0 m in
  fst res = Some NULL /\ errno (snd res) = EINVAL /\ dur (snd res) = dur m /\
  pools (snd res) = pools m /\ rt (snd res) = rt m /\
  map fst (new_trace m (snd res)) = [EvCall FnUnmap].
Proof.
  intros Ha Hf res. subst res. rewrite (map_common_open_invalid fd lay ps rd m Ha Hf).
  cbn [fst snd]. repeat split.
  rewrite (new_trace_one m _ (EvCall FnUnmap, dur m)); reflexivity.
Qed.

(** X2: on the create path, a file whose header is not all zeros, or a
    layout name of [PMEMOBJ_MAX_LAYOUT] characters or more, is refused with
    [EINVAL] before anything is stored. *)
Theorem create_rejects_used_file_or_long_layout fd lay ps empty m :
  empty <> 0 ->
  fst (util_map fd ps 0) <> NULL ->
  util_is_zeroed (hdr (dur m)) = false \/
  (exists l, lay = Some l /\ PMEMOBJ_MAX_LAYOUT <= strlen l) ->
  let res := pmemobj_map_common fd lay ps 0 empty m in
  fst res = Some NULL /\ errno (snd res) = EINVAL /\ dur (snd res) = dur m /\
  pools (snd res) = pools m /\ rt (snd res) = rt m /\
  map fst (new_trace m (snd res)) = [EvCall FnUnmap].
Proof.
  intros He Ha Hbad res. destruct (util_map fd ps 0) as [a e] eqn:Hu. cbn [fst] in Ha.
  assert (E : res = (Some NULL,
                     set_trace (trace m ++ [(EvCall FnUnmap, dur m)])
                               (set_errno EINVAL (set_vol (dur m) m)))).
  { subst res. rewrite (map_common_goto fd lay ps 0 empty m a e
                          (set_errno EINVAL (set_vol (dur m) m)) Hu Ha).
    - reflexivity.
    - apply bind_goto. apply Z.eqb_neq in He. rewrite He.
      unfold map_create.
      rewrite (bind_ok (ASSERT (0 =? 0)) _ (set_vol (dur m) m) tt (set_vol (dur m) m) eq_refl).
      rewrite (bind_ok get_vol _ (set_vol (dur m) m) (dur m) (set_vol (dur m) m) eq_refl).
      destruct (util_is_zeroed (hdr (dur m))) eqn:Hz.
      + destruct Hbad as [Hbad | (l & -> & Hl)]; [discriminate|].
        cbn [negb]. rewrite when_fail_false.
        apply Z.leb_le in Hl. rewrite Hl. apply when_fail_true.
      + apply when_fail_true. }
  rewrite E. cbn [fst snd]. repeat split.
  rewrite (new_trace_one m _ (EvCall FnUnmap, dur m)); reflexivity.
Qed.

End Rejections.

(** ** Outcomes of the lifecycle calls *)

Section PoolOutcomes.
Context {consts : ObjConsts} {ext : PoolExternals}.

Lemma open_body_frame lay ps rd a ip h d hd dd e r :
  vruns (bind (map_open_checks lay rd) (fun rd' => map_runtime a ps rd' ip))
        (Build_sview h d hd dd e r)
        (fun _ s' => frame h d hd dd s') (frame h d hd dd).
Proof.
  apply vruns_bind.
  eapply vruns_conseq; [apply map_open_checks_view | | intros s' H; exact H].
  intros rd1 s' (_ & _ & _ & ->).
  eapply vruns_conseq; [apply map_runtime_view | | intros s' H; exact H].
  intros pop s' (_ & rtv & -> & _). repeat split.
Qed.

Lemma map_common_open_frame fd lay ps rd m :
  hdr (dur (snd (pmemobj_map_common fd lay ps rd 0 m))) = hdr (dur m) /\
  dsc (dur (snd (pmemobj_map_common fd lay ps rd 0 m))) = dsc (dur m).
Proof.
  unfold pmemobj_map_common.
  destruct (util_map fd ps rd) as [a e].
  destruct (a =? NULL); [split; reflexivity|].
  change (0 =? 0) with true. cbv iota.
  pose proof (open_body_frame lay ps rd a (pmem_is_pmem a ps)
                (hdr (dur m)) (dsc (dur m)) (hdr (dur m)) (dsc (dur m))
                (errno m) (rt m) (set_vol (dur m) m) eq_refl) as H.
  destruct (bind _ _ _) as [[pop | | ] m1]; destruct H as (_ & _ & H1 & H2);
    split; assumption.
Qed.

(** X3: the open path never writes the header or the descriptor: whatever
    the outcome of [pmemobj_map_common] on an existing pool, of
    [pmemobj_open] and of [pmemobj_check], header and descriptor on the
    media are those of the file. *)
Theorem open_path_keeps_header_and_descriptor fd lay ps rd m :
  (hdr (dur (snd (pmemobj_map_common fd lay ps rd 0 m))) = hdr (dur m) /\
   dsc (dur (snd (pmemobj_map_common fd lay ps rd 0 m))) = dsc (dur m)) /\
  (hdr (dur (snd (pmemobj_open lay m))) = hdr (dur m) /\
   dsc (dur (snd (pmemobj_open lay m))) = dsc (dur m)) /\
  (hdr (dur (snd (pmemobj_check lay m))) = hdr (dur m) /\
   dsc (dur (snd (pmemobj_check lay m))) = dsc (dur m)).
Proof.
  split; [apply map_common_open_frame | split].
  - unfold pmemobj_open. destruct util_pool_open as [fd' ps'].
    destruct (fd' =? -1); [split; reflexivity | apply map_common_open_frame].
  - unfold pmemobj_check. destruct util_pool_open as [fd' ps'].
    destruct (fd' =? -1); [split; reflexivity|].
    pose proof (map_common_open_frame fd' lay ps' 1 m) as H.
    destruct (pmemobj_map_common fd' lay ps' 1 0 m) as [[pop|] m1]; cbn [snd] in *;
      [|exact H].
    destruct (pop =? NULL); cbn [snd]; [exact H|].
    rewrite dur_pmemobj_close. exact H.
Qed.

(** X4: after a successful create, the descriptor on the media (and in
    the mapping) gives the lanes at [OBJ_LANES_OFFSET], the object store
    right after the lanes, the heap right after the object store, and a heap
    that ends where the pool ends. *)
Theorem created_descriptor_geometry fd lay ps rd empty m pop :
  empty <> 0 ->
  fst (pmemobj_map_common fd lay ps rd empty m) = Some pop -> pop <> NULL ->
  0 <= OBJ_LANES_OFFSET -> 0 <= OBJ_NLANES * sizeof_lane_layout ->
  0 <= (PMEMOBJ_NUM_OID_TYPES + 1) * sizeof_object_store_item ->
  OBJ_LANES_OFFSET + OBJ_NLANES * sizeof_lane_layout
    + (PMEMOBJ_NUM_OID_TYPES + 1) * sizeof_object_store_item <= ps ->
  ps < 2 ^ 64 ->
  let d := dsc (dur (snd (pmemobj_map_common fd lay ps rd empty m))) in
  dsc (vol (snd (pmemobj_map_common fd lay ps rd empty m))) = d /\
  lanes_offset d = OBJ_LANES_OFFSET /\ nlanes d = OBJ_NLANES /\
  obj_store_offset d = lanes_offset d + nlanes d * sizeof_lane_layout /\
  obj_store_size d = (PMEMOBJ_NUM_OID_TYPES + 1) * sizeof_object_store_item /\
  obj_store_offset d + obj_store_size d = heap_offset d /\
  heap_offset d + heap_size d = ps /\ 0 <= heap_size d.
Proof.
  intros He H Hp H1 H2 H3 H4 H5 d.
  destruct (map_common_success_view fd lay ps rd empty m pop H Hp)
    as (_ & _ & _ & Hd & Hcase & _).
  apply Z.eqb_neq in He. rewrite He in Hcase.
  destruct Hcase as (_ & _ & _ & _ & (_ & Hlo & Hnl & Hso & Hss & Hho & Hhs & _)).
  fold d in Hd, Hlo, Hnl, Hso, Hss, Hho, Hhs.
  unfold u64 in *.
  rewrite Z.mod_small in Hso by lia. rewrite Z.mod_small in Hss by lia.
  rewrite Hso, Hss in Hho. rewrite Z.mod_small in Hho by lia.
  rewrite Hho in Hhs. rewrite Z.mod_small in Hhs by lia.
  rewrite Hlo, Hnl. repeat split; try assumption; try lia. symmetry. exact Hd.
Qed.

(** X5: every pool [pmemobj_map_common] returns has its run-time fields
    installed: the address and size of the mapping, the registry key derived
    from the header, the read-only flag raised when [util_feature_check]
    returned 0 on the open path, and the five entries of the persistence
    table: [pmem_persist], [pmem_flush], [pmem_drain], [pmem_memcpy_persist]
    and [pmem_memset_persist] when the mapping is pmem, and [pmem_msync]
    (twice), [drain_empty], [nopmem_memcpy_persist] and
    [nopmem_memset_persist] when it is not; [errno] is left 0. *)
Theorem success_installs_runtime fd lay ps rd empty m pop :
  fst (pmemobj_map_common fd lay ps rd empty m) = Some pop -> pop <> NULL ->
  let m' := snd (pmemobj_map_common fd lay ps rd empty m) in
  let rd' := if empty =? 0
             then (if fst (open_feature_check (hdr (dur m)) (errno m)) =? 0 then 1 else rd)
             else rd in
  errno m' = 0 /\
  exists rtv, rt m' = Some rtv /\
    installed_rt_ok pop ps rd' (pmem_is_pmem pop ps) (hdr (vol m')) (dsc (vol m')) rtv.
Proof.
  intros H Hp m' rd'.
  destruct (map_common_success_view fd lay ps rd empty m pop H Hp)
    as (_ & He & Hh & Hd & _ & rtv & Hr & Hok).
  split; [exact He|]. exists rtv. split; [exact Hr|].
  fold m' in Hh, Hd. rewrite <- Hh, <- Hd. exact Hok.
Qed.

Lemma mod2_eqb_even x : (x mod 2 =? 0) = Z.even x.
Proof. rewrite Zmod_even. destruct (Z.even x); reflexivity. Qed.

(** X6: once the file is open, [pmemobj_check] answers -1 when the
    mapping fails; otherwise it answers 0 when the [run_id] found in the file is
    odd (the increment made by the mapping keeps the parity), when
    [heap_check] fails or when [lane_check] fails, and 1 in the remaining
    case. *)
Theorem pmemobj_check_verdict lay m pop :
  fst util_pool_open <> -1 ->
  let r := pmemobj_map_common (fst util_pool_open) lay (snd util_pool_open) 1 0 m in
  fst r = Some pop ->
  fst (pmemobj_check lay m)
  = Some (if pop =? NULL then -1
          else if Z.odd (run_id (dur m))
                  || negb (heap_check (vol (snd r)) =? 0)
                  || negb (lane_check (vol (snd r)) =? 0)
               then 0 else 1).
Proof.
  intros Hfd r Hr. unfold pmemobj_check.
  destruct util_pool_open as [fd ps]. cbn [fst snd] in *.
  apply Z.eqb_neq in Hfd. rewrite Hfd. fold r.
  destruct (Z.eq_dec pop NULL) as [-> | Hp].
  - destruct r as [[p|] m1]; cbn [fst] in Hr; [|discriminate].
    injection Hr as ->. reflexivity.
  - destruct (map_common_abs fd lay ps 1 0 m) as [_ Hs].
    specialize (Hs pop Hr Hp). unfold abs in Hs. injection Hs as _ _ Hv.
    fold r in Hv. change (prior_run_id 0 (run_id (dur m))) with (run_id (dur m)) in Hv.
    destruct r as [[p|] m1]; cbn [fst snd] in *; [|discriminate].
    injection Hr as ->. apply Z.eqb_neq in Hp. rewrite Hp. cbn [fst].
    rewrite mod2_eqb_even, Hv, even_next_run_id, <- Z.negb_odd.
    destruct (Z.odd (run_id (dur m))); cbn [negb orb].
    + destruct (negb (heap_check (vol m1) =? 0)), (negb (lane_check (vol m1) =? 0));
        reflexivity.
    + destruct (negb (heap_check (vol m1) =? 0)), (negb (lane_check (vol m1) =? 0));
        reflexivity.
Qed.

End PoolOutcomes.

(** ** Create, close, open *)

Section RoundTrip.
Context {consts : ObjConsts} {ext : PoolExternals}.

Lemma strlen_ge0 s : 0 <= strlen s.
Proof. induction s as [|c s IH]; cbn [strlen]; [lia | destruct (c =? 0); lia]. Qed.

Lemma strncpy_length s n : length (strncpy s n) = n.
Proof.
  revert s. induction n as [|n IH]; intros s; [reflexivity|].
  cbn [strncpy]. destruct s as [|c s]; [|destruct (c =? 0)]; cbn [length]; rewrite IH;
    reflexivity.
Qed.

(** A buffer that starts with [strncpy(s, n)] compares equal to [s] over
    [n] characters. *)
Lemma strncmp_strncpy_self n s rest : strncmp (strncpy s n ++ rest) s n = 0.
Proof.
  revert s. induction n as [|n IH]; intros s; [reflexivity|].
  cbn [strncpy strncmp]. destruct s as [|c s].
  - reflexivity.
  - destruct (c =? 0) eqn:Hc.
    + apply Z.eqb_eq in Hc. subst c. reflexivity.
    + cbn [app hd tl]. rewrite Z.eqb_refl, Hc. cbn [negb]. apply IH.
Qed.

(** The same over one more character, when the copy is followed by a
    zero and the string fits. *)
Lemma strncmp_strncpy_fit k s rest :
  strlen s <= Z.of_nat k -> strncmp (strncpy s k ++ 0 :: rest) s (S k) = 0.
Proof.
  revert s. induction k as [|k IH]; intros s Hs.
  - cbn [strncpy app strncmp hd]. destruct s as [|c s]; [reflexivity|].
    cbn [strlen hd] in *. destruct (c =? 0) eqn:Hc.
    + apply Z.eqb_eq in Hc. subst c. reflexivity.
    + pose proof (strlen_ge0 s). lia.
  - cbn [strncpy]. destruct s as [|c s].
    + reflexivity.
    + cbn [strlen] in Hs. destruct (c =? 0) eqn:Hc.
      * apply Z.eqb_eq in Hc. subst c. reflexivity.
      * cbn [app]. change (strncmp (c :: ?a) (c :: ?b) (S ?n))
          with (if negb (c =? c) then c - c else if c =? 0 then 0 else strncmp a b n).
        rewrite Z.eqb_refl, Hc. cbn [negb]. apply IH. lia.
Qed.

Lemma cstr_strncpy_fit k s rest :
  strlen s <= Z.of_nat k ->
  cstr (strncpy s k ++ 0 :: rest) = cstr s /\
  strlen (strncpy s k ++ 0 :: rest) = strlen s.
Proof.
  revert s. induction k as [|k IH]; intros s Hs.
  - cbn [strncpy app cstr strlen]. change (0 =? 0) with true. cbv iota.
    destruct s as [|c s]; [split; reflexivity|].
    cbn [strlen cstr] in *. destruct (c =? 0); [split; reflexivity|].
    pose proof (strlen_ge0 s). lia.
  - cbn [strncpy]. destruct s as [|c s].
    + cbn [app cstr strlen]. change (0 =? 0) with true. split; reflexivity.
    + cbn [strlen] in Hs. cbn [strlen cstr]. destruct (c =? 0) eqn:Hc.
      * cbn [app cstr strlen]. change (0 =? 0) with true. split; reflexivity.
      * cbn [app cstr strlen]. rewrite Hc.
        destruct (IH s ltac:(lia)) as [E1 E2]. rewrite E1, E2. split; reflexivity.
Qed.

(** Strings that [strncmp] finds equal over more characters than the
    first has are the same string. *)
Lemma strncmp_zero_cstr n a b :
  strncmp a b n = 0 -> strlen a < Z.of_nat n -> cstr a = cstr b.
Proof.
  revert a b. induction n as [|n IH]; intros a b H Hl.
  - pose proof (strlen_ge0 a). lia.
  - cbn [strncmp] in H.
    destruct (hd 0 a =? hd 0 b) eqn:Hab; cbn [negb] in H.
    2:{ apply Z.eqb_neq in Hab. lia. }
    apply Z.eqb_eq in Hab.
    destruct a as [|ca a], b as [|cb b]; cbn [hd tl strlen cstr] in *.
    + reflexivity.
    + subst cb. reflexivity.
    + subst ca. reflexivity.
    + subst cb. destruct (ca =? 0); [reflexivity|].
      f_equal. apply IH; [exact H | lia].
Qed.

Lemma overwrite_zero_layout k l :
  overwrite (repeat 0 (S k)) (strncpy l k) = strncpy l k ++ [0].
Proof.
  unfold overwrite. rewrite strncpy_length. f_equal.
  induction k as [|k IH]; [reflexivity | exact IH].
Qed.

(** The layout name as the create branch stores it. *)
Lemma stored_layout l :
  strlen l < PMEMOBJ_MAX_LAYOUT ->
  let stored := overwrite (repeat 0 (Z.to_nat PMEMOBJ_MAX_LAYOUT))
                          (strncpy l (Z.to_nat (PMEMOBJ_MAX_LAYOUT - 1))) in
  strncmp stored l (Z.to_nat PMEMOBJ_MAX_LAYOUT) = 0 /\
  cstr stored = cstr l /\ strlen stored < Z.of_nat (Z.to_nat PMEMOBJ_MAX_LAYOUT).
Proof.
  intros Hl stored. pose proof (strlen_ge0 l) as H0. subst stored.
  replace (Z.to_nat PMEMOBJ_MAX_LAYOUT) with (S (Z.to_nat (PMEMOBJ_MAX_LAYOUT - 1)))
    by lia.
  rewrite overwrite_zero_layout.
  assert (Hk : strlen l <= Z.of_nat (Z.to_nat (PMEMOBJ_MAX_LAYOUT - 1))) by lia.
  destruct (cstr_strncpy_fit _ l [] Hk) as [E1 E2].
  split; [apply strncmp_strncpy_fit, Hk | split; [exact E1 | rewrite E2; lia]].
Qed.

Lemma arch_flags_eq (a b : arch_flags) :
  alignment_desc a = alignment_desc b -> e_machine a = e_machine b ->
  arch_data a = arch_data b -> arch_reserved a = arch_reserved b -> a = b.
Proof. destruct a, b. cbn. intros -> -> -> ->. reflexivity. Qed.

(** The header and the descriptor a create has left pass, once the pool
    is closed, the tests of the open branch. *)
Lemma closed_pool_passes_checks fd lay ps rd empty m pop :
  empty <> 0 ->
  fst (pmemobj_map_common fd lay ps rd empty m) = Some pop -> pop <> NULL ->
  host_big_endian = false ->
  (forall h, hdr_checksum h = checksum_hdr h -> util_convert_hdr h = (1, h)) ->
  (forall c h, checksum_hdr (set_hdr_checksum c h) = checksum_hdr h) ->
  (forall c d, checksum_dsc (set_checksum c d) = checksum_dsc d) ->
  util_check_arch_flags (snd util_get_arch_flags) = 0 ->
  let m' := pmemobj_close pop (snd (pmemobj_map_common fd lay ps rd empty m)) in
  open_checks_pass lay (hdr (dur m')) (dsc (dur m')) = true.
Proof.
  intros He H Hp Hle Hconv Hch Hcd Harch m'. subst m'. rewrite dur_pmemobj_close.
  destruct (map_common_success_view fd lay ps rd empty m pop H Hp)
    as (_ & _ & _ & _ & Hcase & _).
  apply Z.eqb_neq in He. rewrite He in Hcase.
  destruct Hcase as (_ & _ & Hlay & Hh & Hd).
  set (h := hdr (dur (snd (pmemobj_map_common fd lay ps rd empty m)))) in *.
  set (d := dsc (dur (snd (pmemobj_map_common fd lay ps rd empty m)))) in *.
  destruct Hh as (Hsig & Hmaj & _ & _ & _ & _ & _ & Hal & Hem & Had & Har & _ & Hck).
  destruct Hd as (Hl & _ & _ & _ & _ & _ & _ & Hdc).
  unfold htole64 in Hal. unfold htole16 in Hem. unfold htole32 in Hmaj.
  rewrite Hle in Hal, Hem, Hmaj.
  rewrite Hch in Hck. rewrite Hcd in Hdc.
  unfold open_checks_pass. rewrite (Hconv h Hck).
  rewrite Hsig. unfold overwrite. rewrite strncmp_strncpy_self.
  rewrite Hmaj, Z.eqb_refl.
  rewrite (arch_flags_eq (arch h) (snd util_get_arch_flags) Hal Hem Had Har), Harch.
  unfold util_checksum_dsc_check. rewrite <- Hdc, !Z.eqb_refl.
  cbn [negb andb Z.eqb].
  destruct lay as [l|]; [|reflexivity].
  rewrite Hl. destruct (stored_layout l Hlay) as (E & _ & _). rewrite E. reflexivity.
Qed.

(** X7: a pool that [pmemobj_map_common] has created opens again, once
    closed, under the layout name it was created with: the open path finds
    signature, version, architecture flags, layout name and descriptor
    checksum as written, goes through every test of its validation, and
    [pmemobj_map_common] returns the address of the new mapping.  (Little-
    endian host, check sums that skip their own field, a [util_convert_hdr]
    that accepts a header with a right checksum, architecture flags of the
    running machine that pass their check; [util_map] gives a mapping,
    [util_feature_check] does not refuse the header, the boot routines
    succeed and the registry takes the key.) *)
Theorem create_then_open_validates fd lay ps rd empty m pop fd2 ps2 rd2 :
  empty <> 0 ->
  fst (pmemobj_map_common fd lay ps rd empty m) = Some pop -> pop <> NULL ->
  host_big_endian = false ->
  (forall h, hdr_checksum h = checksum_hdr h -> util_convert_hdr h = (1, h)) ->
  (forall c h, checksum_hdr (set_hdr_checksum c h) = checksum_hdr h) ->
  (forall c d, checksum_dsc (set_checksum c d) = checksum_dsc d) ->
  util_check_arch_flags (snd util_get_arch_flags) = 0 ->
  fst (util_map fd2 ps2 rd2) <> NULL ->
  (forall d b, fst (lane_boot d b) = 0) ->
  (forall d b, fst (heap_boot d b) = 0) ->
  let m' := pmemobj_close pop (snd (pmemobj_map_common fd lay ps rd empty m)) in
  0 <= fst (open_feature_check (hdr (dur m')) (errno m')) ->
  fst (cuckoo_insert (pools m') (pmemobj_get_uuid_lo (hdr (dur m')))
         (fst (util_map fd2 ps2 rd2))) = 0 ->
  map_open_checks lay rd2 (set_vol (dur m') m')
  = (Done (if fst (open_feature_check (hdr (dur m')) (errno m')) =? 0 then 1 else rd2),
     set_errno (snd (open_feature_check (hdr (dur m')) (errno m'))) (set_vol (dur m') m')) /\
  fst (pmemobj_map_common fd2 lay ps2 rd2 0 m') = Some (fst (util_map fd2 ps2 rd2)).
Proof.
  intros He H Hp Hle Hconv Hch Hcd Harch Hmap Hlb Hhb m' Hfc Hck.
  pose proof (closed_pool_passes_checks fd lay ps rd empty m pop
                He H Hp Hle Hconv Hch Hcd Harch) as Hpass.
  cbv zeta in Hpass. fold m' in Hpass.
  pose proof (map_open_checks_accepts lay rd2 (set_vol (dur m') m') Hpass) as Hopen.
  cbn [vol set_vol errno] in Hopen.
  apply Z.ltb_ge in Hfc. rewrite Hfc in Hopen.
  split; [exact Hopen|].
  unfold pmemobj_map_common.
  destruct (util_map fd2 ps2 rd2) as [a e]. cbn [fst] in Hmap, Hck |- *.
  apply Z.eqb_neq in Hmap. rewrite Hmap.
  change (0 =? 0) with true. cbv iota zeta.
  rewrite (bind_ok _ _ _ _ _ Hopen).
  match goal with |- context [map_runtime a ps2 ?r ?ip ?m0] =>
    pose proof (map_runtime_succeeds a ps2 r ip m0 Hlb Hhb Hck) as Hrun;
    destruct (map_runtime a ps2 r ip m0) as [[x | | ] m2]
  end; cbn [fst] in Hrun; try discriminate Hrun.
  injection Hrun as ->. reflexivity.
Qed.

(** X8: a pool created with one layout name and opened with another is
    refused with [EINVAL], whatever the rest of the validation says. *)
Theorem reopen_with_other_layout_fails fd l1 ps rd empty m pop fd2 l2 ps2 rd2 :
  empty <> 0 ->
  fst (pmemobj_map_common fd (Some l1) ps rd empty m) = Some pop -> pop <> NULL ->
  cstr l1 <> cstr l2 ->
  fst (util_map fd2 ps2 rd2) <> NULL ->
  let m' := pmemobj_close pop (snd (pmemobj_map_common fd (Some l1) ps rd empty m)) in
  let res2 := pmemobj_map_common fd2 (Some l2) ps2 rd2 0 m' in
  fst res2 = Some NULL /\ errno (snd res2) = EINVAL /\ dur (snd res2) = dur m'.
Proof.
  intros He H Hp Hne Hu m' res2.
  assert (Hf : open_checks_pass (Some l2) (hdr (dur m')) (dsc (dur m')) = false).
  { subst m'. rewrite dur_pmemobj_close.
    destruct (map_common_success_view fd (Some l1) ps rd empty m pop H Hp)
      as (_ & _ & _ & _ & Hcase & _).
    apply Z.eqb_neq in He. rewrite He in Hcase.
    destruct Hcase as (_ & _ & Hlay & _ & (Hl & _)).
    unfold open_checks_pass. destruct (util_convert_hdr _) as [ok h].
    rewrite Hl. destruct (stored_layout l1 Hlay) as (_ & Ec & Es).
    destruct (strncmp _ l2 _ =? 0) eqn:Hcmp.
    - apply Z.eqb_eq in Hcmp. apply strncmp_zero_cstr in Hcmp; [|exact Es].
      rewrite Ec in Hcmp. contradiction.
    - rewrite andb_false_r. reflexivity. }
  subst res2. rewrite (map_common_open_invalid fd2 (Some l2) ps2 rd2 m' Hu Hf).
  cbn [fst snd]. repeat split.
Qed.

End RoundTrip.

(** ** The mapping is released exactly on failure *)

Section Unmapping.
Context {consts : ObjConsts} {ext : PoolExternals}.

Lemma map_rtrace_no_unmap empty lay d :
  ~ In (EvCall FnUnmap) (map fst (map_rtrace empty lay d)).
Proof.
  unfold map_rtrace, create_rtrace, runtime_rtrace, create_events.
  destruct (empty =? 0), lay, (u64 (d + 2) =? 0), (u64 (0 + 2) =? 0);
    cbn; intuition discriminate.
Qed.

(** X17: once [util_map] has given a mapping, [pmemobj_map_common]
    unmaps it exactly when it fails: a call that returns [NULL] ends with
    the call of [util_unmap]; a call that returns a pool returns the address
    [util_map] gave and has not called [util_unmap]. *)
Theorem unmaps_exactly_on_failure fd lay ps rd empty m :
  fst (util_map fd ps rd) <> NULL ->
  let res := pmemobj_map_common fd lay ps rd empty m in
  (fst res = Some NULL ->
     exists l, map fst (new_trace m (snd res)) = l ++ [EvCall FnUnmap]) /\
  (forall pop, fst res = Some pop -> pop <> NULL ->
     pop = fst (util_map fd ps rd) /\
     ~ In (EvCall FnUnmap) (map fst (new_trace m (snd res)))).
Proof.
  intros Ha. cbv zeta. unfold pmemobj_map_common.
  destruct (util_map fd ps rd) as [a e]. cbn [fst] in Ha.
  apply Z.eqb_neq in Ha as Hab. rewrite Hab.
  pose proof (map_body_runs lay ps rd empty a (pmem_is_pmem a ps)
                (rtrace (trace m)) (run_id (dur m)) (set_vol (dur m) m) eq_refl) as H.
  destruct (bind _ _ _) as [[pop | | ] m'].
  - destruct H as [-> H]. cbn [fst snd]. split.
    + intros [= E]. contradiction.
    + intros pop0 [= <-] _. split; [reflexivity|].
      unfold abs in H. injection H as H _ _.
      rewrite events_rtrace, (rtrace_new_trace _ _ _ H).
      apply map_rtrace_no_unmap.
  - destruct H as (l & H1 & _). cbn [fst snd]. split.
    + intros _. change (a_trace (abs m')) with (rtrace (trace m')) in H1.
      assert (Hlen : (length (trace m) <= length (trace m'))%nat).
      { rewrite <- (rtrace_length (trace m)), <- (rtrace_length (trace m')), H1, length_app.
        lia. }
      exists (map fst (drop (length (trace m)) (trace m'))).
      unfold new_trace. cbn [trace set_trace].
      rewrite drop_app_le by exact Hlen. rewrite map_app. reflexivity.
    + intros pop [= <-] Hp. congruence.
  - cbn [fst snd]. split; [intros [=] | intros pop [=]].
Qed.

End Unmapping.

(** ** Object operations *)

Section ObjectOperations.
Context {consts : ObjConsts} {lext : ListExternals} {mext : ListMoreExternals}.

Lemma memset_inside p c n b a : p <= a < p + n -> memset p c n b a = c.
Proof.
  intros H. unfold memset.
  replace ((p <=? a) && (a <? p + n)) with true; [reflexivity|].
  symmetry. apply andb_true_iff. split; [apply Z.leb_le | apply Z.ltb_lt]; lia.
Qed.

Lemma memset_outside p c n b a : ~ (p <= a < p + n) -> memset p c n b a = b a.
Proof.
  intros H. unfold memset.
  destruct ((p <=? a) && (a <? p + n)) eqn:E; [|reflexivity].
  apply andb_true_iff in E as [E1 E2]. apply Z.leb_le in E1. apply Z.ltb_lt in E2. lia.
Qed.

(** What [pop->memset_persist(dest, c, len)] leaves, for both tables. *)
Lemma call_memset_persist_spec dest c len q :
  valid_table (pop_rt q) ->
  exists q', call_memset_persist dest c len q = Some q' /\
    pop_rt q' = pop_rt q /\ oobs q' = oobs q /\ oobs_media q' = oobs_media q /\
    store q' = store q /\ rootlock q' = rootlock q /\
    (forall a, dest <= a < dest + len -> data q' a = c /\ media q' a = c) /\
    (forall a, ~ (dest <= a < dest + len) -> data q' a = data q a /\ media q' a = media q a).
Proof.
  intros [(_ & _ & Hc) | (_ & _ & Hc)]; unfold call_memset_persist; rewrite Hc;
    eexists; (split; [reflexivity|]); repeat (split; [reflexivity|]); split;
    intros a Ha; cbn.
  - rewrite !memset_inside by exact Ha. split; reflexivity.
  - rewrite !memset_outside by exact Ha. split; reflexivity.
  - rewrite (copy_range_inside dest len) by exact Ha. rewrite !memset_inside by exact Ha.
    split; reflexivity.
  - rewrite (copy_range_outside dest len) by exact Ha.
    rewrite !memset_outside by exact Ha. split; reflexivity.
Qed.

Lemma update_at_same {A} k (f : A -> A) g : update_at k f g k = f (g k).
Proof. unfold update_at. rewrite Z.eqb_refl. reflexivity. Qed.

Lemma update_at_other {A} k (f : A -> A) g a : a <> k -> update_at k f g a = g a.
Proof. intros H. unfold update_at. apply Z.eqb_neq in H. rewrite H. reflexivity. Qed.

(** The header part of the constructors of typed objects: the two type
    fields are stored and the header made durable. *)
Lemma typed_header_spec pobj ut q :
  valid_table (pop_rt q) ->
  exists q',
    call_persist_oob pobj
      (set_oobs (update_at pobj (set_user_type ut)
                   (oobs (set_oobs (update_at pobj (set_internal_type OP_ALLOC) (oobs q)) q)))
                (set_oobs (update_at pobj (set_internal_type OP_ALLOC) (oobs q)) q))
    = Some q' /\
    pop_rt q' = pop_rt q /\ data q' = data q /\ media q' = media q /\
    store q' = store q /\ rootlock q' = rootlock q /\
    oobs q' pobj = set_user_type ut (set_internal_type OP_ALLOC (oobs q pobj)) /\
    oobs_media q' pobj = oobs q' pobj /\
    (forall a, a <> pobj -> oobs q' a = oobs q a /\ oobs_media q' a = oobs_media q a).
Proof.
  intros [(Hc & _) | (Hc & _)]; unfold call_persist_oob; cbn [pop_rt set_oobs];
    rewrite Hc; eexists; (split; [reflexivity|]); cbn;
    rewrite ?update_at_same; repeat (split; [reflexivity|]);
    intros a Ha; rewrite ?update_at_other by exact Ha; split; reflexivity.
Qed.

(** X9: on a mapped pool and for a valid type, [pmemobj_alloc] calls
    [list_insert_new] on the list of the type for [size] bytes with the
    constructor [ctor], and returns the identifier that call returns,
    leaving the pool and the [errno] the call leaves.  [ctor] stores
    [OP_ALLOC] and the type in the OOB header of the new object and makes
    that header durable, and touches nothing else: the other fields of the
    header, every other header and all payload bytes are as before. *)
Theorem alloc_types_the_header pop size type_num w p :
  0 <= type_num < PMEMOBJ_NUM_OID_TYPES ->
  w_maps w !! pop = Some p ->
  let ctor := constructor_alloc_bytype
                {| cb_user_type := u16 type_num; cb_constructor := None |} in
  pmemobj_alloc pop size type_num w
  = match list_insert_new p (HeadBytype type_num) 0 NULL OID_NULL 0 size ctor (w_errno w) with
    | Some (oid, e, p') =>
        (Done oid, set_w_maps (<[pop := p']> (w_maps w)) (set_w_errno e w))
    | None => (Abort, w)
    end /\
  (forall ptr q, ptr <> NULL -> valid_table (pop_rt q) ->
     exists q', ctor ptr q = Some q' /\
       internal_type (oobs q' (OOB_HEADER_FROM_PTR ptr)) = OP_ALLOC /\
       user_type (oobs q' (OOB_HEADER_FROM_PTR ptr)) = u16 type_num /\
       oob (oobs q' (OOB_HEADER_FROM_PTR ptr)) = oob (oobs q (OOB_HEADER_FROM_PTR ptr)) /\
       oob_size (oobs q' (OOB_HEADER_FROM_PTR ptr))
         = oob_size (oobs q (OOB_HEADER_FROM_PTR ptr)) /\
       oobs_media q' (OOB_HEADER_FROM_PTR ptr) = oobs q' (OOB_HEADER_FROM_PTR ptr) /\
       (forall a, a <> OOB_HEADER_FROM_PTR ptr ->
          oobs q' a = oobs q a /\ oobs_media q' a = oobs_media q a) /\
       data q' = data q /\ media q' = media q /\ store q' = store q).
Proof.
  intros Hty Hmap ctor. split.
  - unfold pmemobj_alloc, pmemobj_alloc_construct.
    rewrite (valid_type_num_test _ Hty).
    apply call_list_insert_new_mapped. exact Hmap.
  - intros ptr q Hptr Htab. subst ctor. unfold constructor_alloc_bytype.
    apply Z.eqb_neq in Hptr. rewrite Hptr. cbv zeta. cbn [cb_user_type cb_constructor].
    destruct (typed_header_spec (OOB_HEADER_FROM_PTR ptr) (u16 type_num) q Htab)
      as (q' & -> & _ & Hd & Hm & Hs & _ & Ho & Hom & Hrest).
    exists q'. split; [reflexivity|].
    do 4 (split; [rewrite Ho; reflexivity|]).
    split; [exact Hom|]. split; [exact Hrest|]. repeat split; assumption.
Qed.

(** X10: on a mapped pool and for a valid type, [pmemobj_zalloc] calls
    [list_insert_new] on the list of the type for [size] bytes with the
    constructor [ctor], and returns the identifier that call returns,
    leaving the pool and the [errno] the call leaves.  [ctor] leaves the
    [size] bytes of the payload zero, in the mapping and on the media, under
    a typed and durable header; no byte outside the payload is written. *)
Theorem zalloc_zeroes_the_payload pop size type_num w p :
  0 <= type_num < PMEMOBJ_NUM_OID_TYPES ->
  w_maps w !! pop = Some p ->
  let ctor := constructor_alloc_bytype
                {| cb_user_type := u16 type_num;
                   cb_constructor := Some (constructor_zalloc size) |} in
  pmemobj_zalloc pop size type_num w
  = match list_insert_new p (HeadBytype type_num) 0 NULL OID_NULL 0 size ctor (w_errno w) with
    | Some (oid, e, p') =>
        (Done oid, set_w_maps (<[pop := p']> (w_maps w)) (set_w_errno e w))
    | None => (Abort, w)
    end /\
  (forall ptr q, ptr <> NULL -> valid_table (pop_rt q) ->
     exists q', ctor ptr q = Some q' /\
       (forall a, ptr <= a < ptr + size -> data q' a = 0 /\ media q' a = 0) /\
       (forall a, ~ (ptr <= a < ptr + size) -> data q' a = data q a /\ media q' a = media q a) /\
       internal_type (oobs q' (OOB_HEADER_FROM_PTR ptr)) = OP_ALLOC /\
       user_type (oobs q' (OOB_HEADER_FROM_PTR ptr)) = u16 type_num /\
       oobs_media q' (OOB_HEADER_FROM_PTR ptr) = oobs q' (OOB_HEADER_FROM_PTR ptr)).
Proof.
  intros Hty Hmap ctor. split.
  - unfold pmemobj_zalloc, pmemobj_alloc_construct.
    rewrite (valid_type_num_test _ Hty).
    apply call_list_insert_new_mapped. exact Hmap.
  - intros ptr q Hptr Htab. subst ctor. unfold constructor_alloc_bytype, constructor_zalloc.
    apply Z.eqb_neq in Hptr. rewrite Hptr. cbv zeta. cbn [cb_user_type cb_constructor].
    destruct (typed_header_spec (OOB_HEADER_FROM_PTR ptr) (u16 type_num) q Htab)
      as (q1 & -> & Ht & Hd & Hm & _ & _ & Ho & Hom & _).
    rewrite Hptr.
    assert (Htab1 : valid_table (pop_rt q1)) by (rewrite Ht; exact Htab).
    destruct (call_memset_persist_spec ptr 0 size q1 Htab1)
      as (q2 & -> & _ & Ho2 & Hom2 & _ & _ & Hin & Hout).
    exists q2. split; [reflexivity|].
    split; [exact Hin|]. split.
    { intros a Ha. rewrite <- Hd, <- Hm. apply Hout. exact Ha. }
    rewrite Ho2, Hom2.
    do 2 (split; [rewrite Ho; reflexivity|]). exact Hom.
Qed.

(** X11: on a mapped pool whose root list is empty and whose root lock
    is free, [pmemobj_root] calls [list_insert_new] on the root list for
    [size] bytes with [constructor_alloc_root]; it returns, not the
    identifier that call returns, but the first element the root list has
    afterwards, and leaves the pool of the call with the lock released and
    the [errno] of the call.  The constructor stores [OP_ALLOC], the type
    [UINT16_MAX] and the requested size in the OOB header of the new object
    and makes it durable; it writes no payload byte. *)
Theorem root_object_header pop size w p :
  w_maps w !! pop = Some p -> rootlock p = false ->
  off (pe_first (root (store p))) = 0 ->
  pmemobj_root pop size w
  = match list_insert_new (set_rootlock true p) HeadRoot 0 NULL OID_NULL 0 size
            (constructor_alloc_root size) (w_errno w) with
    | Some (oid, e, p') =>
        (Done (pe_first (root (store p'))),
         set_w_maps (<[pop := set_rootlock false p']> (w_maps w)) (set_w_errno e w))
    | None => (Abort, set_w_maps (<[pop := set_rootlock true p]> (w_maps w)) w)
    end /\
  (forall ptr q, ptr <> NULL -> valid_table (pop_rt q) ->
     exists q', constructor_alloc_root size ptr q = Some q' /\
       internal_type (oobs q' (OOB_HEADER_FROM_PTR ptr)) = OP_ALLOC /\
       user_type (oobs q' (OOB_HEADER_FROM_PTR ptr)) = UINT16_MAX /\
       oob_size (oobs q' (OOB_HEADER_FROM_PTR ptr)) = size /\
       oobs_media q' (OOB_HEADER_FROM_PTR ptr) = oobs q' (OOB_HEADER_FROM_PTR ptr) /\
       data q' = data q /\ media q' = media q).
Proof.
  intros Hmap Hlock Hroot. split.
  - set (w1 := set_w_maps (<[pop := set_rootlock true p]> (w_maps w)) w).
    assert (Hmap1 : w_maps w1 !! pop = Some (set_rootlock true p))
      by apply lookup_insert_eq.
    unfold pmemobj_root. cbv zeta.
    rewrite (bind_done _ _ _ _ _ (pmemobj_mutex_lock_free _ _ _ Hmap Hlock)).
    fold w1. rewrite (bind_done _ _ _ _ _ (deref_some _ _ _ Hmap1)).
    cbn [store set_rootlock]. apply Z.eqb_eq in Hroot. rewrite Hroot.
    unfold obj_alloc_root. unfold bind at 1.
    rewrite (call_list_insert_new_mapped _ _ _ _ _ _ _ _ _ _ Hmap1).
    change (w_errno w1) with (w_errno w).
    destruct (list_insert_new _ _ _ _ _ _ _ _ _) as [[[oid e] p']|]; [|reflexivity].
    match goal with |- bind _ _ ?w2 = _ =>
      assert (Hmap2 : w_maps w2 !! pop = Some p') by apply lookup_insert_eq;
      rewrite (bind_done _ _ _ _ _ (deref_some _ _ _ Hmap2));
      rewrite (bind_done _ _ _ _ _ (pmemobj_mutex_unlock_some _ _ _ Hmap2))
    end.
    unfold ret. f_equal. unfold w1, set_w_maps, set_w_errno.
    cbn [w_errno w_pools w_maps w_calls]. rewrite !insert_insert_eq. reflexivity.
  - intros ptr q Hptr Htab. unfold constructor_alloc_root.
    apply Z.eqb_neq in Hptr. rewrite Hptr. cbv zeta.
    destruct Htab as [(Hc & _) | (Hc & _)]; unfold call_persist_oob; cbn [pop_rt set_oobs];
      rewrite Hc; eexists; (split; [reflexivity|]); cbn; rewrite ?update_at_same;
      repeat split; reflexivity.
Qed.

(** X12: [pmemobj_free] gives no sign of a failure: with a null offset
    it does nothing (no registry lookup, no list call); on a live object of
    a valid type it hands the object to [list_remove_free] on the list of
    the object's own type and returns normally whatever that call answers,
    leaving the pool and the [errno] the call left. *)
Theorem free_swallows_list_failure oid w pop p r e' p' :
  off oid <> 0 ->
  w_pools w !! pool_uuid_lo oid = Some pop -> pop <> NULL ->
  w_maps w !! pop = Some p ->
  user_type (oobs p (OOB_HEADER_FROM_OID oid)) < PMEMOBJ_NUM_OID_TYPES ->
  list_remove_free p (HeadBytype (user_type (oobs p (OOB_HEADER_FROM_OID oid))))
    0 NULL oid (w_errno w) = Some (r, e', p') ->
  pmemobj_free oid w
  = (Done tt,
     set_w_maps (<[pop := p']> (w_maps w))
       (set_w_errno e' (set_w_calls (w_calls w ++ [CallCuckooGet (pool_uuid_lo oid)]) w))) /\
  forall uuid w0, pmemobj_free {| pool_uuid_lo := uuid; off := 0 |} w0 = (Done tt, w0).
Proof.
  intros Hoff Hreg Hpop Hmap Hty Hrm. split; [|reflexivity].
  unfold pmemobj_free, call_list, bind, cuckoo_get, ASSERT, deref.
  apply Z.eqb_neq in Hoff. rewrite Hoff.
  cbn [w_pools w_maps set_w_calls]. rewrite Hreg. cbn [default from_option id].
  apply Z.eqb_neq in Hpop. rewrite Hpop. cbn [negb w_maps set_w_calls].
  rewrite Hmap. apply Z.ltb_lt in Hty. rewrite Hty.
  cbn [w_maps set_w_calls]. rewrite Hmap.
  cbn [w_errno set_w_calls]. rewrite Hrm. reflexivity.
Qed.

(** X13: [pmemobj_realloc] and [pmemobj_list_insert_new] refuse a type
    number below 0 or not below [PMEMOBJ_NUM_OID_TYPES] with [EINVAL] and the
    null identifier, and change nothing else; [pmemobj_realloc] does so only
    after it has read the old type of the object, which must name a type
    list. *)
Theorem realloc_and_list_insert_new_reject_type pop oid size type_num pe_offset head
    dest before w p :
  type_num < 0 \/ PMEMOBJ_NUM_OID_TYPES <= type_num ->
  w_maps w !! pop = Some p ->
  pmemobj_list_insert_new pop pe_offset head dest before size type_num w
  = (Done OID_NULL, set_w_errno EINVAL w) /\
  (user_type (oobs p (OOB_HEADER_FROM_OID oid)) < PMEMOBJ_NUM_OID_TYPES ->
   pmemobj_realloc pop oid size type_num w = (Done OID_NULL, set_w_errno EINVAL w)) /\
  (PMEMOBJ_NUM_OID_TYPES <= user_type (oobs p (OOB_HEADER_FROM_OID oid)) ->
   pmemobj_realloc pop oid size type_num w = (Abort, w)).
Proof.
  intros H Hmap. apply invalid_type_num_test in H. split; [|split].
  - unfold pmemobj_list_insert_new. rewrite H. reflexivity.
  - intros Hold. unfold pmemobj_realloc, obj_realloc_construct, bind, deref, ASSERT.
    rewrite Hmap. apply Z.ltb_lt in Hold. rewrite Hold, H. reflexivity.
  - intros Hold. unfold pmemobj_realloc, obj_realloc_construct, bind, deref, ASSERT.
    rewrite Hmap. apply Z.ltb_ge in Hold. rewrite Hold. reflexivity.
Qed.

(** X14: the constructor [pmemobj_zrealloc] passes when the object grows
    zeroes the bytes from the old usable size to the new size, in the
    mapping and on the media, and leaves the bytes below the old size, all
    other bytes and all headers as they were; [pmemobj_zrealloc] passes it
    only when the new size exceeds the usable size. *)
Theorem zrealloc_zeroes_the_growth old_size new_size ptr q :
  ptr <> NULL -> old_size < new_size ->
  0 <= ptr + old_size < 2 ^ 64 ->
  valid_table (pop_rt q) ->
  (exists q', constructor_zrealloc old_size new_size ptr q = Some q' /\
     (forall a, ptr + old_size <= a < ptr + new_size -> data q' a = 0 /\ media q' a = 0) /\
     (forall a, ~ (ptr + old_size <= a < ptr + new_size) ->
        data q' a = data q a /\ media q' a = media q a) /\
     oobs q' = oobs q /\ oobs_media q' = oobs_media q /\ store q' = store q) /\
  (forall pop oid type_num w usable w1,
     pmemobj_alloc_usable_size oid w = (Done usable, w1) ->
     pmemobj_zrealloc pop oid new_size type_num w
     = obj_realloc_construct pop oid new_size type_num
         (if usable <? new_size then Some (constructor_zrealloc usable new_size) else None)
         w1).
Proof.
  intros Hptr Hlt Hrange Htab. split.
  - unfold constructor_zrealloc. apply Z.eqb_neq in Hptr. rewrite Hptr.
    assert (Hb : (old_size <? new_size) = true) by (apply Z.ltb_lt; exact Hlt).
    rewrite Hb. cbn [negb]. cbv zeta.
    unfold u64. rewrite Z.mod_small by exact Hrange.
    destruct (call_memset_persist_spec (ptr + old_size) 0 (new_size - old_size) q Htab)
      as (q' & -> & _ & Ho & Hom & Hs & _ & Hin & Hout).
    exists q'. split; [reflexivity|].
    replace (ptr + old_size + (new_size - old_size)) with (ptr + new_size) in * by lia.
    repeat split; try assumption; try (apply Hin; assumption); apply Hout; assumption.
  - intros pop oid type_num w usable w1 Hu. unfold pmemobj_zrealloc.
    rewrite (bind_ok _ _ _ _ _ Hu). destruct (usable <? new_size); reflexivity.
Qed.

End ObjectOperations.

(** ** Traversal and the root lock *)

Section Traversal.
Context {consts : ObjConsts} {lext : ListExternals} {mext : ListMoreExternals}.

Lemma pmemobj_next_live oid w pop p h :
  off oid <> 0 ->
  w_pools w !! pool_uuid_lo oid = Some pop -> pop <> NULL ->
  w_maps w !! pop = Some p ->
  user_type (oobs p (OOB_HEADER_FROM_OID oid)) < PMEMOBJ_NUM_OID_TYPES ->
  bytype (store p) !! Z.to_nat (user_type (oobs p (OOB_HEADER_FROM_OID oid))) = Some h ->
  pmemobj_next oid w
  = (Done (if negb (off (pe_next (oob (oobs p (OOB_HEADER_FROM_OID oid)))) =? off (pe_first h))
           then pe_next (oob (oobs p (OOB_HEADER_FROM_OID oid))) else OID_NULL),
     set_w_calls (w_calls w ++ [CallCuckooGet (pool_uuid_lo oid)]) w).
Proof.
  intros Hoff Hreg Hpop Hmap Hty Hhead.
  unfold pmemobj_next, bind, cuckoo_get, ASSERT, deref, bytype_head.
  apply Z.eqb_neq in Hoff. rewrite Hoff.
  cbn [w_pools w_maps set_w_calls]. rewrite Hreg. cbn [default from_option id].
  apply Z.eqb_neq in Hpop. rewrite Hpop. cbn [negb w_maps set_w_calls].
  rewrite Hmap. apply Z.ltb_lt in Hty. rewrite Hty. rewrite Hhead.
  destruct (negb _); reflexivity.
Qed.

Lemma next_in_list pop p t os uuid :
  0 <= t < PMEMOBJ_NUM_OID_TYPES -> pop <> NULL ->
  Forall (fun o => pool_uuid_lo o = uuid) os ->
  type_list p t os ->
  forall i o w,
    w_maps w !! pop = Some p -> w_pools w !! uuid = Some pop ->
    os !! i = Some o ->
    pmemobj_next o w
    = (Done (default OID_NULL (os !! S i)),
       set_w_calls (w_calls w ++ [CallCuckooGet (pool_uuid_lo o)]) w).
Proof.
  intros Ht Hpop Hu ((h & Hh & Hfirst) & Hnd & Hring) i o w Hmap Hreg Ho.
  destruct (Hring i o Ho) as (Hoff & Hut & Hnext).
  assert (Huu : pool_uuid_lo o = uuid).
  { rewrite Forall_forall in Hu. apply Hu. eapply list_elem_of_lookup_2. exact Ho. }
  rewrite (pmemobj_next_live o w pop p h Hoff); try assumption.
  2:{ rewrite Huu. exact Hreg. }
  2:{ rewrite Hut. lia. }
  2:{ rewrite Hut. exact Hh. }
  f_equal. f_equal.
  rewrite Hnext, Hfirst. unfold next_in_ring.
  assert (H0 : os !! 0%nat = Some (hd OID_NULL os)).
  { destruct os; [discriminate Ho | reflexivity]. }
  destruct (os !! S i) as [o'|] eqn:Ho'; cbn [default from_option id].
  - assert (Hne : off o' <> off (hd OID_NULL os)).
    { intros E.
      assert (S i = 0)%nat; [|lia].
      eapply (NoDup_lookup _ _ _ (off o') Hnd).
      - rewrite list_lookup_fmap, Ho'. reflexivity.
      - rewrite list_lookup_fmap, H0, E. reflexivity. }
    apply Z.eqb_neq in Hne. rewrite Hne. reflexivity.
  - rewrite Z.eqb_refl. reflexivity.
Qed.

Lemma walk_step n oid w oid' w' :
  off oid <> 0 -> pmemobj_next oid w = (Done oid', w') ->
  walk (S n) oid w = option_map (cons oid) (walk n oid' w').
Proof.
  intros Hoff Hn. apply Z.eqb_neq in Hoff.
  change (walk (S n) oid w)
    with (if off oid =? 0 then Some []
          else match pmemobj_next oid w with
               | (Done o1, w1) =>
                   match walk n o1 w1 with Some l => Some (oid :: l) | None => None end
               | _ => None
               end).
  rewrite Hoff, Hn. destruct (walk n oid' w'); reflexivity.
Qed.

Lemma walk_from pop p t os uuid :
  0 <= t < PMEMOBJ_NUM_OID_TYPES -> pop <> NULL ->
  Forall (fun o => pool_uuid_lo o = uuid) os ->
  type_list p t os ->
  forall k i w,
    w_maps w !! pop = Some p -> w_pools w !! uuid = Some pop ->
    (i + k = length os)%nat ->
    walk (S k) (default OID_NULL (os !! i)) w = Some (drop i os).
Proof.
  intros Ht Hpop Hu Hl.
  induction k as [|k IH]; intros i w Hmap Hreg Hik.
  - rewrite (lookup_ge_None_2 os i) by lia. rewrite drop_ge by lia. reflexivity.
  - destruct (os !! i) as [o|] eqn:Ho.
    2:{ apply lookup_ge_None_1 in Ho. lia. }
    assert (Hoff : off o <> 0) by (destruct Hl as (_ & _ & Hring); apply (Hring i o Ho)).
    cbn [default from_option id].
    rewrite (walk_step (S k) o w _ _ Hoff
               (next_in_list pop p t os uuid Ht Hpop Hu Hl i o w Hmap Hreg Ho)).
    rewrite (IH (S i)) by (try assumption; lia).
    rewrite (drop_S os o i Ho). reflexivity.
Qed.

(** X15: on a pool whose list of type [t] is the ring of the objects
    [os], [pmemobj_first] returns the first of them (the null identifier
    when there is none); [pmemobj_next] returns, on each object, the object
    after it, and the null identifier on the last one; so the loop over
    [pmemobj_next] from the first object ends, after every call has
    returned, having met every object once, in the order of the ring. *)
Theorem walk_enumerates_type_list pop p t os uuid w :
  0 <= t < PMEMOBJ_NUM_OID_TYPES -> pop <> NULL ->
  w_maps w !! pop = Some p -> w_pools w !! uuid = Some pop ->
  Forall (fun o => pool_uuid_lo o = uuid) os ->
  type_list p t os ->
  pmemobj_first pop t w = (Done (hd OID_NULL os), w) /\
  (forall i o, os !! i = Some o ->
     fst (pmemobj_next o w) = Done (default OID_NULL (os !! S i))) /\
  walk (S (length os)) (hd OID_NULL os) w = Some os.
Proof.
  intros Ht Hpop Hmap Hreg Hu Hl. split; [|split].
  - destruct Hl as ((h & Hh & Hfirst) & _ & _).
    unfold pmemobj_first. rewrite (valid_type_num_test _ Ht).
    unfold bind, deref, bytype_head. rewrite Hmap, Hh, Hfirst. reflexivity.
  - intros i o Ho.
    rewrite (next_in_list pop p t os uuid Ht Hpop Hu Hl i o w Hmap Hreg Ho). reflexivity.
  - pose proof (walk_from pop p t os uuid Ht Hpop Hu Hl (length os) 0%nat w Hmap Hreg
                  ltac:(lia)) as H.
    rewrite drop_0 in H. destruct os; exact H.
Qed.

(** X16: whenever [pmemobj_root] returns, the root lock of the pool is
    free again, on each of its paths (allocation of the root, growth,
    failed growth, nothing to do); the identifier returned is the null one
    or the first element of the root list as the call leaves it. *)
Theorem pmemobj_root_releases_lock pop size w p oid w' :
  w_maps w !! pop = Some p ->
  pmemobj_root pop size w = (Done oid, w') ->
  rootlock p = false /\
  exists p', w_maps w' !! pop = Some p' /\ rootlock p' = false /\
             (oid = OID_NULL \/ oid = pe_first (root (store p'))).
Proof.
  intros Hmap H.
  destruct (rootlock p) eqn:Hlock.
  { exfalso. unfold pmemobj_root in H. cbv zeta in H.
    unfold bind at 1 in H. unfold pmemobj_mutex_lock in H.
    rewrite (bind_done _ _ _ _ _ (deref_some _ _ _ Hmap)) in H.
    rewrite Hlock in H. discriminate H. }
  split; [reflexivity|].
  set (w1 := set_w_maps (<[pop := set_rootlock true p]> (w_maps w)) w) in *.
  assert (Hmap1 : w_maps w1 !! pop = Some (set_rootlock true p)) by apply lookup_insert_eq.
  unfold pmemobj_root in H. cbv zeta in H.
  rewrite (bind_done _ _ _ _ _ (pmemobj_mutex_lock_free _ _ _ Hmap Hlock)) in H.
  fold w1 in H. rewrite (bind_done _ _ _ _ _ (deref_some _ _ _ Hmap1)) in H.
  cbn [store set_rootlock] in H.
  assert (Hfin : forall w2 p2 o w3,
    w_maps w2 !! pop = Some p2 ->
    bind (deref pop) (fun p0 => bind (pmemobj_mutex_unlock pop)
                                  (fun _ => ret (pe_first (root (store p0))))) w2
    = (Done o, w3) ->
    exists p', w_maps w3 !! pop = Some p' /\ rootlock p' = false /\
               (o = OID_NULL \/ o = pe_first (root (store p')))).
  { intros w2 p2 o w3 Hm2 Hf.
    rewrite (bind_done _ _ _ _ _ (deref_some _ _ _ Hm2)) in Hf.
    rewrite (bind_done _ _ _ _ _ (pmemobj_mutex_unlock_some _ _ _ Hm2)) in Hf.
    injection Hf as <- <-. exists (set_rootlock false p2).
    split; [apply lookup_insert_eq | split; [reflexivity | right; reflexivity]]. }
  destruct (off (pe_first (root (store p))) =? 0).
  - (* the root list is empty *)
    unfold obj_alloc_root, call_list_insert_new in H.
    unfold bind at 1 in H.
    rewrite (bind_done _ _ _ _ _ (deref_some _ _ _ Hmap1)) in H.
    destruct (list_insert_new _ _ _ _ _ _ _ _ _) as [[[o e] p2]|]; [|discriminate H].
    eapply Hfin; [|exact H]. apply lookup_insert_eq.
  - rewrite (bind_done _ _ _ _ _ (pmemobj_root_size_some _ _ _ Hmap1)) in H.
    destruct (_ <? size).
    + unfold obj_realloc_root in H.
      unfold bind at 1 in H. unfold bind at 1 in H.
      rewrite (deref_some _ _ _ Hmap1) in H.
      destruct (list_realloc _ _ _ _ _ _ _ _ _ _) as [[[[r o] e] p2]|]; [|discriminate H].
      destruct (negb (r =? 0)).
      * match type of H with bind _ _ ?w2 = _ =>
          assert (Hm2 : w_maps w2 !! pop
                        = Some (set_store (set_root {| pe_first := o |} (store p2)) p2))
            by apply lookup_insert_eq end.
        rewrite (bind_done _ _ _ _ _ (pmemobj_mutex_unlock_some _ _ _ Hm2)) in H.
        injection H as <- <-. eexists. split; [apply lookup_insert_eq|].
        split; [reflexivity | left; reflexivity].
      * eapply Hfin; [|exact H]. apply lookup_insert_eq.
    + eapply Hfin; [|exact H]. exact Hmap1.
Qed.

End Traversal.

(** ** The further properties on the sample configuration *)

#[local] Existing Instance sample_consts.
#[local] Existing Instance sample_ext.
#[local] Existing Instance sample_lext.
#[local] Existing Instance sample_mext.

Lemma sample_convert_hdr_accepts h :
  hdr_checksum h = checksum_hdr h -> util_convert_hdr h = (1, h).
Proof.
  intros E. change (util_convert_hdr h)
    with (if hdr_checksum h =? sample_checksum_hdr h then 1 else 0, h).
  change (checksum_hdr h) with (sample_checksum_hdr h) in E.
  rewrite E, Z.eqb_refl. reflexivity.
Qed.

Lemma sample_checksum_hdr_skips c h :
  checksum_hdr (set_hdr_checksum c h) = checksum_hdr h.
Proof. reflexivity. Qed.

Lemma sample_checksum_dsc_skips c d :
  checksum_dsc (set_checksum c d) = checksum_dsc d.
Proof. reflexivity. Qed.

Lemma sample_pool_type_list :
  type_list sample_pool 3 [sample_oid 1000; sample_oid 2000].
Proof.
  split; [|split].
  - exists {| pe_first := sample_oid 1000 |}. split; reflexivity.
  - change (NoDup [1000; 2000]). apply (bool_decide_unpack _). vm_compute. exact I.
  - intros [|[|i]] o Ho; try discriminate Ho; injection Ho as <-.
    + split; [change (1000 <> 0); lia | split; reflexivity].
    + split; [change (2000 <> 0); lia | split; reflexivity].
Qed.

(** X1 on a file of zeros, which has no pool signature. *)
Lemma open_rejects_invalid_pool_witness :
  let res := pmemobj_map_common 3 sample_layout 8388608 0 0 fresh_machine in
  fst res = Some NULL /\ errno (snd res) = EINVAL /\ dur (snd res) = dur fresh_machine /\
  pools (snd res) = pools fresh_machine /\ rt (snd res) = rt fresh_machine /\
  map fst (new_trace fresh_machine (snd res)) = [EvCall FnUnmap].
Proof.
  refine (open_rejects_invalid_pool 3 sample_layout 8388608 0 fresh_machine _ _).
  - change (4096000 <> 0). lia.
  - vm_compute. reflexivity.
Defined.

(** X2 on the file of the pool created before. *)
Lemma create_rejects_used_file_or_long_layout_witness :
  let res := pmemobj_map_common 3 sample_layout 8388608 0 1 closed in
  fst res = Some NULL /\ errno (snd res) = EINVAL /\ dur (snd res) = dur closed /\
  pools (snd res) = pools closed /\ rt (snd res) = rt closed /\
  map fst (new_trace closed (snd res)) = [EvCall FnUnmap].
Proof.
  refine (create_rejects_used_file_or_long_layout 3 sample_layout 8388608 1 closed _ _ _).
  - lia.
  - change (4096000 <> 0). lia.
  - left. vm_compute. reflexivity.
Defined.

(** X4 on the created sample pool of 8 MiB. *)
Lemma created_descriptor_geometry_witness :
  let d := dsc (dur (snd mapped)) in
  dsc (vol (snd mapped)) = d /\
  lanes_offset d = OBJ_LANES_OFFSET /\ nlanes d = OBJ_NLANES /\
  obj_store_offset d = lanes_offset d + nlanes d * sizeof_lane_layout /\
  obj_store_size d = (PMEMOBJ_NUM_OID_TYPES + 1) * sizeof_object_store_item /\
  obj_store_offset d + obj_store_size d = heap_offset d /\
  heap_offset d + heap_size d = 8388608 /\ 0 <= heap_size d.
Proof.
  unfold mapped.
  refine (created_descriptor_geometry 3 sample_layout 8388608 0 1 fresh_machine 4096000
            _ _ _ _ _ _ _ _).
  - lia.
  - vm_compute. reflexivity.
  - unfold NULL. lia.
  - change (0 <= 8192). lia.
  - change (0 <= 1024 * 3072). lia.
  - change (0 <= (1024 + 1) * 64). lia.
  - change (8192 + 1024 * 3072 + (1024 + 1) * 64 <= 8388608). lia.
  - lia.
Defined.

(** X5 on the created sample pool. *)
Lemma success_installs_runtime_witness :
  let m' := snd mapped in
  let rd' := if 1 =? 0
             then (if fst (open_feature_check (hdr (dur fresh_machine)) (errno fresh_machine))
                      =? 0 then 1 else 0)
             else 0 in
  errno m' = 0 /\
  exists rtv, rt m' = Some rtv /\
    installed_rt_ok 4096000 8388608 rd' (pmem_is_pmem 4096000 8388608)
      (hdr (vol m')) (dsc (vol m')) rtv.
Proof.
  unfold mapped.
  refine (success_installs_runtime 3 sample_layout 8388608 0 1 fresh_machine 4096000 _ _).
  - vm_compute. reflexivity.
  - unfold NULL. lia.
Defined.

(** X6 on the closed sample pool: it is consistent. *)
Lemma pmemobj_check_verdict_witness :
  let r := pmemobj_map_common (fst util_pool_open) sample_layout (snd util_pool_open)
             1 0 closed in
  fst (pmemobj_check sample_layout closed)
  = Some (if 4096000 =? NULL then -1
          else if Z.odd (run_id (dur closed))
                  || negb (heap_check (vol (snd r)) =? 0)
                  || negb (lane_check (vol (snd r)) =? 0)
               then 0 else 1).
Proof.
  refine (pmemobj_check_verdict sample_layout closed 4096000 _ _).
  - change (3 <> -1). lia.
  - vm_compute. reflexivity.
Defined.

(** X7 on the created sample pool. *)
Lemma create_then_open_validates_witness :
  let m' := pmemobj_close 4096000 (snd mapped) in
  map_open_checks sample_layout 0 (set_vol (dur m') m')
  = (Done (if fst (open_feature_check (hdr (dur m')) (errno m')) =? 0 then 1 else 0),
     set_errno (snd (open_feature_check (hdr (dur m')) (errno m'))) (set_vol (dur m') m')) /\
  fst (pmemobj_map_common 3 sample_layout 8388608 0 0 m') = Some (fst (util_map 3 8388608 0)).
Proof.
  unfold mapped.
  refine (create_then_open_validates 3 sample_layout 8388608 0 1 fresh_machine 4096000
            3 8388608 0 _ _ _ _ _ _ _ _ _ _ _ _ _).
  - lia.
  - vm_compute. reflexivity.
  - unfold NULL. lia.
  - reflexivity.
  - exact sample_convert_hdr_accepts.
  - exact sample_checksum_hdr_skips.
  - exact sample_checksum_dsc_skips.
  - reflexivity.
  - change (4096000 <> 0). lia.
  - reflexivity.
  - reflexivity.
  - vm_compute. discriminate.
  - vm_compute. reflexivity.
Defined.

(** X8: the sample pool, created as [L1], is opened as [L2]. *)
Lemma reopen_with_other_layout_fails_witness :
  let m' := pmemobj_close 4096000
              (snd (pmemobj_map_common 3 (Some [76; 49; 0]) 8388608 0 1 fresh_machine)) in
  let res2 := pmemobj_map_common 3 (Some [76; 50; 0]) 8388608 0 0 m' in
  fst res2 = Some NULL /\ errno (snd res2) = EINVAL /\ dur (snd res2) = dur m'.
Proof.
  refine (reopen_with_other_layout_fails 3 [76; 49; 0] 8388608 0 1 fresh_machine 4096000
            3 [76; 50; 0] 8388608 0 _ _ _ _ _).
  - lia.
  - vm_compute. reflexivity.
  - unfold NULL. lia.
  - vm_compute. discriminate.
  - change (4096000 <> 0). lia.
Defined.

(** X9 on an object of type 3 on the empty sample pool. *)
Lemma alloc_types_the_header_witness :
  pmemobj_alloc 4096000 64 3 (sample_world empty_pool)
  = match list_insert_new empty_pool (HeadBytype 3) 0 NULL OID_NULL 0 64
            (constructor_alloc_bytype {| cb_user_type := u16 3; cb_constructor := None |})
            (w_errno (sample_world empty_pool)) with
    | Some (oid, e, p') =>
        (Done oid,
         set_w_maps (<[4096000 := p']> (w_maps (sample_world empty_pool)))
           (set_w_errno e (sample_world empty_pool)))
    | None => (Abort, sample_world empty_pool)
    end /\
  (exists q',
    constructor_alloc_bytype {| cb_user_type := u16 3; cb_constructor := None |}
      1048624 empty_pool = Some q' /\
    internal_type (oobs q' (OOB_HEADER_FROM_PTR 1048624)) = OP_ALLOC /\
    user_type (oobs q' (OOB_HEADER_FROM_PTR 1048624)) = u16 3 /\
    data q' = data empty_pool /\
    pmemobj_alloc 4096000 64 3 (sample_world empty_pool)
    = (Done {| pool_uuid_lo := rt_uuid_lo (pop_rt q'); off := 1048624 |},
       set_w_maps
         (<[4096000 := sample_link (HeadBytype 3)
                         {| pool_uuid_lo := rt_uuid_lo (pop_rt q'); off := 1048624 |} q']>
            (w_maps (sample_world empty_pool)))
         (set_w_errno (w_errno (sample_world empty_pool)) (sample_world empty_pool)))).
Proof.
  assert (H : 0 <= 3 < PMEMOBJ_NUM_OID_TYPES) by (change (0 <= 3 < 1024); lia).
  pose proof (alloc_types_the_header 4096000 64 3 (sample_world empty_pool) empty_pool
                H eq_refl) as P.
  cbv zeta in P. destruct P as [A B]. split; [exact A|].
  destruct (B 1048624 empty_pool) as (q' & E & I & U & _ & _ & _ & _ & D & _).
  - unfold NULL. lia.
  - right. repeat split; reflexivity.
  - exists q'. do 4 (split; [assumption|]).
    rewrite A. cbn [list_insert_new sample_lext]. rewrite E. reflexivity.
Defined.

(** X10 on a zeroed object of 64 bytes: the call on the empty sample pool,
    the constructor on a pool with other objects. *)
Lemma zalloc_zeroes_the_payload_witness :
  pmemobj_zalloc 4096000 64 3 (sample_world empty_pool)
  = match list_insert_new empty_pool (HeadBytype 3) 0 NULL OID_NULL 0 64
            (constructor_alloc_bytype
               {| cb_user_type := u16 3; cb_constructor := Some (constructor_zalloc 64) |})
            (w_errno (sample_world empty_pool)) with
    | Some (oid, e, p') =>
        (Done oid,
         set_w_maps (<[4096000 := p']> (w_maps (sample_world empty_pool)))
           (set_w_errno e (sample_world empty_pool)))
    | None => (Abort, sample_world empty_pool)
    end /\
  exists q',
    constructor_alloc_bytype
      {| cb_user_type := u16 3; cb_constructor := Some (constructor_zalloc 64) |}
      1048624 sample_pool = Some q' /\
    (forall a, 1048624 <= a < 1048624 + 64 -> data q' a = 0 /\ media q' a = 0).
Proof.
  assert (H : 0 <= 3 < PMEMOBJ_NUM_OID_TYPES) by (change (0 <= 3 < 1024); lia).
  pose proof (zalloc_zeroes_the_payload 4096000 64 3 (sample_world empty_pool) empty_pool
                H eq_refl) as P.
  cbv zeta in P. destruct P as [A B]. split; [exact A|].
  destruct (B 1048624 sample_pool) as (q' & E & Z0 & _).
  - unfold NULL. lia.
  - right. repeat split; reflexivity.
  - exists q'. split; [exact E | exact Z0].
Defined.

(** X11 on the empty sample pool: the root of 64 bytes is allocated. *)
Lemma root_object_header_witness :
  pmemobj_root 4096000 64 (sample_world empty_pool)
  = match list_insert_new (set_rootlock true empty_pool) HeadRoot 0 NULL OID_NULL 0 64
            (constructor_alloc_root 64) (w_errno (sample_world empty_pool)) with
    | Some (oid, e, p') =>
        (Done (pe_first (root (store p'))),
         set_w_maps (<[4096000 := set_rootlock false p']> (w_maps (sample_world empty_pool)))
           (set_w_errno e (sample_world empty_pool)))
    | None =>
        (Abort,
         set_w_maps (<[4096000 := set_rootlock true empty_pool]>
                       (w_maps (sample_world empty_pool))) (sample_world empty_pool))
    end /\
  exists q', constructor_alloc_root 64 1048624 empty_pool = Some q' /\
    user_type (oobs q' (OOB_HEADER_FROM_PTR 1048624)) = UINT16_MAX /\
    oob_size (oobs q' (OOB_HEADER_FROM_PTR 1048624)) = 64.
Proof.
  destruct (root_object_header 4096000 64 (sample_world empty_pool) empty_pool)
    as [A B].
  - reflexivity.
  - reflexivity.
  - reflexivity.
  - split; [exact A|].
    destruct (B 1048624 empty_pool) as (q' & E & _ & U & Sz & _).
    + unfold NULL. lia.
    + right. repeat split; reflexivity.
    + exists q'. split; [exact E | split; [exact U | exact Sz]].
Defined.

(** X12 on an object of the sample pool, which the stand-in refuses to
    release. *)
Lemma free_swallows_list_failure_witness :
  pmemobj_free (sample_oid 1000) (sample_world sample_pool)
  = (Done tt,
     set_w_maps (<[4096000 := sample_pool]> (w_maps (sample_world sample_pool)))
       (set_w_errno 12
          (set_w_calls (w_calls (sample_world sample_pool)
                          ++ [CallCuckooGet (pool_uuid_lo (sample_oid 1000))])
             (sample_world sample_pool)))).
Proof.
  refine (proj1 (free_swallows_list_failure (sample_oid 1000) (sample_world sample_pool)
                   4096000 sample_pool (-1) 12 sample_pool _ _ _ _ _ _)).
  - change (1000 <> 0). lia.
  - reflexivity.
  - unfold NULL. lia.
  - reflexivity.
  - change (3 < 1024). lia.
  - reflexivity.
Defined.

(** X13 with the type number 1024 on the sample pool. *)
Lemma realloc_and_list_insert_new_reject_type_witness :
  pmemobj_list_insert_new 4096000 0 NULL OID_NULL 0 64 1024 (sample_world sample_pool)
  = (Done OID_NULL, set_w_errno EINVAL (sample_world sample_pool)) /\
  pmemobj_realloc 4096000 (sample_oid 1000) 64 1024 (sample_world sample_pool)
  = (Done OID_NULL, set_w_errno EINVAL (sample_world sample_pool)).
Proof.
  assert (H : 1024 < 0 \/ PMEMOBJ_NUM_OID_TYPES <= 1024)
    by (right; change (1024 <= 1024); lia).
  destruct (realloc_and_list_insert_new_reject_type 4096000 (sample_oid 1000) 64 1024
              0 NULL OID_NULL 0 (sample_world sample_pool) sample_pool H eq_refl)
    as (A & B & _).
  split; [exact A|]. apply B. change (3 < 1024). lia.
Defined.

(** X14: an object of 112 usable bytes grows to 200 bytes. *)
Lemma zrealloc_zeroes_the_growth_witness :
  exists q', constructor_zrealloc 112 200 1048624 sample_pool = Some q' /\
    (forall a, 1048624 + 112 <= a < 1048624 + 200 -> data q' a = 0 /\ media q' a = 0) /\
    oobs q' = oobs sample_pool.
Proof.
  destruct (zrealloc_zeroes_the_growth 112 200 1048624 sample_pool)
    as [(q' & E & Z0 & _ & O & _) _].
  - unfold NULL. lia.
  - lia.
  - lia.
  - right. repeat split; reflexivity.
  - exists q'. split; [exact E | split; [exact Z0 | exact O]].
Defined.

(** X15 on the two objects of type 3 of the sample pool. *)
Lemma walk_enumerates_type_list_witness :
  pmemobj_first 4096000 3 (sample_world sample_pool)
  = (Done (hd OID_NULL [sample_oid 1000; sample_oid 2000]), sample_world sample_pool) /\
  (forall i o, [sample_oid 1000; sample_oid 2000] !! i = Some o ->
     fst (pmemobj_next o (sample_world sample_pool))
     = Done (default OID_NULL ([sample_oid 1000; sample_oid 2000] !! S i))) /\
  walk (S (length [sample_oid 1000; sample_oid 2000]))
    (hd OID_NULL [sample_oid 1000; sample_oid 2000]) (sample_world sample_pool)
  = Some [sample_oid 1000; sample_oid 2000].
Proof.
  refine (walk_enumerates_type_list 4096000 sample_pool 3
            [sample_oid 1000; sample_oid 2000] 1234605616436508552
            (sample_world sample_pool) _ _ _ _ _ _).
  - change (0 <= 3 < 1024). lia.
  - unfold NULL. lia.
  - reflexivity.
  - reflexivity.
  - repeat constructor.
  - exact sample_pool_type_list.
Defined.

(** X16 on the empty sample pool, where the root is allocated. *)
Lemma pmemobj_root_releases_lock_witness :
  rootlock empty_pool = false /\
  exists p', w_maps (snd rooted) !! 4096000 = Some p' /\ rootlock p' = false /\
             (sample_oid 1048624 = OID_NULL \/
              sample_oid 1048624 = pe_first (root (store p'))).
Proof.
  refine (pmemobj_root_releases_lock 4096000 64 (sample_world empty_pool) empty_pool
            (sample_oid 1048624) (snd rooted) _ _).
  - reflexivity.
  - vm_compute. reflexivity.
Defined.

(** X17 on the created sample pool. *)
Lemma unmaps_exactly_on_failure_witness :
  4096000 = fst (util_map 3 8388608 0) /\
  ~ In (EvCall FnUnmap) (map fst (new_trace fresh_machine (snd mapped))).
Proof.
  assert (H : fst (util_map 3 8388608 0) <> NULL) by (change (4096000 <> 0); lia).
  pose proof (unmaps_exactly_on_failure 3 sample_layout 8388608 0 1 fresh_machine H) as P.
  cbv zeta in P. destruct P as [_ P]. unfold mapped. apply P.
  - vm_compute. reflexivity.
  - unfold NULL. lia.
Defined.

(** C1 on the sample pool, mapped through the create path: the media at
    each event of the create sequence. *)
Lemma create_path_order_witness :
  let m' := snd mapped in
  let lanes_len := OBJ_NLANES * sizeof_lane_layout in
  let store_off := u64 (OBJ_LANES_OFFSET + lanes_len) in
  let store_len := u64 ((PMEMOBJ_NUM_OID_TYPES + 1) * sizeof_object_store_item) in
  let vl := memset OBJ_LANES_OFFSET 0 lanes_len (bytes (dur fresh_machine)) in
  let vs := memset store_off 0 store_len vl in
  let dl := copy_range OBJ_LANES_OFFSET lanes_len vl (bytes (dur fresh_machine)) in
  let ds := copy_range store_off store_len vs dl in
  map fst (new_trace fresh_machine m') = create_events sample_layout ++ runtime_events 0 /\
  exists H D vb db rest,
    created_hdr_ok (hdr (dur fresh_machine)) H /\ created_dsc_ok sample_layout 8388608 D /\
    heap_init (set_checksum 0 D) (vs, ds) = (0, (vb, db)) /\
    let I1 := set_hdr H (dur fresh_machine) in
    let I2 := set_run_id 0 I1 in
    let I3 := set_bytes dl I2 in
    let I4 := set_bytes ds I3 in
    let I5 := set_bytes db I4 in
    new_trace fresh_machine m'
    = snap (dur fresh_machine) (repeat (EvWrite RgHdr) 11 ++ [EvMsync RgHdr])
      ++ snap I1 [EvWrite RgRunId; EvMsync RgRunId]
      ++ snap I2 [EvWrite RgLanes; EvMsync RgLanes]
      ++ snap I3 [EvWrite RgStore; EvMsync RgStore]
      ++ snap I4 (repeat (EvWrite RgDsc)
                    (match sample_layout with Some _ => 8 | None => 7 end)
                  ++ [EvCall FnHeapInit])
      ++ snap I5 [EvWrite RgDsc; EvMsync RgDsc]
      ++ (EvWrite RgRunId, set_dsc D I5) :: rest.
Proof.
  unfold mapped.
  refine (create_path_order 3 sample_layout 8388608 0 1 fresh_machine 4096000 _ _ _).
  - lia.
  - vm_compute. reflexivity.
  - unfold NULL. lia.
Defined.
